(** * pyMMF: the scalar mode solver of multimode fibres, embedded in Rocq

    A shallow embedding of [src/pyMMF/pyMMF.py]: the finite-difference
    operator that [propagationModeSolver.solve] assembles, the selection of the
    guided eigenpairs, the operators a [Modes] object derives from them, the
    coupling matrix of [randomGroupCoupling], the mode-count estimates and
    [saveData].

    Conventions of the embedding.
    - Python's [float] and numpy's [float64] are read as the real numbers [R],
      [complex128] as pairs of reals: rounding, overflow, NaN and the sign of
      zero are left out, and so is what a division by zero does (an exception
      for a Python float, inf or nan for numpy's): [x / 0] is that of [R], and
      a property of a quotient takes its divisor non-zero.  The one line
      whose property is a matter of rounding, the angle conversion of
      [getModeMatrix], is given in binary64 as well, with the primitive
      floats of Rocq.
    - A Python exception is an [Exception] value; a method is a function of the
      state it can change (its object, the logger, the disk) in the monad
      [Py.M].  A logged message is recorded as the program writes it, format
      string included; the clock is not modelled.
    - Library routines whose result the program only passes on (ARPACK's
      [eigs], [expm], the image rotation and shift of [scipy.ndimage], the
      random matrices of [randomGroupCoupling]) are variables of a section.  [scipy.sparse.diags], whose argument checks
      decide what [solve] does, is written out. *)

From Stdlib Require Import String.
From Stdlib Require Import Reals Lra Lia ZArith Bool Arith List.
From Stdlib Require PrimFloat.
Import ListNotations.

Local Open Scope R_scope.

(* ===================================================================== *)
(** ** Python effects: exceptions and mutable state *)
(* ===================================================================== *)

Module Py.

(** The exceptions the modelled code can raise. *)
Inductive Exception : Type :=
| AssertionError
| NameError (name : string)
| AttributeError (attr : string)
| IndexError
| ValueError
| TypeError
| LibraryError.          (* raised inside ARPACK's eigs *)

Inductive Outcome (A : Type) : Type :=
| Return (a : A)
| Raise (e : Exception).
Arguments Return {A} a.
Arguments Raise {A} e.

(** A computation that reads and writes a state [S] and may raise; what it
    wrote before raising stays written. *)
Definition M (S A : Type) : Type := S -> Outcome A * S.

Definition ret {S A} (a : A) : M S A := fun s => (Return a, s).

Definition bind {S A B} (c : M S A) (k : A -> M S B) : M S B :=
  fun s =>
    match c s with
    | (Return a, s') => k a s'
    | (Raise e, s') => (Raise e, s')
    end.

Definition raise {S A} (e : Exception) : M S A := fun s => (Raise e, s).

Definition get {S} : M S S := fun s => (Return s, s).

Definition modify {S} (f : S -> S) : M S unit := fun s => (Return tt, f s).

(** [lift o]: a pure computation that may raise. *)
Definition lift {S A} (o : Outcome A) : M S A := fun s => (o, s).

(** [assert(b)] *)
Definition assert {S} (b : bool) : M S unit :=
  if b then ret tt else raise AssertionError.

(** [try: body  except: handler] with a bare [except], which catches every
    exception. *)
Definition try_except {S A} (body : M S A) (handler : M S A) : M S A :=
  fun s =>
    match body s with
    | (Return a, s') => (Return a, s')
    | (Raise _, s') => handler s'
    end.

(** Pure binding on outcomes. *)
Definition obind {A B} (o : Outcome A) (k : A -> Outcome B) : Outcome B :=
  match o with
  | Return a => k a
  | Raise e => Raise e
  end.

End Py.

Import Py.

Declare Scope py_scope.
Delimit Scope py_scope with py.
Notation "x <- c ;; k" := (Py.bind c (fun x => k))
  (at level 61, c at next level, right associativity) : py_scope.
Notation "c ;;; k" := (Py.bind c (fun _ => k))
  (at level 61, right associativity) : py_scope.
Notation "x <~ c ;; k" := (Py.obind c (fun x => k))
  (at level 61, c at next level, right associativity) : py_scope.

(** Python lists: [l * k] and the slices the program takes. *)
Module PyList.

(** [l * k] *)
Fixpoint times {A} (l : list A) (k : nat) : list A :=
  match k with
  | O => []
  | S k' => l ++ times l k'
  end.

(** [l[k:]] for [k >= 0] *)
Definition from {A} (k : nat) (l : list A) : list A := skipn k l.

(** [l[:-k]] for [k >= 0]: [l[:-0]] is [l[:0]], the empty list. *)
Definition upto_neg {A} (k : nat) (l : list A) : list A :=
  match k with
  | O => []
  | _ => firstn (length l - k) l
  end.

(** [for i, x in enumerate(l)] *)
Definition enumerate {A} (l : list A) : list (nat * A) :=
  combine (seq 0 (length l)) l.

End PyList.

(* ===================================================================== *)
(** ** Real comparisons as booleans *)
(* ===================================================================== *)

Definition Rltb (x y : R) : bool := if Rlt_dec x y then true else false.
Definition Reqb (x y : R) : bool := if Req_dec_T x y then true else false.

(* ===================================================================== *)
(** ** complex128 *)
(* ===================================================================== *)

Module Cx.

Record complex : Type := mkC { Re : R; Im : R }.

Definition of_R (x : R) : complex := mkC x 0.
Definition zero : complex := of_R 0.
(** [complex(0,1)] *)
Definition j : complex := mkC 0 1.

Definition add (a b : complex) : complex := mkC (Re a + Re b) (Im a + Im b).
Definition sub (a b : complex) : complex := mkC (Re a - Re b) (Im a - Im b).
Definition mul (a b : complex) : complex :=
  mkC (Re a * Re b - Im a * Im b) (Re a * Im b + Im a * Re b).
Definition conj (a : complex) : complex := mkC (Re a) (- Im a).
(** a complex number times and over a real one *)
Definition scale (x : R) (a : complex) : complex := mkC (x * Re a) (x * Im a).
Definition div_R (a : complex) (x : R) : complex := mkC (Re a / x) (Im a / x).

(** [np.abs] *)
Definition abs (a : complex) : R := sqrt (Re a ^ 2 + Im a ^ 2).

(** [np.sqrt] of a complex number: the principal square root, the one in the
    right half plane. *)
Definition csqrt (a : complex) : complex :=
  mkC (sqrt ((abs a + Re a) / 2))
      ((if Rltb (Im a) 0 then -1 else 1) * sqrt ((abs a - Re a) / 2)).

(** numpy orders complex numbers by real part, then by imaginary part; a
    float compared with a complex number is the complex number with
    imaginary part 0. *)
Definition ltb (a b : complex) : bool :=
  Rltb (Re a) (Re b) || (Reqb (Re a) (Re b) && Rltb (Im a) (Im b)).
(** [z > x] and [z < x] for a [complex128] z and a [float64] x *)
Definition gt_R (z : complex) (x : R) : bool := ltb (of_R x) z.
Definition lt_R (z : complex) (x : R) : bool := ltb z (of_R x).

End Cx.

Import Cx.

(* ===================================================================== *)
(** ** numpy arrays *)
(* ===================================================================== *)

Module Np.

(** A one-dimensional array is a list.  A two-dimensional array carries its
    shape, so that an array with no row still has its number of columns. *)
Record ndarray2 (A : Type) : Type := mk2 { shape : nat * nat; data : list (list A) }.
Arguments mk2 {A} shape data.
Arguments shape {A} _.
Arguments data {A} _.

Definition nrows {A} (a : ndarray2 A) : nat := fst (shape a).
Definition ncols {A} (a : ndarray2 A) : nat := snd (shape a).

(** [a[i, k]], with [d] outside the array *)
Definition at2 {A} (d : A) (a : ndarray2 A) (i k : nat) : A :=
  nth k (nth i (data a) []) d.

(** [a.flatten()], row-major *)
Definition flatten {A} (a : ndarray2 A) : list A := concat (data a).

(** [a.astype(np.complex128)] and the promotion of a real operand *)
Definition astype_complex (a : ndarray2 R) : ndarray2 complex :=
  mk2 (shape a) (map (map Cx.of_R) (data a)).

(** [np.min(a)], [np.max(a)] of the elements: a [ValueError] on an empty array *)
Definition amin (l : list R) : Outcome R :=
  match l with
  | [] => Raise ValueError
  | x :: t => Return (fold_left Rmin t x)
  end.
Definition amax (l : list R) : Outcome R :=
  match l with
  | [] => Raise ValueError
  | x :: t => Return (fold_left Rmax t x)
  end.

(** [np.sum] *)
Definition sum (l : list R) : R := fold_left Rplus l 0.

Fixpoint map2 {A B C} (f : A -> B -> C) (a : list A) (b : list B) : list C :=
  match a, b with
  | x :: a', y :: b' => f x y :: map2 f a' b'
  | _, _ => []
  end.

(** An elementwise operation on two one-dimensional arrays: equal lengths,
    or one operand of length 1 that is broadcast; a [ValueError] otherwise. *)
Definition broadcast {A B C} (f : A -> B -> C) (a : list A) (b : list B)
  : Outcome (list C) :=
  if (length a =? length b)%nat then Return (map2 f a b)
  else match a, b with
       | [x], _ => Return (map (f x) b)
       | _, [y] => Return (map (fun x => f x y) a)
       | _, _ => Raise ValueError
       end.

(** [np.zeros((r, c))] *)
Definition zeros {A} (z : A) (r c : nat) : ndarray2 A :=
  mk2 (r, c) (repeat (repeat z c) r).

(** [np.diag(v)] of a one-dimensional [v]: the square array with [v] on
    its diagonal, built row by row. *)
Fixpoint diag_rows {A} (z : A) (v : list A) : list (list A) :=
  match v with
  | [] => []
  | x :: t => (x :: repeat z (length t)) :: map (cons z) (diag_rows z t)
  end.
Definition diag {A} (z : A) (v : list A) : ndarray2 A :=
  mk2 (length v, length v) (diag_rows z v).

(** [a[:, k]]: an [IndexError] when the array has no column [k] *)
Definition column {A} (d : A) (a : ndarray2 A) (k : nat) : Outcome (list A) :=
  if (k <? ncols a)%nat then Return (map (fun row => nth k row d) (data a))
  else Raise IndexError.

(** [a.transpose()] *)
Definition transpose {A} (d : A) (a : ndarray2 A) : ndarray2 A :=
  mk2 (ncols a, nrows a)
      (map (fun k => map (fun row => nth k row d) (data a)) (seq 0 (ncols a))).

(** [a.conjugate()] *)
Definition conjugate (a : ndarray2 complex) : ndarray2 complex :=
  mk2 (shape a) (map (map Cx.conj) (data a)).

Definition csum (l : list complex) : complex := fold_left Cx.add l Cx.zero.

(** [a.dot(b)] of two-dimensional arrays: a [ValueError] when the shapes
    are not aligned *)
Definition dot (a b : ndarray2 complex) : Outcome (ndarray2 complex) :=
  if (ncols a =? nrows b)%nat then
    Return (mk2 (nrows a, ncols b)
                (map (fun row =>
                        map (fun k =>
                               csum (map2 Cx.mul row
                                          (map (fun r => nth k r Cx.zero) (data b))))
                            (seq 0 (ncols b)))
                     (data a)))
  else Raise ValueError.

(** [s * a] for a real scalar [s] *)
Definition scale (s : R) (a : ndarray2 complex) : ndarray2 complex :=
  mk2 (shape a) (map (map (Cx.scale s)) (data a)).

(** Broadcasting of two shapes along one axis. *)
Definition bdim (m n : nat) : option nat :=
  if (m =? n)%nat then Some m
  else if (m =? 1)%nat then Some n
  else if (n =? 1)%nat then Some m
  else None.

(** [a - b] of two-dimensional arrays, with numpy's broadcasting: an axis
    of length 1 is stretched; a [ValueError] when the shapes do not fit. *)
Definition sub2 (a b : ndarray2 complex) : Outcome (ndarray2 complex) :=
  match bdim (nrows a) (nrows b), bdim (ncols a) (ncols b) with
  | Some r, Some c =>
      let pick (x : ndarray2 complex) (i k : nat) :=
        at2 Cx.zero x (if (nrows x =? 1)%nat then 0%nat else i)
                      (if (ncols x =? 1)%nat then 0%nat else k) in
      Return (mk2 (r, c)
                  (map (fun i => map (fun k => Cx.sub (pick a i k) (pick b i k))
                                     (seq 0 c))
                       (seq 0 r)))
  | _, _ => Raise ValueError
  end.

Fixpoint list_set {A} (k : nat) (x : A) (l : list A) : list A :=
  match l, k with
  | [], _ => []
  | _ :: t, O => x :: t
  | y :: t, S k' => y :: list_set k' x t
  end.

(** [a[r0:r1, c] = v] for a one-dimensional [v]: the row slice is clipped
    to the array, the column must exist ([IndexError]), and [v] must have
    the length of the slice or length 1 ([ValueError]). *)
Definition set_column {A} (d : A) (a : ndarray2 A) (r0 r1 c : nat) (v : list A)
  : Outcome (ndarray2 A) :=
  if negb (c <? ncols a)%nat then Raise IndexError
  else
    let lo := Nat.min r0 (nrows a) in
    let hi := Nat.max lo (Nat.min r1 (nrows a)) in
    if (length v =? hi - lo)%nat || (length v =? 1)%nat then
      Return (mk2 (shape a)
                  (map (fun '(i, row) =>
                          if (lo <=? i)%nat && (i <? hi)%nat
                          then list_set c
                                 (nth (if (length v =? hi - lo)%nat
                                       then i - lo else 0)%nat v d) row
                          else row)
                       (PyList.enumerate (data a))))
    else Raise ValueError.

(** [v.reshape([n, n])]: a [ValueError] unless [v] has [n*n] elements *)
Fixpoint chunks {A} (n k : nat) (v : list A) : list (list A) :=
  match k with
  | O => []
  | S k' => firstn n v :: chunks n k' (skipn n v)
  end.
Definition reshape_square {A} (n : nat) (v : list A) : Outcome (ndarray2 A) :=
  if (length v =? n * n)%nat then Return (mk2 (n, n) (chunks n n v))
  else Raise ValueError.

(** [re + complex(0,1)*im] of two real arrays of one shape *)
Definition of_parts (re im : ndarray2 R) : ndarray2 complex :=
  mk2 (shape re) (map2 (map2 Cx.mkC) (data re) (data im)).
Definition real (a : ndarray2 complex) : ndarray2 R :=
  mk2 (shape a) (map (map Cx.Re) (data a)).
Definition imag (a : ndarray2 complex) : ndarray2 R :=
  mk2 (shape a) (map (map Cx.Im) (data a)).

End Np.

Import Np.

(* ===================================================================== *)
(** ** scipy.sparse.diags *)
(* ===================================================================== *)

Module Scipy.

(** A sparse matrix in diagonal storage: its shape and, for each stored
    diagonal, its offset (0 the main diagonal, positive above it) and its
    entries from the top left. *)
Record dia_matrix : Type :=
  mkDia { dia_shape : nat * nat; diagonals : list (Z * list complex) }.

(** The entry at row [i], column [k]: the entry of the stored diagonal of
    offset [k - i], 0 where none is stored. *)
Definition dia_at (H : dia_matrix) (i k : nat) : complex :=
  match find (fun od => (fst od =? Z.of_nat k - Z.of_nat i)%Z) (diagonals H) with
  | Some (_, d) => nth (Nat.min i k) d Cx.zero
  | None => Cx.zero
  end.

Fixpoint nodupb (l : list Z) : bool :=
  match l with
  | [] => true
  | x :: t => negb (existsb (Z.eqb x) t) && nodupb t
  end.

(** One diagonal laid into a square matrix of side [m] at offset [off]:
    the diagonal holds [m - |off|] entries; a longer sequence is cut, a
    sequence of length 1 is repeated, any other length is a [ValueError]. *)
Definition fit_diagonal (m : Z) (off : Z) (d : list R) : Outcome (list complex) :=
  let len := (m - Z.abs off)%Z in
  if (len <? 0)%Z then Raise ValueError
  else
    let len := Z.to_nat len in
    if (len <=? length d)%nat then Return (map Cx.of_R (firstn len d))
    else match d with
         | [x] => Return (repeat (Cx.of_R x) len)
         | _ => Raise ValueError
         end.

Fixpoint fit_all (m : Z) (ods : list (Z * list R)) : Outcome (list (Z * list complex)) :=
  match ods with
  | [] => Return []
  | (off, d) :: rest =>
      (fd <~ fit_diagonal m off d ;;
       frest <~ fit_all m rest ;;
       Return ((off, fd) :: frest))%py
  end.

(** [scipy.sparse.diags(diagonals, offsets, dtype=np.complex128)] for a
    sequence of offsets.  It raises [ValueError] when the numbers of
    diagonals and of offsets differ ("Different number of diagonals and
    offsets."), takes the side of the matrix from the first diagonal and
    its offset, lays every diagonal, and raises [ValueError] again when an
    offset is repeated. *)
Definition sparse_diags (diags : list (list R)) (offsets : list Z)
  : Outcome dia_matrix :=
  if negb (length diags =? length offsets)%nat then Raise ValueError
  else
    match diags, offsets with
    | d0 :: _, o0 :: _ =>
        let m := (Z.of_nat (length d0) + Z.abs o0)%Z in
        (ds <~ fit_all m (combine offsets diags) ;;
         if nodupb offsets
         then Return (mkDia (Z.to_nat m, Z.to_nat m) ds)
         else Raise ValueError)%py
    | _, _ => Raise IndexError
    end.

End Scipy.

Import Scipy.

(* ===================================================================== *)
(** ** The objects of the program *)
(* ===================================================================== *)

(** Modelled from the spec: the class [IndexProfile], imported from
    [index_profile.py], which is not among the sources.  The spec's data
    model gives it the "grid side length npoints, grid spacing dh, sampled
    refractive index field n (npoints x npoints), coordinate field X (and
    implicitly Y)"; pyMMF.py reads the attributes [npoints], [dh], [n] and
    [X], and never [Y]. *)
Record IndexProfile : Type := mkIndexProfile {
  npoints : nat;
  dh : R;
  n : ndarray2 R;
  X : ndarray2 R;
  Y : ndarray2 R
}.

Inductive LogLevel : Type := DEBUG | INFO | WARNING | ERROR.
Definition LogRecord : Type := (LogLevel * string)%type.

(** What [np.savez] stores under a name. *)
Inductive NdArray : Type :=
| Arr1C (a : list complex)
| Arr2C (a : ndarray2 complex)
| Arr2R (a : ndarray2 R).

(** A [.npz] archive: its named arrays, and whether its members are
    compressed ([np.savez] stores them uncompressed, [np.savez_compressed]
    deflates them). *)
Record Archive : Type := mkArchive {
  compressed : bool;
  members : list (string * NdArray)
}.

(** The state a method of an object of class [T] can change: the object, the
    records handed to the module's logger, and the files written. *)
Record World (T : Type) : Type := mkWorld {
  self : T;
  logged : list LogRecord;
  disk : list (string * Archive)
}.
Arguments mkWorld {T} self logged disk.
Arguments self {T} _.
Arguments logged {T} _.
Arguments disk {T} _.

Definition set_self {T} (f : T -> T) : Py.M (World T) unit :=
  Py.modify (fun w => mkWorld (f (self w)) (logged w) (disk w)).

(** [logger.<level>(msg)] *)
Definition log {T} (lvl : LogLevel) (msg : string) : Py.M (World T) unit :=
  Py.modify (fun w => mkWorld (self w) (logged w ++ [(lvl, msg)]) (disk w)).

(** [np.savez(outfile, **arrays)] *)
Definition savez {T} (outfile : string) (arrays : list (string * NdArray))
  : Py.M (World T) unit :=
  Py.modify (fun w => mkWorld (self w) (logged w)
                              ((outfile, mkArchive false arrays) :: disk w)).

(** Truth value of a float attribute that may be [None]. *)
Definition truthy (x : option R) : bool :=
  match x with
  | Some v => negb (Reqb v 0)
  | None => false
  end.

Definition is_some {A} (x : option A) : bool :=
  match x with Some _ => true | None => false end.

(** The names bound at module level in pyMMF.py: its imports, its logger,
    its functions and its classes.  A name a function does not bind itself
    is looked up here; an unbound name raises [NameError]. *)
Definition module_globals : list string :=
  [ "np"; "plt"; "sparse"; "eigsh"; "eigs"; "expm"; "jv"; "kv"; "iv";
    "scipy_shift"; "scipy_rotate"; "sys"; "time"; "SI"; "IndexProfile";
    "get_logger"; "logger"; "handleException"; "TransmissionMatrix"; "Modes";
    "randomGroupCoupling"; "estimateNumModesGRIN"; "estimateNumModesSI";
    "LPModeProfile"; "cart2pol"; "propagationModeSolver" ]%string.

(** How a name read inside a function is bound.  No builtin of Python is
    called [B], [T] or any other name the modelled functions read. *)
Inductive Value : Type :=
| VNone
| VFloat (x : R)
| VInt (k : nat)
| VArray (a : ndarray2 complex)
| VObject.

Inductive Binding : Type :=
| Local (v : Value)      (* a parameter or a variable assigned in the function *)
| Global                 (* bound at module level: a module, a function, a class *)
| Unbound.

Definition resolve (locals : list (string * Value)) (name : string) : Binding :=
  match find (fun kv => String.eqb (fst kv) name) locals with
  | Some (_, v) => Local v
  | None => if existsb (String.eqb name) module_globals then Global else Unbound
  end.

(** Reading the name [name] where an array is needed. *)
Definition load_array {S} (locals : list (string * Value)) (name : string)
  : Py.M S (ndarray2 complex) :=
  match resolve locals name with
  | Local (VArray a) => Py.ret a
  | Local _ | Global => Py.raise TypeError
  | Unbound => Py.raise (NameError name)
  end.

Local Open Scope py_scope.
Local Open Scope string_scope.
Local Open Scope list_scope.

(* ===================================================================== *)
(** ** class Modes *)
(* ===================================================================== *)

Module Modes.

(** The attributes of a [Modes] object that the modelled methods read or
    write ([u], [w], [modesList], [m] and [l] are set to empty lists by
    [__init__] and never touched again).  [curvature] is an attribute that
    [__init__] does not create: [None] here means that the object has no
    such attribute, [Some c] that it has one, of value [c]. *)
Record t : Type := mk {
  betas : list complex;
  number : nat;
  indexProfile : option IndexProfile;
  profiles : list (list complex);
  modeMatrix : option (ndarray2 complex);
  wl : option R;
  curvature : option (option R)
}.

(** [Modes.__init__] *)
Definition init : t :=
  {| betas := []; number := 0; indexProfile := None; profiles := [];
     modeMatrix := None; wl := None; curvature := None |}.

Definition set_modeMatrix (M : ndarray2 complex) (s : t) : t :=
  {| betas := betas s; number := number s; indexProfile := indexProfile s;
     profiles := profiles s; modeMatrix := Some M; wl := wl s;
     curvature := curvature s |}.

(** [angle/np.pi*180.] *)
Definition to_degrees (angle : R) : R := angle / PI * 180.

Section Binary64.

Import PrimFloat.

(** [np.pi], the binary64 number nearest to pi: 3.141592653589793 *)
Definition np_pi : float := 0x1.921fb54442d18p+1%float.

(** [angle/np.pi*180.] in binary64, as Python evaluates it for a float
    [angle]: the division first, then the multiplication, each rounded to
    nearest. *)
Definition to_degrees_binary64 (angle : float) : float :=
  (angle / np_pi * 180)%float.

End Binary64.

Section Methods.

(** [scipy.ndimage.rotate(input, angle, reshape=False)], the angle in
    degrees, and [scipy.ndimage.shift(input, shift)]. *)
Variable scipy_rotate : ndarray2 R -> R -> ndarray2 R.
Variable scipy_shift : ndarray2 R -> list R -> ndarray2 R.
(** [scipy.linalg.expm] *)
Variable expm : ndarray2 complex -> ndarray2 complex.

(** The body of the two loops of [getModeMatrix], for polarization [pol]
    and the profile [modeProfile] of index [ind]. *)
Definition place_profile (s : t) (npola : nat) (shift : option (list R))
           (angle : option R) (N : nat) (M : ndarray2 complex)
           (pol ind : nat) (modeProfile : list complex)
  : Outcome (ndarray2 complex) :=
  match shift, angle with
  | None, None =>
      set_column Cx.zero M (pol * N) ((pol + 1) * N) (pol * number s + ind)
                 modeProfile
  | _, _ =>
      ip <~ match indexProfile s with
            | Some ip => Return ip
            | None => Raise (AttributeError "npoints")
            end ;;
      mode2D <~ reshape_square (npoints ip) modeProfile ;;
      let mode2D :=
        match angle with
        | Some a => of_parts (scipy_rotate (real mode2D) a)
                             (scipy_rotate (imag mode2D) a)
        | None => mode2D
        end in
      let mode2D :=
        match shift with
        | Some sh => of_parts (scipy_shift (real mode2D) sh)
                              (scipy_shift (imag mode2D) sh)
        | None => mode2D
        end in
      set_column Cx.zero M (pol * N) ((pol + 1) * N) (pol * number s + ind)
                 (flatten mode2D)
  end.

Fixpoint place_all (s : t) (npola : nat) (shift : option (list R))
         (angle : option R) (N : nat) (M : ndarray2 complex)
         (todo : list (nat * (nat * list complex)))
  : Outcome (ndarray2 complex) :=
  match todo with
  | [] => Return M
  | (pol, (ind, modeProfile)) :: rest =>
      M' <~ place_profile s npola shift angle N M pol ind modeProfile ;;
      place_all s npola shift angle N M' rest
  end.

(** [Modes.getModeMatrix(npola, shift, angle)] *)
Definition getModeMatrix (npola : nat) (shift : option (list R))
           (angle : option R) : Py.M (World t) (ndarray2 complex) :=
  w <- Py.get ;;
  let s := self w in
  Py.assert (negb (length (profiles s) =? 0)%nat) ;;;
  match shift with
  | Some sh => Py.assert (length sh =? 2)%nat
  | None => Py.ret tt
  end ;;;
  let N := length (hd [] (profiles s)) in
  let M := zeros Cx.zero (N * npola) (npola * number s) in
  let angle := option_map to_degrees angle in
  M <- Py.lift (place_all s npola shift angle N M
                  (list_prod (seq 0 npola) (PyList.enumerate (profiles s)))) ;;
  set_self (set_modeMatrix M) ;;;
  Py.ret M.

(** [Modes.getEvolutionOperator(npola, curvature)]; the result [None] is
    Python's [None], returned by the bare [return]. *)
Definition getEvolutionOperator (npola : nat) (curv : option R)
  : Py.M (World t) (option (ndarray2 complex)) :=
  w <- Py.get ;;
  let s := self w in
  let betas_vec := PyList.times (betas s) npola in
  let B := diag Cx.zero betas_vec in
  match curv with
  | None => Py.ret (Some B)
  | Some radius =>
      Py.assert (truthy (wl s)) ;;;
      Py.assert (is_some (indexProfile s)) ;;;
      straight <-
        Py.try_except
          (c <- match curvature s with
                | Some c => Py.ret c
                | None => Py.raise (AttributeError "curvature")
                end ;;
           Py.assert (negb (is_some c)) ;;;
           Py.ret true)
          (log ERROR
             "Adding curvature to the propagation operator requires the system to be solved for a straight fiber!" ;;;
           Py.ret false) ;;
      if negb straight then Py.ret None
      else
        match modeMatrix s with
        | None => _ <- getModeMatrix npola None None ;; Py.ret tt
        | Some _ => Py.ret tt
        end ;;;
        M <- getModeMatrix 1 None None ;;
        ip <- match indexProfile s with
              | Some ip => Py.ret ip
              | None => Py.raise (AttributeError "X")
              end ;;
        let x := astype_complex (diag 0 (flatten (X ip))) in
        Mhx <- Py.lift (dot (conjugate (transpose Cx.zero M)) x) ;;
        A <- Py.lift (dot Mhx M) ;;
        let k0 := 2 * PI / match wl s with Some l => l | None => 0 end in
        nmin <- Py.lift (amin (flatten (n ip))) ;;
        B' <- Py.lift (sub2 B (scale (nmin * k0 / radius) A)) ;;
        Py.ret (Some B')
  end.

(** [Modes.getPropagationMatrix(distance, npola, curvature)].  The
    function binds [self], its three parameters and [T]; the matrix it
    exponentiates is read from the name [B]. *)
Definition getPropagationMatrix (distance : R) (npola : nat) (curv : option R)
  : Py.M (World t) (ndarray2 complex) :=
  T <- getEvolutionOperator npola curv ;;
  let locals :=
    [ ("self", VObject); ("distance", VFloat distance); ("npola", VInt npola);
      ("curvature", match curv with Some c => VFloat c | None => VNone end);
      ("T", match T with Some a => VArray a | None => VNone end) ] in
  B <- load_array locals "B" ;;
  Py.ret (expm (mk2 (shape B)
                    (map (map (fun z => Cx.scale distance (Cx.mul Cx.j z)))
                         (data B)))).

End Methods.

End Modes.

(* ===================================================================== *)
(** ** randomGroupCoupling *)
(* ===================================================================== *)

(** [np.max] of a list of indices: a [ValueError] on an empty list *)
Definition imax (l : list nat) : Outcome nat :=
  match l with
  | [] => Raise ValueError
  | x :: t => Return (fold_left Nat.max t x)
  end.

(** [[np.max(g) for g in groups]] *)
Fixpoint group_maxima (groups : list (list nat)) : Outcome (list nat) :=
  match groups with
  | [] => Return []
  | g :: rest =>
      mx <~ imax g ;;
      ms <~ group_maxima rest ;;
      Return (mx :: ms)
  end.

(** [H[i, j] = x] *)
Definition set_at (H : ndarray2 complex) (i j : nat) (x : complex) : ndarray2 complex :=
  mk2 (shape H)
      (map (fun '(r, row) => if (r =? i)%nat then list_set j x row else row)
           (PyList.enumerate (data H))).

(** [H[np.ix_(g,g)] = u]: the entry [(g[a], g[b])] receives [u[a, b]]; an
    [IndexError] when an index of [g] is outside [H]. *)
Definition assign_block (H : ndarray2 complex) (g : list nat)
           (u : nat -> nat -> complex) : Outcome (ndarray2 complex) :=
  if forallb (fun i => (i <? nrows H)%nat && (i <? ncols H)%nat) g then
    Return (fold_left (fun M '((a, ga), (b, gb)) => set_at M ga gb (u a b))
                      (list_prod (PyList.enumerate g) (PyList.enumerate g)) H)
  else Raise IndexError.

Section RandomGroupCoupling.

(** The state of numpy's global random generator, and the matrix [u] of
    [np.linalg.svd(np.random.randn(k,k)+complex(0,1)*np.random.randn(k,k))],
    which is k x k: its entries [u[a, b]] and the generator afterwards. *)
Variable Rng : Type.
Variable random_unitary : nat -> Rng -> (nat -> nat -> complex) * Rng.

(** The loop [for g in groups] *)
Fixpoint couple_groups (H : ndarray2 complex) (groups : list (list nat))
  : Py.M Rng (ndarray2 complex) :=
  match groups with
  | [] => Py.ret H
  | g :: rest =>
      let g_size := length g in
      u <- (fun rng => let (u, rng') := random_unitary g_size rng in (Return u, rng')) ;;
      H' <- Py.lift (assign_block H g u) ;;
      couple_groups H' rest
  end.

(** [randomGroupCoupling(groups)], for groups of indices *)
Definition randomGroupCoupling (groups : list (list nat)) : Py.M Rng (ndarray2 complex) :=
  ms <- Py.lift (group_maxima groups) ;;
  mx <- Py.lift (imax ms) ;;
  let size := (mx + 1)%nat in
  couple_groups (zeros Cx.zero size size) groups.

End RandomGroupCoupling.

(* ===================================================================== *)
(** ** The mode-count estimates *)
(* ===================================================================== *)

(** [estimateNumModesGRIN(wl, a, NA)]; [np.ceil(...).astype(int)] is the
    ceiling as an integer.  This is the value of the call for a wavelength
    other than 0: at [wl = 0] the division [2.*np.pi/wl] raises
    [ZeroDivisionError] for a Python float, where the quotient of [R] is 0;
    every property of the estimates takes [wl] positive or non-zero. *)
Definition estimateNumModesGRIN (wl a NA : R) : Z :=
  let k0 := 2 * PI / wl in
  let V := k0 * a * NA in
  Zceil (V ^ 2 / 4).

(** [estimateNumModesSI(wl, a, NA)], for a wavelength other than 0 as
    above. *)
Definition estimateNumModesSI (wl a NA : R) : Z :=
  let k0 := 2 * PI / wl in
  let V := k0 * a * NA in
  Zceil (V ^ 2 / 2).

(* ===================================================================== *)
(** ** class propagationModeSolver *)
(* ===================================================================== *)

Module propagationModeSolver.

(** The attributes the modelled methods read or write.  [H] is created by
    [solve]: [None] until then.  ([betas], [modesList], [number], [m], [l]
    and [last_res] are set by [__init__] and never touched again.) *)
Record t : Type := mk {
  modes : option Modes.t;
  indexProfile : option IndexProfile;
  wl : option R;
  poisson : R;
  H : option dia_matrix
}.

(** [propagationModeSolver.__init__]; it logs at debug level. *)
Definition init : t :=
  {| modes := None; indexProfile := None; wl := None; poisson := 5 / 10;
     H := None |}.

Definition setIndexProfile (ip : IndexProfile) (s : t) : t :=
  {| modes := modes s; indexProfile := Some ip; wl := wl s;
     poisson := poisson s; H := H s |}.

Definition setWL (l : R) (s : t) : t :=
  {| modes := modes s; indexProfile := indexProfile s; wl := Some l;
     poisson := poisson s; H := H s |}.

Definition setPoisson (p : R) (s : t) : t :=
  {| modes := modes s; indexProfile := indexProfile s; wl := wl s;
     poisson := p; H := H s |}.

Definition set_H (h : dia_matrix) (s : t) : t :=
  {| modes := modes s; indexProfile := indexProfile s; wl := wl s;
     poisson := poisson s; H := Some h |}.

Definition set_modes (m : Modes.t) (s : t) : t :=
  {| modes := Some m; indexProfile := indexProfile s; wl := wl s;
     poisson := poisson s; H := H s |}.

(** *** The diagonals of the operator (lines 489 to 535 of [solve]) *)

(** [-4./dh**2+k0**2*self.indexProfile.n.flatten()**2] *)
Definition main_diagonal (ip : IndexProfile) (k0 : R) : list R :=
  map (fun x => -4 / dh ip ^ 2 + k0 ^ 2 * x ^ 2) (flatten (n ip)).

(** [([1./dh**2]*(npoints-1)+[0.])*(npoints-1)+[1./dh**2]*(npoints-1)] *)
Definition x_diagonal (npoints : nat) (dh : R) : list R :=
  PyList.times (PyList.times [1 / dh ^ 2] (npoints - 1) ++ [0]) (npoints - 1)
  ++ PyList.times [1 / dh ^ 2] (npoints - 1).

(** [[1./dh**2]*npoints*(npoints-1)] *)
Definition y_diagonal (npoints : nat) (dh : R) : list R :=
  PyList.times (PyList.times [1 / dh ^ 2] npoints) (npoints - 1).

(** [([0]*(npoints-1)+[1./dh**2])*(npoints-1)+[0]*(npoints-1)] *)
Definition x_wrap_diagonal (npoints : nat) (dh : R) : list R :=
  PyList.times (PyList.times [0] (npoints - 1) ++ [1 / dh ^ 2]) (npoints - 1)
  ++ PyList.times [0] (npoints - 1).

(** [[1./dh**2]*npoints] *)
Definition y_wrap_diagonal (npoints : nat) (dh : R) : list R :=
  PyList.times [1 / dh ^ 2] npoints.

(** [diags[k] = diags[k]/denom]: an [IndexError] when the list has no
    entry [k], a [ValueError] when the lengths do not broadcast. *)
Definition divide_diagonal (k : nat) (denom : list R) (diags : list (list R))
  : Outcome (list (list R)) :=
  match nth_error diags k with
  | None => Raise IndexError
  | Some d => q <~ broadcast Rdiv d denom ;; Return (list_set k q diags)
  end.

(** The block [if curvature is not None:] *)
Definition apply_curvature (ip : IndexProfile) (curv : option R)
           (diags : list (list R)) : Outcome (list (list R)) :=
  match curv with
  | None => Return diags
  | Some curvature =>
      let xi := 1 in
      let curv_term := map (fun x => 1 + 2 * xi * x / curvature) (flatten (X ip)) in
      d <~ divide_diagonal 0 curv_term diags ;;
      d <~ divide_diagonal 1 (PyList.from 1 curv_term) d ;;
      d <~ divide_diagonal 2 (PyList.upto_neg 1 curv_term) d ;;
      d <~ divide_diagonal 3 (PyList.from (npoints ip) curv_term) d ;;
      divide_diagonal 4 (PyList.upto_neg (npoints ip) curv_term) d
  end.

Definition solve_diags (ip : IndexProfile) (k0 : R) (boundary : string)
           (curv : option R) : Py.M (World t) (list (list R)) :=
  let dh := dh ip in
  let npoints := npoints ip in
  let diags := [main_diagonal ip k0] in
  diags <-
    (if String.eqb boundary "periodic" then
       log INFO "Use periodic boundary condition." ;;;
       Py.ret (diags ++ [x_diagonal npoints dh; x_diagonal npoints dh;
                         y_diagonal npoints dh; y_diagonal npoints dh;
                         x_wrap_diagonal npoints dh; x_wrap_diagonal npoints dh;
                         y_wrap_diagonal npoints dh; y_wrap_diagonal npoints dh])
     else if String.eqb boundary "close" then
       log INFO "Use periodic close condition." ;;;
       Py.ret (diags ++ [x_diagonal npoints dh; x_diagonal npoints dh;
                         y_diagonal npoints dh; y_diagonal npoints dh])
     else Py.ret diags) ;;
  diags <- Py.lift (apply_curvature ip curv diags) ;;
  log INFO "Note that boundary conditions should not matter for guided modes." ;;;
  Py.ret diags.

(** The offsets handed to [sparse.diags]: [[0,-1,1,-npoints,npoints]] *)
Definition offsets (npoints : nat) : list Z :=
  [0; -1; 1; - Z.of_nat npoints; Z.of_nat npoints]%Z.

(** *** The selection of the guided modes (lines 553 to 559 of [solve]) *)

(** [p/np.sqrt(np.sum(np.abs(p)**2))] *)
Definition normalize (p : list complex) : list complex :=
  let norm := sqrt (Np.sum (map (fun z => Cx.abs z ^ 2) p)) in
  map (fun z => Cx.div_R z norm) p.

(** [modes.profiles[-1] = f(modes.profiles[-1])] *)
Definition update_last {A} (f : A -> A) (l : list A) : list A :=
  match rev l with
  | [] => []          (* not reached: the list has just been appended to *)
  | x :: r => rev r ++ [f x]
  end.

(** [betasq > beta_min**2 and betasq < beta_max**2] *)
Definition in_band (beta_min beta_max : R) (betasq : complex) : bool :=
  Cx.gt_R betasq (beta_min ^ 2) && Cx.lt_R betasq (beta_max ^ 2).

(** The body of the loop over [enumerate(res[0])]. *)
Definition select_step (vecs : ndarray2 complex) (beta_min beta_max : R)
           (m : Modes.t) (i : nat) (betasq : complex) : Outcome Modes.t :=
  if in_band beta_min beta_max betasq then
    (* modes.betas.append(np.sqrt(betasq)); modes.number+=1 *)
    let betas' := Modes.betas m ++ [Cx.csqrt betasq] in
    let number' := (Modes.number m + 1)%nat in
    (* modes.profiles.append(res[1][:,i]) *)
    col <~ column Cx.zero vecs i ;;
    let profiles' := Modes.profiles m ++ [col] in
    (* modes.profiles[-1] = modes.profiles[-1]/np.sqrt(...) *)
    let profiles' := update_last normalize profiles' in
    Return {| Modes.betas := betas'; Modes.number := number';
              Modes.indexProfile := Modes.indexProfile m;
              Modes.profiles := profiles';
              Modes.modeMatrix := Modes.modeMatrix m;
              Modes.wl := Modes.wl m;
              Modes.curvature := Modes.curvature m |}
  else Return m.

Fixpoint select_loop (vecs : ndarray2 complex) (beta_min beta_max : R)
         (m : Modes.t) (todo : list (nat * complex)) : Outcome Modes.t :=
  match todo with
  | [] => Return m
  | (i, betasq) :: rest =>
      m' <~ select_step vecs beta_min beta_max m i betasq ;;
      select_loop vecs beta_min beta_max m' rest
  end.

(** [modes = Modes(); modes.wl = self.wl; modes.indexProfile = self.indexProfile] *)
Definition fresh_modes (s : t) : Modes.t :=
  {| Modes.betas := Modes.betas Modes.init;
     Modes.number := Modes.number Modes.init;
     Modes.indexProfile := indexProfile s;
     Modes.profiles := Modes.profiles Modes.init;
     Modes.modeMatrix := Modes.modeMatrix Modes.init;
     Modes.wl := wl s;
     Modes.curvature := Modes.curvature Modes.init |}.

Section Methods.

(** [scipy.sparse.linalg.eigs(H, k=nmodesMax, which='LR')]: the
    eigenvalues [res[0]] and the array [res[1]] whose column [i] is the
    eigenvector of the eigenvalue [i]; it can raise. *)
Variable eigs : dia_matrix -> nat -> Outcome (list complex * ndarray2 complex).

(** [propagationModeSolver.solve(nmodesMax, boundary, storeData,
    curvature, mode)]; the timing of the run is left out. *)
Definition solve (nmodesMax : nat) (boundary : string) (storeData : bool)
           (curv : option R) (mode : string) : Py.M (World t) Modes.t :=
  w <- Py.get ;;
  let s := self w in
  Py.assert (is_some (indexProfile s)) ;;;
  Py.assert (truthy (wl s)) ;;;
  match indexProfile s, wl s with
  | Some ip, Some wl_ =>
      let k0 := 2 * PI / wl_ in
      diags <- solve_diags ip k0 boundary curv ;;
      H <- Py.lift (sparse_diags diags (offsets (npoints ip))) ;;
      set_self (set_H H) ;;;
      nmin <- Py.lift (amin (flatten (n ip))) ;;
      let beta_min := k0 * nmin in
      nmax <- Py.lift (amax (flatten (n ip))) ;;
      let beta_max := k0 * nmax in
      res <- Py.lift (eigs H nmodesMax) ;;
      modes <- Py.lift (select_loop (snd res) beta_min beta_max (fresh_modes s)
                          (PyList.enumerate (fst res))) ;;
      log INFO "Solver found %g modes is %0.2f seconds." ;;;
      (if (nmodesMax =? Modes.number modes)%nat then
         log WARNING "The solver reached the maximum number of modes set." ;;;
         log WARNING "Some propagating modes may be missing."
       else Py.ret tt) ;;;
      (if storeData then
         set_self (set_modes modes) ;;;
         log DEBUG "Mode data stored in memory."
       else Py.ret tt) ;;;
      Py.ret modes
  | _, _ => Py.raise AssertionError
  end.

End Methods.

(** [propagationModeSolver.saveData(outfile, saveArea)]; [saveArea] is not
    used by the body. *)
Definition saveData (outfile : string) : Py.M (World t) unit :=
  w <- Py.get ;;
  let s := self w in
  Py.assert (is_some (modes s)) ;;;
  match modes s with
  | None => Py.raise AssertionError
  | Some m =>
      let betas := Modes.betas m in
      mode_profiles <- match nth_error (Modes.profiles m) 1 with
                       | Some p => Py.ret p
                       | None => Py.raise IndexError
                       end ;;
      ip <- match indexProfile s with
            | Some ip => Py.ret ip
            | None => Py.raise (AttributeError "n")
            end ;;
      let index_profile := n ip in
      let X_ := X ip in
      let Y_ := X ip in
      savez outfile [ ("betas", Arr1C betas);
                      ("mode_profiles", Arr1C mode_profiles);
                      ("index_profile", Arr2R index_profile);
                      ("X", Arr2R X_);
                      ("Y", Arr2R Y_) ] ;;;
      log INFO "Data saved to %s."
  end.

End propagationModeSolver.

(* ===================================================================== *)
(** * The vocabulary of the properties *)
(* ===================================================================== *)

Import propagationModeSolver.

(** [np.sum(np.abs(p)**2)] *)
Definition norm2 (p : list complex) : R := Np.sum (map (fun z => Cx.abs z ^ 2) p).

(** [res[1][:, i]] where the column exists *)
Definition column_of (vecs : ndarray2 complex) (i : nat) : list complex :=
  map (fun row => nth i row Cx.zero) (data vecs).

(** The Mode Set after the loop has run over [todo], starting from [m]:
    one beta and one profile more for each eigenvalue in the band. *)
Definition selected (vecs : ndarray2 complex) (beta_min beta_max : R)
           (m : Modes.t) (todo : list (nat * complex)) : Modes.t :=
  let kept := filter (fun iv => in_band beta_min beta_max (snd iv)) todo in
  {| Modes.betas := Modes.betas m ++ map (fun iv => Cx.csqrt (snd iv)) kept;
     Modes.number := Modes.number m + length kept;
     Modes.indexProfile := Modes.indexProfile m;
     Modes.profiles :=
       Modes.profiles m ++ map (fun iv => normalize (column_of vecs (fst iv))) kept;
     Modes.modeMatrix := Modes.modeMatrix m;
     Modes.wl := Modes.wl m;
     Modes.curvature := Modes.curvature m |}.

(** The list [diags] before the curvature block. *)
Definition base_diags (ip : IndexProfile) (k0 : R) (boundary : string) : list (list R) :=
  let d := dh ip in
  let np := npoints ip in
  main_diagonal ip k0 ::
  (if String.eqb boundary "periodic" then
     [x_diagonal np d; x_diagonal np d; y_diagonal np d; y_diagonal np d;
      x_wrap_diagonal np d; x_wrap_diagonal np d; y_wrap_diagonal np d; y_wrap_diagonal np d]
   else if String.eqb boundary "close" then
     [x_diagonal np d; x_diagonal np d; y_diagonal np d; y_diagonal np d]
   else []).

(** The invariant of a Mode Set: [len(betas) == len(profiles) == number]. *)
Definition modes_invariant (m : Modes.t) : Prop :=
  length (Modes.betas m) = Modes.number m
  /\ length (Modes.profiles m) = Modes.number m.

(** The record [getEvolutionOperator] logs when it turns a Mode Set away. *)
Definition curvature_error : LogRecord :=
  (ERROR,
   "Adding curvature to the propagation operator requires the system to be solved for a straight fiber!").

(** The exception solve ends in when the list of diagonals does not have
    five entries: a failed assertion, what the curvature block raises, or the
    [ValueError] of [sparse.diags]. *)
Definition exception_without_operator (s : propagationModeSolver.t)
           (boundary : string) (curv : option R) : Exception :=
  match indexProfile s, wl s with
  | Some ip, Some wl_ =>
      if Reqb wl_ 0 then AssertionError
      else match apply_curvature ip curv (base_diags ip (2 * PI / wl_) boundary) with
           | Return _ => ValueError
           | Raise e => e
           end
  | _, _ => AssertionError
  end.

(** The operator that solve hands to [eigs] for boundary 'close' and no
    curvature. *)
Definition close_operator (ip : IndexProfile) (k0 : R) : dia_matrix :=
  let np := npoints ip in
  mkDia (np * np, np * np)%nat
        [ (0%Z, map Cx.of_R (main_diagonal ip k0));
          ((-1)%Z, map Cx.of_R (x_diagonal np (dh ip)));
          (1%Z, map Cx.of_R (x_diagonal np (dh ip)));
          ((- Z.of_nat np)%Z, map Cx.of_R (y_diagonal np (dh ip)));
          (Z.of_nat np, map Cx.of_R (y_diagonal np (dh ip))) ].

(** *** A run on a 2 x 2 grid *)

(** An index field on a 2 x 2 grid with spacing 1, its coordinate fields, and
    a solver set up with it at the wavelength 2*pi, so that k0 = 1. *)
Definition ip0 : IndexProfile :=
  {| npoints := 2; dh := 1;
     n := mk2 (2, 2)%nat [[1; 2]; [2; 1]];
     X := mk2 (2, 2)%nat [[0; 1]; [0; 1]];
     Y := mk2 (2, 2)%nat [[0; 0]; [1; 1]] |}.

(** The solver set up with [ip0] and the wavelength 2*pi. *)
Definition solver0 : propagationModeSolver.t :=
  setWL (2 * PI) (setIndexProfile ip0 propagationModeSolver.init).

(** Nothing logged, nothing on disk. *)
Definition world0 : World propagationModeSolver.t := mkWorld solver0 [] [].

(** An eigensolver that answers three eigenpairs: the eigenvalues 2, 5 and 3
    with the eigenvectors (1,0,0,0), (0,1,0,0) and (3,4,0,0). *)
Definition vals0 : list complex := [Cx.of_R 2; Cx.of_R 5; Cx.of_R 3].

(** The array [res[1]]: one eigenvector per column. *)
Definition vecs0 : ndarray2 complex :=
  mk2 (4, 3)%nat
      [ [Cx.of_R 1; Cx.of_R 0; Cx.of_R 3];
        [Cx.of_R 0; Cx.of_R 1; Cx.of_R 4];
        [Cx.of_R 0; Cx.of_R 0; Cx.of_R 0];
        [Cx.of_R 0; Cx.of_R 0; Cx.of_R 0] ].

(** The eigensolver itself, whatever the operator and [k]. *)
Definition eigs0 (_ : dia_matrix) (_ : nat) : Outcome (list complex * ndarray2 complex) :=
  Return (vals0, vecs0).

(** The Mode Set of that run: the band is 1 < betasq < 4, which keeps the
    first and the third eigenpair. *)
Definition modes0 : Modes.t :=
  {| Modes.betas := [Cx.csqrt (Cx.of_R 2); Cx.csqrt (Cx.of_R 3)];
     Modes.number := 2;
     Modes.indexProfile := Some ip0;
     Modes.profiles :=
       [ normalize [Cx.of_R 1; Cx.of_R 0; Cx.of_R 0; Cx.of_R 0];
         normalize [Cx.of_R 3; Cx.of_R 4; Cx.of_R 0; Cx.of_R 0] ];
     Modes.modeMatrix := None;
     Modes.wl := Some (2 * PI);
     Modes.curvature := None |}.

(** Stand-ins for the image rotation and shift, which no property below
    looks into. *)
Definition scipy_rotate0 (a : ndarray2 R) (_ : R) : ndarray2 R := a.

Definition scipy_shift0 (a : ndarray2 R) (_ : list R) : ndarray2 R := a.

(** The archive saveData writes for the Mode Set [m] of a solver with the
    index profile [ip], when the Mode Set has a profile [p] at index 1. *)
Definition saved_archive (m : Modes.t) (ip : IndexProfile) (p : list complex) : Archive :=
  mkArchive false
            [ ("betas", Arr1C (Modes.betas m));
              ("mode_profiles", Arr1C p);
              ("index_profile", Arr2R (n ip));
              ("X", Arr2R (X ip));
              ("Y", Arr2R (X ip)) ].

(** The solver after the run on the 2 x 2 grid. *)
Definition world1 : World propagationModeSolver.t :=
  mkWorld (set_modes modes0 (set_H (close_operator ip0 1) solver0)) [] [].

(** *** What solve logs and stores *)

(** The record of the boundary branch taken. *)
Definition boundary_log (boundary : string) : list LogRecord :=
  if String.eqb boundary "periodic" then [(INFO, "Use periodic boundary condition.")]
  else if String.eqb boundary "close" then [(INFO, "Use periodic close condition.")]
  else [].

(** The two warnings of a search that found as many modes as it was asked. *)
Definition capacity_warnings : list LogRecord :=
  [ (WARNING, "The solver reached the maximum number of modes set.");
    (WARNING, "Some propagating modes may be missing.") ].

(** The records of a run of solve that returns a Mode Set of [number] modes. *)
Definition solve_log (boundary : string) (nmodesMax : nat) (storeData : bool)
           (number : nat) : list LogRecord :=
  boundary_log boundary
  ++ [ (INFO, "Note that boundary conditions should not matter for guided modes.");
       (INFO, "Solver found %g modes is %0.2f seconds.") ]
  ++ (if (nmodesMax =? number)%nat then capacity_warnings else [])
  ++ (if storeData then [(DEBUG, "Mode data stored in memory.")] else []).

(** The solver after such a run. *)
Definition solved (s : propagationModeSolver.t) (Hm : dia_matrix)
           (storeData : bool) (m : Modes.t) : propagationModeSolver.t :=
  if storeData then set_modes m (set_H Hm s) else set_H Hm s.

(** [curv_term = (1.+2*xi*self.indexProfile.X.flatten()/curvature)] *)
Definition curv_term (ip : IndexProfile) (curvature : R) : list R :=
  map (fun x => 1 + 2 * 1 * x / curvature) (flatten (X ip)).

(** *** Arrays and Mode Sets that have the shape they say *)

(** A two-dimensional array whose rows match its shape. *)
Definition well_shaped {A} (a : ndarray2 A) : Prop :=
  length (data a) = nrows a /\ Forall (fun row => length row = ncols a) (data a).

(** The loops of [getModeMatrix] write the profile [p] of index [ind], for
    the polarization [pol], into the rows [pol*N .. (pol+1)*N - 1] of the
    column [pol*number + ind]. *)
Definition writes (number N : nat) (x : nat * (nat * list complex)) (r c : nat) : Prop :=
  (fst x * number + fst (snd x) = c /\ fst x * N <= r < (fst x + 1) * N)%nat.

(** A Mode Set of one mode, and a solver that holds it. *)
Definition modes_single : Modes.t :=
  {| Modes.betas := [Cx.csqrt (Cx.of_R 2)];
     Modes.number := 1;
     Modes.indexProfile := Some ip0;
     Modes.profiles := [normalize [Cx.of_R 1; Cx.of_R 0; Cx.of_R 0; Cx.of_R 0]];
     Modes.modeMatrix := None;
     Modes.wl := Some (2 * PI);
     Modes.curvature := None |}.

Definition world_single : World propagationModeSolver.t :=
  mkWorld (set_modes modes_single solver0) [] [].

(** The Mode Set of the run on the 2 x 2 grid with an attribute [curvature]
    that holds a number, as if it had been solved for a bent fibre. *)
Definition modes_bent : Modes.t :=
  {| Modes.betas := Modes.betas modes0;
     Modes.number := Modes.number modes0;
     Modes.indexProfile := Modes.indexProfile modes0;
     Modes.profiles := Modes.profiles modes0;
     Modes.modeMatrix := None;
     Modes.wl := Modes.wl modes0;
     Modes.curvature := Some (Some 1000) |}.

(** *** The mode matrix *)

(** The value the loops leave at [(r, k)]: the last profile written there. *)
Definition writesb (number N : nat) (x : nat * (nat * list complex)) (r k : nat) : bool :=
  ((k =? fst x * number + fst (snd x)) && (fst x * N <=? r) && (r <? (fst x + 1) * N))%nat.

Definition last_written (number N : nat) (r k : nat)
           (todo : list (nat * (nat * list complex))) (a : complex) : complex :=
  fold_left (fun acc x => if writesb number N x r k
                          then nth (r - fst x * N) (snd (snd x)) Cx.zero else acc)
            todo a.

(** A Mode Set whose one profile has three entries, on the 2 x 2 grid. *)
Definition modes_short : Modes.t :=
  {| Modes.betas := [Cx.of_R 1];
     Modes.number := 1;
     Modes.indexProfile := Some ip0;
     Modes.profiles := [[Cx.of_R 1; Cx.of_R 0; Cx.of_R 0]];
     Modes.modeMatrix := None;
     Modes.wl := Some (2 * PI);
     Modes.curvature := None |}.

(** *** The operator of solve, entry by entry *)

(** The entry at row [i], column [k] of the five-point Laplacian with the
    potential k0^2*n^2 on the grid of [ip], points numbered row by row:
    the potential on the diagonal, the weight 1/dh^2 between neighbours in a
    row of the grid and between neighbours in a column, 0 elsewhere. *)
Definition laplacian_entry (ip : IndexProfile) (k0 : R) (i k : nat) : R :=
  let np := npoints ip in
  if (i =? k)%nat then -4 / dh ip ^ 2 + k0 ^ 2 * nth i (flatten (n ip)) 0 ^ 2
  else if ((k =? i + 1) || (i =? k + 1))%nat then
    if ((Nat.min i k + 1) mod np =? 0)%nat then 0 else 1 / dh ip ^ 2
  else if ((k =? i + np) || (i =? k + np))%nat then 1 / dh ip ^ 2
  else 0.

(** The list [diags] after the curvature block, for boundary 'close'. *)
Definition curved_diags (ip : IndexProfile) (k0 curvature : R) : list (list R) :=
  let np := npoints ip in
  let ct := curv_term ip curvature in
  [ map2 Rdiv (main_diagonal ip k0) ct;
    map2 Rdiv (x_diagonal np (dh ip)) (PyList.from 1 ct);
    map2 Rdiv (x_diagonal np (dh ip)) (PyList.upto_neg 1 ct);
    map2 Rdiv (y_diagonal np (dh ip)) (PyList.from np ct);
    map2 Rdiv (y_diagonal np (dh ip)) (PyList.upto_neg np ct) ].

(** The operator that solve hands to [eigs] for boundary 'close' and a
    curvature. *)
Definition curved_operator (ip : IndexProfile) (k0 curvature : R) : dia_matrix :=
  let np := npoints ip in
  mkDia (np * np, np * np)%nat
        (combine (offsets np) (map (map Cx.of_R) (curved_diags ip k0 curvature))).

(** *** Runs of solve with another coefficient, and with a failing search *)

(** The world with the Poisson coefficient of its solver set to [p]. *)
Definition with_poisson (p : R) (w : World propagationModeSolver.t)
  : World propagationModeSolver.t :=
  mkWorld (setPoisson p (self w)) (logged w) (disk w).

(** An eigensolver that does not converge. *)
Definition eigs_fails (_ : dia_matrix) (_ : nat)
  : Outcome (list complex * ndarray2 complex) := Raise LibraryError.

(** *** The groups of randomGroupCoupling *)

(** The matrices drawn for the groups, one after the other, from the
    generator in the state [rng]. *)
Fixpoint drawn {Rng : Type} (random_unitary : nat -> Rng -> (nat -> nat -> complex) * Rng)
         (groups : list (list nat)) (rng : Rng) : list (nat -> nat -> complex) :=
  match groups with
  | [] => []
  | g :: rest =>
      let (u, rng') := random_unitary (length g) rng in
      u :: drawn random_unitary rest rng'
  end.

(** Groups without a repeated index, no two of which share an index. *)
Fixpoint disjoint_groups (groups : list (list nat)) : Prop :=
  match groups with
  | [] => True
  | g :: rest =>
      NoDup g
      /\ (forall g' i, In g' rest -> In i g -> ~ In i g')
      /\ disjoint_groups rest
  end.

(** A generator that counts its draws and always answers the identity
    matrix, which is unitary; and three modes in two groups. *)
Definition identity_draw (k : nat) (rng : nat) : (nat -> nat -> complex) * nat :=
  (fun a b => if (a =? b)%nat then Cx.of_R 1 else Cx.zero, S rng).

Definition groups0 : list (list nat) := [[0; 2]; [1]]%nat.

(** *** The conversion of an angle, as the spec writes it *)

Section AngleOfTheSpec.

Import PrimFloat.

(** From the spec: the conversion "should be [angle*180/pi]"; in binary64,
    the multiplication first, then the division. *)
Definition radians_to_degrees_binary64 (angle : float) : float :=
  (angle * 180 / Modes.np_pi)%float.

End AngleOfTheSpec.

(* ===================================================================== *)
(** * Properties *)
(* ===================================================================== *)

(** ** Lists, comparisons and complex numbers *)

Lemma times_length {A} (l : list A) k :
  length (PyList.times l k) = (k * length l)%nat.
Proof. induction k; simpl; [reflexivity|]. rewrite length_app, IHk. reflexivity. Qed.

Lemma times_singleton {A} (x : A) k : PyList.times [x] k = repeat x k.
Proof. induction k; simpl; congruence. Qed.

Lemma Rltb_true x y : Rltb x y = true <-> x < y.
Proof. unfold Rltb. destruct (Rlt_dec x y); split; intros; auto; discriminate. Qed.

Lemma Rltb_false x y : Rltb x y = false <-> ~ x < y.
Proof. unfold Rltb. destruct (Rlt_dec x y); split; intros; auto; try discriminate. contradiction. Qed.

Lemma Reqb_true x y : Reqb x y = true <-> x = y.
Proof. unfold Reqb. destruct (Req_dec_T x y); split; intros; auto; discriminate. Qed.

Lemma Reqb_false x y : Reqb x y = false <-> x <> y.
Proof. unfold Reqb. destruct (Req_dec_T x y); split; intros; auto; try discriminate. contradiction. Qed.

Lemma complex_eq a b : Re a = Re b -> Im a = Im b -> a = b.
Proof. destruct a, b; simpl; intros; subst; reflexivity. Qed.

Lemma abs_sqr a : abs a ^ 2 = Re a ^ 2 + Im a ^ 2.
Proof.
  unfold abs. apply pow2_sqrt. nra.
Qed.

Lemma abs_nonneg a : 0 <= abs a.
Proof. apply sqrt_pos. Qed.

Lemma abs_ge_Re a : Rabs (Re a) <= abs a.
Proof.
  unfold abs. rewrite <- sqrt_Rsqr_abs. apply sqrt_le_1_alt. unfold Rsqr. nra.
Qed.

Lemma abs_div_R a x : abs (div_R a x) ^ 2 = abs a ^ 2 / x ^ 2.
Proof.
  rewrite !abs_sqr. unfold div_R; simpl.
  destruct (Req_dec x 0) as [->|Hx].
  - unfold Rdiv. rewrite !Rmult_0_l, Rinv_0. lra.
  - field. exact Hx.
Qed.

(** [csqrt] is a square root, and the real one on the positive reals. *)
Lemma csqrt_sqr a : mul (csqrt a) (csqrt a) = a.
Proof.
  pose proof (abs_ge_Re a) as Hge. pose proof (abs_sqr a) as Hsq.
  assert (Hp : 0 <= (abs a + Re a) / 2)
    by (unfold Rabs in Hge; destruct (Rcase_abs (Re a)); lra).
  assert (Hq : 0 <= (abs a - Re a) / 2)
    by (unfold Rabs in Hge; destruct (Rcase_abs (Re a)); lra).
  assert (Hpq : sqrt ((abs a + Re a) / 2) * sqrt ((abs a - Re a) / 2)
                = Rabs (Im a) / 2).
  { rewrite <- sqrt_mult by assumption.
    replace ((abs a + Re a) / 2 * ((abs a - Re a) / 2))
      with (Rsqr (Im a / 2)) by (unfold Rsqr; nra).
    rewrite sqrt_Rsqr_abs. unfold Rdiv. rewrite Rabs_mult.
    rewrite (Rabs_pos_eq (/ 2)) by lra. reflexivity. }
  pose proof (sqrt_sqrt _ Hp) as Hpp. pose proof (sqrt_sqrt _ Hq) as Hqq.
  unfold csqrt. apply complex_eq; cbn [Re Im mul].
  - destruct (Rltb (Im a) 0); nra.
  - destruct (Rltb (Im a) 0) eqn:E.
    + apply Rltb_true in E. rewrite Rabs_left in Hpq by assumption. nra.
    + apply Rltb_false in E. rewrite Rabs_pos_eq in Hpq by lra. nra.
Qed.

Lemma csqrt_of_R x : 0 <= x -> csqrt (of_R x) = of_R (sqrt x).
Proof.
  intros Hx. unfold csqrt, of_R, abs; cbn [Re Im].
  replace (x ^ 2 + 0 ^ 2) with (Rsqr x) by (unfold Rsqr; ring).
  rewrite sqrt_Rsqr by assumption.
  replace ((x + x) / 2) with x by lra.
  replace ((x - x) / 2) with 0 by lra.
  rewrite sqrt_0. f_equal. ring.
Qed.

(** ** The mode-count estimates *)

Lemma Zceil_double x : (2 * Zceil x - 1 <= Zceil (2 * x) <= 2 * Zceil x)%Z.
Proof.
  pose proof (Zceil_bound x) as [Hl Hu].
  pose proof (Zceil_bound (2 * x)) as [Hl2 Hu2].
  split.
  - assert (H : IZR (2 * Zceil x - 2) < IZR (Zceil (2 * x))).
    { rewrite minus_IZR, mult_IZR. lra. }
    apply lt_IZR in H. lia.
  - assert (H : IZR (Zceil (2 * x) - 1) < IZR (2 * Zceil x)).
    { rewrite minus_IZR, mult_IZR. lra. }
    apply lt_IZR in H. lia.
Qed.

Lemma two_pi_over_two_pi : 2 * PI / (2 * PI) = 1.
Proof. pose proof PI_RGT_0. field. lra. Qed.

(** C6, as the code has it: for a wavelength wl > 0, the two estimates are
    the ceilings of V^2/4 and of V^2/2 with V = k0*a*NA and k0 = 2*pi/wl, and
    the step-index estimate is twice the graded-index one or one less. *)
Theorem estimateNumModes_SI_vs_GRIN (wl a NA : R) :
  0 < wl ->
  let V := 2 * PI / wl * a * NA in
  estimateNumModesGRIN wl a NA = Zceil (V ^ 2 / 4)
  /\ estimateNumModesSI wl a NA = Zceil (V ^ 2 / 2)
  /\ (2 * estimateNumModesGRIN wl a NA - 1 <= estimateNumModesSI wl a NA
      <= 2 * estimateNumModesGRIN wl a NA)%Z.
Proof.
  intros Hwl V. unfold estimateNumModesGRIN, estimateNumModesSI. fold V.
  split; [reflexivity|]. split; [reflexivity|].
  replace (V ^ 2 / 2) with (2 * (V ^ 2 / 4)) by field.
  apply Zceil_double.
Qed.

(** C6 at wl = 2*pi, a = 1, NA = 1. *)
Lemma estimateNumModes_SI_vs_GRIN_witness :
  0 < 2 * PI
  /\ (let V := 2 * PI / (2 * PI) * 1 * 1 in
      estimateNumModesGRIN (2 * PI) 1 1 = Zceil (V ^ 2 / 4)
      /\ estimateNumModesSI (2 * PI) 1 1 = Zceil (V ^ 2 / 2)
      /\ (2 * estimateNumModesGRIN (2 * PI) 1 1 - 1 <= estimateNumModesSI (2 * PI) 1 1
          <= 2 * estimateNumModesGRIN (2 * PI) 1 1)%Z).
Proof.
  assert (Hwl : 0 < 2 * PI) by (pose proof PI_RGT_0; lra).
  split; [exact Hwl|].
  exact (estimateNumModes_SI_vs_GRIN (2 * PI) 1 1 Hwl).
Defined.

(** C6 as stated fails: at wl = 2*pi, a = 1, NA = 1 the V number is 1, both
    estimates are 1, and 1 is not 2 * 1. *)
Lemma estimateNumModes_SI_not_twice_GRIN :
  0 < 2 * PI
  /\ estimateNumModesSI (2 * PI) 1 1 = 1%Z
  /\ estimateNumModesGRIN (2 * PI) 1 1 = 1%Z
  /\ estimateNumModesSI (2 * PI) 1 1 <> (2 * estimateNumModesGRIN (2 * PI) 1 1)%Z.
Proof.
  assert (HS : estimateNumModesSI (2 * PI) 1 1 = 1%Z).
  { unfold estimateNumModesSI. rewrite two_pi_over_two_pi. apply Zceil_eq. lra. }
  assert (HG : estimateNumModesGRIN (2 * PI) 1 1 = 1%Z).
  { unfold estimateNumModesGRIN. rewrite two_pi_over_two_pi. apply Zceil_eq. lra. }
  pose proof PI_RGT_0.
  repeat split; [lra | exact HS | exact HG |].
  rewrite HS, HG. discriminate.
Qed.

(** ** The rotation angle of getModeMatrix *)

(** Over the reals [angle/np.pi*180.] is the conversion from radians to
    degrees: it equals angle*180/pi for every angle, and sends pi to 180.  The
    factor is the right one, and where the two expressions differ as floats
    they differ by rounding. *)
Lemma to_degrees_is_radians_to_degrees :
  (forall angle : R, Modes.to_degrees angle = angle * 180 / PI)
  /\ Modes.to_degrees PI = 180.
Proof.
  pose proof PI_RGT_0 as Hpi.
  split.
  - intros angle. unfold Modes.to_degrees. field. lra.
  - unfold Modes.to_degrees. field. lra.
Qed.

Section AngleBinary64.

Import PrimFloat.

(** C8: there is an input angle for which [angle/np.pi*180.], the conversion
    of getModeMatrix, and angle*180/pi give different values.  In binary64, at
    the float 0.001, the first is 0.057295779513082325 and the second
    0.057295779513082318, one unit in the last place below; Python's [==]
    on the two is false. *)
Theorem to_degrees_differs_in_binary64 :
  exists angle : float,
    angle = 0x1.0624dd2f1a9fcp-10%float
    /\ Modes.to_degrees_binary64 angle = 0x1.d55df566a3f75p-5%float
    /\ radians_to_degrees_binary64 angle = 0x1.d55df566a3f74p-5%float
    /\ (Modes.to_degrees_binary64 angle =? radians_to_degrees_binary64 angle)%float
       = false.
Proof.
  exists 0x1.0624dd2f1a9fcp-10%float.
  split; [reflexivity|].
  split; [vm_compute; reflexivity|].
  split; vm_compute; reflexivity.
Qed.

End AngleBinary64.

(** ** np.diag *)

Lemma diag_rows_length {A} (z : A) v : length (diag_rows z v) = length v.
Proof. induction v; simpl; [reflexivity|]. rewrite length_map, IHv. reflexivity. Qed.

Lemma diag_rows_row_length {A} (z : A) v :
  Forall (fun row => length row = length v) (diag_rows z v).
Proof.
  induction v as [|x t IH]; simpl; constructor.
  - simpl. rewrite repeat_length. reflexivity.
  - rewrite Forall_map. eapply Forall_impl; [|exact IH].
    intros row Hrow. simpl. rewrite Hrow. reflexivity.
Qed.

(** The entries of [np.diag(v)]: [v] on the diagonal, zero elsewhere (and
    outside the array, where [at2] answers zero). *)
Lemma diag_at {A} (z : A) v i k :
  at2 z (diag z v) i k = if (i =? k)%nat then nth i v z else z.
Proof.
  unfold at2, diag; cbn [data].
  revert i k. induction v as [|x t IH]; intros i k.
  - simpl. destruct i, k; simpl; try reflexivity; destruct (i =? k)%nat; reflexivity.
  - destruct i as [|i]; simpl.
    + destruct k as [|k]; simpl; [reflexivity|].
      apply nth_repeat.
    + destruct (lt_dec i (length (diag_rows z t))) as [Hlt|Hge].
      * rewrite (nth_indep (map (cons z) (diag_rows z t)) [] (cons z []))
          by (rewrite length_map; exact Hlt).
        rewrite (map_nth (cons z) (diag_rows z t) [] i).
        destruct k as [|k]; simpl; [reflexivity|]. apply IH.
      * rewrite (nth_overflow (map (cons z) (diag_rows z t)))
          by (rewrite length_map; lia).
        rewrite diag_rows_length in Hge.
        rewrite (nth_overflow t) by lia.
        destruct k; simpl; [reflexivity|]. destruct (i =? k)%nat; reflexivity.
Qed.

Lemma times_1 {A} (l : list A) : PyList.times l 1 = l.
Proof. simpl. apply app_nil_r. Qed.

Lemma times_2 {A} (l : list A) : PyList.times l 2 = l ++ l.
Proof. simpl. rewrite app_nil_r. reflexivity. Qed.

(** ** The operators derived from a Mode Set *)

Section ModesProperties.

Variable scipy_rotate : ndarray2 R -> R -> ndarray2 R.
Variable scipy_shift : ndarray2 R -> list R -> ndarray2 R.
Variable expm : ndarray2 complex -> ndarray2 complex.

Local Abbreviation getEvolutionOperator :=
  (Modes.getEvolutionOperator scipy_rotate scipy_shift).
Local Abbreviation getPropagationMatrix :=
  (Modes.getPropagationMatrix scipy_rotate scipy_shift expm).

(** Without curvature the evolution operator is [np.diag] of the betas
    repeated [npola] times, and nothing else happens. *)
Lemma getEvolutionOperator_straight npola w :
  getEvolutionOperator npola None w
  = (Return (Some (diag Cx.zero (PyList.times (Modes.betas (self w)) npola))), w).
Proof. reflexivity. Qed.

(** C5: for npola = 1 and no curvature the evolution operator is exactly
    diag(betas); for npola = 2 its diagonal is the betas followed by the betas
    again; in both cases every off-diagonal entry is zero. *)
Theorem getEvolutionOperator_diagonal (w : World Modes.t) :
  let betas := Modes.betas (self w) in
  let nb := length betas in
  (exists B1,
      getEvolutionOperator 1 None w = (Return (Some B1), w)
      /\ B1 = diag Cx.zero betas
      /\ shape B1 = (nb, nb)
      /\ forall i k, at2 Cx.zero B1 i k
                     = if (i =? k)%nat then nth i betas Cx.zero else Cx.zero)
  /\ (exists B2,
      getEvolutionOperator 2 None w = (Return (Some B2), w)
      /\ shape B2 = (2 * nb, 2 * nb)%nat
      /\ forall i k, at2 Cx.zero B2 i k
                     = if (i =? k)%nat then nth i (betas ++ betas) Cx.zero
                       else Cx.zero).
Proof.
  intros betas nb. split.
  - exists (diag Cx.zero betas). split; [|split; [|split]].
    + rewrite getEvolutionOperator_straight, times_1. reflexivity.
    + reflexivity.
    + reflexivity.
    + intros i k. apply diag_at.
  - exists (diag Cx.zero (betas ++ betas)). split; [|split].
    + rewrite getEvolutionOperator_straight, times_2. reflexivity.
    + unfold diag; cbn [shape]. rewrite length_app. f_equal; lia.
    + intros i k. apply diag_at.
Qed.

(** C3: getPropagationMatrix never returns a matrix.  The name [B] its last
    line reads is bound neither in the function nor in the module: whenever
    the evolution operator has been computed, the call ends in
    [NameError], for distance 0 as for any other; without curvature that is
    every call. *)
Theorem getPropagationMatrix_raises (distance : R) (npola : nat)
        (curv : option R) (w : World Modes.t) :
  (exists e w', getPropagationMatrix distance npola curv w = (Raise e, w'))
  /\ (forall T w', getEvolutionOperator npola curv w = (Return T, w') ->
        getPropagationMatrix distance npola curv w = (Raise (NameError "B"), w'))
  /\ getPropagationMatrix distance npola None w = (Raise (NameError "B"), w).
Proof.
  assert (Hret : forall T w', getEvolutionOperator npola curv w = (Return T, w') ->
            getPropagationMatrix distance npola curv w = (Raise (NameError "B"), w')).
  { intros T w' HT. unfold getPropagationMatrix, Modes.getPropagationMatrix, Py.bind.
    fold getEvolutionOperator. rewrite HT. reflexivity. }
  split; [|split].
  - destruct (getEvolutionOperator npola curv w) as [[T|e] w'] eqn:HT.
    + exists (NameError "B"), w'. eapply Hret; reflexivity.
    + exists e, w'. unfold getPropagationMatrix, Modes.getPropagationMatrix, Py.bind.
      fold getEvolutionOperator. rewrite HT. reflexivity.
  - exact Hret.
  - reflexivity.
Qed.

End ModesProperties.

(** ** Normalization of a profile *)

Lemma fold_left_Rplus l a : fold_left Rplus l a = a + fold_right Rplus 0 l.
Proof.
  revert a. induction l as [|x l IH]; intros a; simpl; [lra|].
  rewrite IH. lra.
Qed.

Lemma sum_fold_right l : Np.sum l = fold_right Rplus 0 l.
Proof. unfold Np.sum. rewrite fold_left_Rplus. lra. Qed.

Lemma norm2_cons z p : norm2 (z :: p) = Cx.abs z ^ 2 + norm2 p.
Proof. unfold norm2. rewrite !sum_fold_right. reflexivity. Qed.

Lemma norm2_nonneg p : 0 <= norm2 p.
Proof.
  induction p as [|z p IH].
  - unfold norm2, Np.sum; simpl. lra.
  - rewrite norm2_cons. pose proof (pow2_ge_0 (Cx.abs z)). lra.
Qed.

Lemma norm2_scaled p s : norm2 (map (fun z => Cx.div_R z s) p) = norm2 p / s ^ 2.
Proof.
  induction p as [|z p IH].
  - unfold norm2, Np.sum; simpl. lra.
  - cbn [map]. rewrite !norm2_cons, IH, abs_div_R. lra.
Qed.

(** A profile that is not zero has unit L2 norm once normalized. *)
Lemma normalize_unit p : norm2 p <> 0 -> norm2 (propagationModeSolver.normalize p) = 1.
Proof.
  intros Hnz. unfold propagationModeSolver.normalize. fold (norm2 p).
  rewrite norm2_scaled. pose proof (norm2_nonneg p) as Hge.
  rewrite pow2_sqrt by assumption. field. exact Hnz.
Qed.

(** ** The selection loop *)

Lemma update_last_app {A} (f : A -> A) l x : update_last f (l ++ [x]) = l ++ [f x].
Proof. unfold update_last. rewrite rev_app_distr. simpl. rewrite rev_involutive. reflexivity. Qed.

Lemma select_step_in vecs bmin bmax m i z :
  in_band bmin bmax z = true -> (i < ncols vecs)%nat ->
  select_step vecs bmin bmax m i z = Return (selected vecs bmin bmax m [(i, z)]).
Proof.
  intros Hin Hi. unfold select_step, selected, column. cbn [filter snd fst].
  rewrite Hin. apply Nat.ltb_lt in Hi. rewrite Hi. cbn [Py.obind map length].
  rewrite update_last_app. reflexivity.
Qed.

Lemma select_step_out vecs bmin bmax m i z :
  in_band bmin bmax z = false -> select_step vecs bmin bmax m i z = Return m.
Proof. intros Hout. unfold select_step. rewrite Hout. reflexivity. Qed.

Lemma selected_nil vecs bmin bmax m : selected vecs bmin bmax m [] = m.
Proof.
  unfold selected. destruct m. cbn. rewrite !app_nil_r, Nat.add_0_r. reflexivity.
Qed.

Lemma selected_cons vecs bmin bmax m iv todo :
  selected vecs bmin bmax m (iv :: todo)
  = selected vecs bmin bmax (selected vecs bmin bmax m [iv]) todo.
Proof.
  unfold selected. cbn [filter].
  destruct (in_band bmin bmax (snd iv)); cbn [Modes.betas Modes.number Modes.profiles
    Modes.indexProfile Modes.modeMatrix Modes.wl Modes.curvature map length app].
  - rewrite <- !app_assoc. cbn [app]. f_equal. lia.
  - rewrite !app_nil_r, Nat.add_0_r. reflexivity.
Qed.

(** A run of the loop that returns has accepted exactly the eigenpairs in the
    band, each with an existing column. *)
Lemma select_loop_returns vecs bmin bmax todo : forall m m',
  select_loop vecs bmin bmax m todo = Return m' ->
  m' = selected vecs bmin bmax m todo
  /\ Forall (fun iv => in_band bmin bmax (snd iv) = true -> (fst iv < ncols vecs)%nat) todo.
Proof.
  induction todo as [|[i z] todo IH]; intros m m' Hrun.
  - simpl in Hrun. inversion Hrun. rewrite selected_nil. split; [reflexivity|constructor].
  - cbn [select_loop] in Hrun.
    destruct (in_band bmin bmax z) eqn:Hband.
    + destruct (Nat.ltb i (ncols vecs)) eqn:Hi.
      * apply Nat.ltb_lt in Hi. rewrite (select_step_in _ _ _ _ _ _ Hband Hi) in Hrun.
        cbn [Py.obind] in Hrun. apply IH in Hrun as [-> Hall].
        split; [symmetry; apply selected_cons|].
        constructor; [intros _; exact Hi|exact Hall].
      * unfold select_step, column in Hrun. rewrite Hband, Hi in Hrun. discriminate.
    + rewrite (select_step_out _ _ _ _ _ _ Hband) in Hrun. cbn [Py.obind] in Hrun.
      apply IH in Hrun as [-> Hall].
      split.
      * rewrite (selected_cons vecs bmin bmax m (i, z) todo). f_equal.
        unfold selected. cbn [filter snd]. rewrite Hband. destruct m; cbn.
        rewrite !app_nil_r, Nat.add_0_r. reflexivity.
      * constructor; [cbn [snd]; rewrite Hband; discriminate|exact Hall].
Qed.

(** The loop returns whenever the eigenvector array has a column for every
    eigenvalue, as the arrays of [eigs] have. *)
Lemma select_loop_total vecs bmin bmax todo : forall m,
  Forall (fun iv => (fst iv < ncols vecs)%nat) todo ->
  select_loop vecs bmin bmax m todo = Return (selected vecs bmin bmax m todo).
Proof.
  induction todo as [|[i z] todo IH]; intros m Hall.
  - simpl. rewrite selected_nil. reflexivity.
  - inversion Hall as [|? ? Hi Hrest]; subst. cbn [fst] in Hi. cbn [select_loop].
    rewrite (selected_cons vecs bmin bmax m (i, z) todo).
    destruct (in_band bmin bmax z) eqn:Hband.
    + rewrite (select_step_in _ _ _ _ _ _ Hband Hi). cbn [Py.obind]. apply IH, Hrest.
    + rewrite (select_step_out _ _ _ _ _ _ Hband). cbn [Py.obind].
      rewrite (IH m Hrest). f_equal. f_equal.
      unfold selected. cbn [filter snd]. rewrite Hband. destruct m; cbn.
      rewrite !app_nil_r, Nat.add_0_r. reflexivity.
Qed.

Lemma enumerate_fst_lt {A} (l : list A) :
  Forall (fun iv => (fst iv < length l)%nat) (PyList.enumerate l).
Proof.
  unfold PyList.enumerate. apply Forall_forall. intros [i x] Hin.
  apply in_combine_l in Hin. apply in_seq in Hin. cbn [fst]. lia.
Qed.

(** The band test, spelled out: numpy compares the real parts, and the
    imaginary parts when the real parts are equal. *)
Lemma in_band_spec bmin bmax z :
  in_band bmin bmax z = true <->
  (bmin ^ 2 < Cx.Re z \/ (Cx.Re z = bmin ^ 2 /\ 0 < Cx.Im z))
  /\ (Cx.Re z < bmax ^ 2 \/ (Cx.Re z = bmax ^ 2 /\ Cx.Im z < 0)).
Proof.
  unfold in_band, Cx.gt_R, Cx.lt_R, Cx.ltb, Cx.of_R; cbn [Cx.Re Cx.Im].
  rewrite andb_true_iff, !orb_true_iff, !andb_true_iff, !Rltb_true, !Reqb_true.
  intuition auto.
Qed.

(** On a real eigenvalue the band test is the pair of strict inequalities. *)
Lemma in_band_real bmin bmax x :
  in_band bmin bmax (Cx.of_R x) = true <-> bmin ^ 2 < x < bmax ^ 2.
Proof.
  rewrite in_band_spec. unfold Cx.of_R; cbn [Cx.Re Cx.Im]. split.
  - intros [[H1|[_ H1]] [H2|[_ H2]]]; lra.
  - intros [H1 H2]. split; left; assumption.
Qed.

Lemma combine_seq_In {A} (l : list A) : forall b i z,
  In (i, z) (combine (seq b (length l)) l)
  <-> (b <= i)%nat /\ nth_error l (i - b) = Some z.
Proof.
  induction l as [|a l IH]; intros b i z; cbn [length seq combine].
  - split; [intros []|]. intros [_ Hn]. destruct (i - b)%nat; discriminate.
  - cbn [In]. rewrite IH. split.
    + intros [[= <- <-]|[Hle Hn]].
      * split; [lia|]. rewrite Nat.sub_diag. reflexivity.
      * split; [lia|]. replace (i - b)%nat with (S (i - S b)) by lia. exact Hn.
    + intros [Hle Hn]. destruct (Nat.eq_dec i b) as [->|Hne].
      * left. rewrite Nat.sub_diag in Hn. cbn in Hn. congruence.
      * right. split; [lia|].
        replace (i - b)%nat with (S (i - S b)) in Hn by lia. exact Hn.
Qed.

(** [enumerate(l)] pairs every element with its index. *)
Lemma enumerate_In {A} (l : list A) i z :
  In (i, z) (PyList.enumerate l) <-> nth_error l i = Some z.
Proof.
  unfold PyList.enumerate. rewrite combine_seq_In, Nat.sub_0_r.
  split; [intros [_ H]; exact H|]. intros H. split; [lia|exact H].
Qed.

(** ** What a run of solve goes through *)

Lemma solve_diags_run ip k0 boundary curv w :
  fst (solve_diags ip k0 boundary curv w)
  = apply_curvature ip curv (base_diags ip k0 boundary)
  /\ self (snd (solve_diags ip k0 boundary curv w)) = self w
  /\ disk (snd (solve_diags ip k0 boundary curv w)) = disk w.
Proof.
  unfold solve_diags, base_diags, Py.bind, Py.lift, Py.ret, log, Py.modify.
  destruct (String.eqb boundary "periodic"); [|destruct (String.eqb boundary "close")];
    cbn [app self logged disk];
    destruct (apply_curvature ip curv _); cbn [self logged disk fst snd];
    repeat split; reflexivity.
Qed.

Lemma fold_left_Rmin_spec l : forall x,
  (In (fold_left Rmin l x) (x :: l))
  /\ forall y, In y (x :: l) -> fold_left Rmin l x <= y.
Proof.
  induction l as [|a l IH]; intros x; cbn [fold_left].
  - split; [left; reflexivity|]. intros y [->|[]]. lra.
  - destruct (IH (Rmin x a)) as [Hin Hle]. split.
    + destruct Hin as [Heq|Hin]; [|right; right; exact Hin].
      rewrite <- Heq. unfold Rmin. destruct (Rle_dec x a); [left|right; left]; reflexivity.
    + intros y [->|[->|Hy]].
      * eapply Rle_trans; [apply Hle; left; reflexivity|apply Rmin_l].
      * eapply Rle_trans; [apply Hle; left; reflexivity|apply Rmin_r].
      * apply Hle. right. exact Hy.
Qed.

Lemma fold_left_Rmax_spec l : forall x,
  (In (fold_left Rmax l x) (x :: l))
  /\ forall y, In y (x :: l) -> y <= fold_left Rmax l x.
Proof.
  induction l as [|a l IH]; intros x; cbn [fold_left].
  - split; [left; reflexivity|]. intros y [->|[]]. lra.
  - destruct (IH (Rmax x a)) as [Hin Hle]. split.
    + destruct Hin as [Heq|Hin]; [|right; right; exact Hin].
      rewrite <- Heq. unfold Rmax. destruct (Rle_dec x a); [right; left|left]; reflexivity.
    + intros y [->|[->|Hy]].
      * eapply Rle_trans; [apply Rmax_l|apply Hle; left; reflexivity].
      * eapply Rle_trans; [apply Rmax_r|apply Hle; left; reflexivity].
      * apply Hle. right. exact Hy.
Qed.

(** [np.min] and [np.max] return the least and the greatest element. *)
Lemma amin_spec l x : amin l = Return x -> In x l /\ forall y, In y l -> x <= y.
Proof.
  destruct l as [|a l]; [discriminate|]. cbn [amin]. intros [= <-].
  apply fold_left_Rmin_spec.
Qed.

Lemma amax_spec l x : amax l = Return x -> In x l /\ forall y, In y l -> y <= x.
Proof.
  destruct l as [|a l]; [discriminate|]. cbn [amax]. intros [= <-].
  apply fold_left_Rmax_spec.
Qed.

Section SolveProperties.

Variable eigs : dia_matrix -> nat -> Outcome (list complex * ndarray2 complex).

Lemma solve_returns_inv nmodesMax boundary storeData curv mode w m w' :
  solve eigs nmodesMax boundary storeData curv mode w = (Return m, w') ->
  exists ip wl_ diags Hm nmin nmax vals vecs,
    indexProfile (self w) = Some ip
    /\ wl (self w) = Some wl_ /\ wl_ <> 0
    /\ apply_curvature ip curv (base_diags ip (2 * PI / wl_) boundary) = Return diags
    /\ sparse_diags diags (offsets (npoints ip)) = Return Hm
    /\ amin (flatten (n ip)) = Return nmin
    /\ amax (flatten (n ip)) = Return nmax
    /\ eigs Hm nmodesMax = Return (vals, vecs)
    /\ select_loop vecs (2 * PI / wl_ * nmin) (2 * PI / wl_ * nmax)
                   (fresh_modes (self w)) (PyList.enumerate vals) = Return m
    /\ H (self w') = Some Hm
    /\ modes (self w') = (if storeData then Some m else modes (self w))
    /\ indexProfile (self w') = indexProfile (self w)
    /\ wl (self w') = wl (self w)
    /\ disk w' = disk w.
Proof.
  unfold solve. unfold Py.bind at 1. unfold Py.get.
  unfold Py.bind at 1. unfold Py.assert.
  destruct (indexProfile (self w)) as [ip|] eqn:Hip; cbn [is_some Py.ret Py.raise];
    [|discriminate].
  unfold Py.bind at 1.
  destruct (wl (self w)) as [wl_|] eqn:Hwl; cbn [truthy negb]; [|discriminate].
  destruct (Reqb wl_ 0) eqn:Hz; cbn [negb Py.ret Py.raise]; [discriminate|].
  apply Reqb_false in Hz.
  unfold Py.bind at 1.
  pose proof (solve_diags_run ip (2 * PI / wl_) boundary curv w) as (Hd & Hself & Hdisk).
  destruct (solve_diags ip (2 * PI / wl_) boundary curv w) as [[diags|e] w1];
    cbn [fst snd] in *; [|discriminate].
  unfold Py.bind at 1. unfold Py.lift at 1.
  destruct (sparse_diags diags (offsets (npoints ip))) as [Hm|e] eqn:HH; [|discriminate].
  unfold Py.bind at 1. unfold set_self, Py.modify.
  unfold Py.bind at 1. unfold Py.lift at 1.
  destruct (amin (flatten (n ip))) as [nmin|e] eqn:Hmin; [|discriminate].
  unfold Py.bind at 1. unfold Py.lift at 1.
  destruct (amax (flatten (n ip))) as [nmax|e] eqn:Hmax; [|discriminate].
  unfold Py.bind at 1. unfold Py.lift at 1.
  destruct (eigs Hm nmodesMax) as [[vals vecs]|e] eqn:He; [|discriminate].
  unfold Py.bind at 1. unfold Py.lift at 1. cbn [fst snd].
  destruct (select_loop _ _ _ _ _) as [m1|e] eqn:Hsel; [|discriminate].
  unfold Py.bind, log, Py.modify, Py.ret, set_self.
  intros Hrun.
  exists ip, wl_, diags, Hm, nmin, nmax, vals, vecs.
  destruct (nmodesMax =? Modes.number m1)%nat, storeData;
    cbn [self logged disk] in Hrun; inversion Hrun; subst;
    cbn [self disk set_modes set_H H modes indexProfile wl];
    rewrite ?Hself, ?Hip, ?Hwl; repeat split; auto.
Qed.

(** The Mode Set of a run that returns, read off the eigenpairs. *)
Lemma solve_returns_selected nmodesMax boundary storeData curv mode w m w' :
  solve eigs nmodesMax boundary storeData curv mode w = (Return m, w') ->
  exists ip wl_ Hm nmin nmax vals vecs,
    indexProfile (self w) = Some ip
    /\ wl (self w) = Some wl_ /\ wl_ <> 0
    /\ H (self w') = Some Hm
    /\ amin (flatten (n ip)) = Return nmin
    /\ amax (flatten (n ip)) = Return nmax
    /\ eigs Hm nmodesMax = Return (vals, vecs)
    /\ m = selected vecs (2 * PI / wl_ * nmin) (2 * PI / wl_ * nmax)
                    (fresh_modes (self w)) (PyList.enumerate vals).
Proof.
  intros Hrun. apply solve_returns_inv in Hrun.
  destruct Hrun as (ip & wl_ & diags & Hm & nmin & nmax & vals & vecs & Hip & Hwl & Hnz
                    & _ & _ & Hmin & Hmax & He & Hsel & HH & _).
  apply select_loop_returns in Hsel as [-> _].
  exists ip, wl_, Hm, nmin, nmax, vals, vecs. repeat split; assumption.
Qed.

(** C10: a fresh Modes object has no beta, no profile and number 0; a step of
    the loop over the eigenvalues either leaves the Mode Set as it is, or
    appends one beta, appends one profile and adds one to number; and every
    Mode Set that solve returns has as many betas and as many profiles as its
    number says. *)
Theorem solve_modes_invariant :
  (Modes.betas Modes.init = [] /\ Modes.profiles Modes.init = []
   /\ Modes.number Modes.init = 0%nat /\ modes_invariant Modes.init)
  /\ (forall vecs bmin bmax m i betasq m',
        select_step vecs bmin bmax m i betasq = Return m' ->
        (in_band bmin bmax betasq = false /\ m' = m)
        \/ (in_band bmin bmax betasq = true
            /\ (exists beta, Modes.betas m' = Modes.betas m ++ [beta])
            /\ (exists profile, Modes.profiles m' = Modes.profiles m ++ [profile])
            /\ Modes.number m' = (Modes.number m + 1)%nat
            /\ (modes_invariant m -> modes_invariant m')))
  /\ (forall nmodesMax boundary storeData curv mode w m w',
        solve eigs nmodesMax boundary storeData curv mode w = (Return m, w') ->
        modes_invariant m).
Proof.
  split; [|split].
  - repeat split.
  - intros vecs bmin bmax m i z m' Hstep.
    destruct (in_band bmin bmax z) eqn:Hband.
    + right. split; [reflexivity|].
      unfold select_step in Hstep. rewrite Hband in Hstep.
      destruct (column Cx.zero vecs i) as [col|e]; [|discriminate].
      cbn [Py.obind] in Hstep. rewrite update_last_app in Hstep.
      injection Hstep as <-. cbn [Modes.betas Modes.profiles Modes.number].
      split; [eexists; reflexivity|]. split; [eexists; reflexivity|].
      split; [reflexivity|].
      unfold modes_invariant. cbn [Modes.betas Modes.profiles Modes.number].
      rewrite !length_app. cbn [length]. lia.
    + left. rewrite (select_step_out _ _ _ _ _ _ Hband) in Hstep.
      injection Hstep as <-. split; reflexivity.
  - intros nmodesMax boundary storeData curv mode w m w' Hrun.
    apply solve_returns_selected in Hrun.
    destruct Hrun as (ip & wl_ & Hm & nmin & nmax & vals & vecs & _ & _ & _ & _ & _ & _ & _ & ->).
    unfold modes_invariant, selected, fresh_modes.
    cbn [Modes.betas Modes.profiles Modes.number Modes.init app].
    rewrite !length_map. split; reflexivity.
Qed.

(** C1: when solve returns, the eigenpairs of [eigs] that it has put into the
    Mode Set are those whose eigenvalue passes the test
    [betasq > beta_min**2 and betasq < beta_max**2], in their order, with
    beta_min = k0*min(n) and beta_max = k0*max(n); each is stored with the
    square root of its eigenvalue and with its eigenvector divided by the
    square root of the sum of its squared magnitudes, and, eigenvectors not
    being zero, every stored profile has unit L2 norm. *)
Theorem solve_selects_guided_modes nmodesMax boundary storeData curv mode w m w' :
  (forall Hm k vals vecs, eigs Hm k = Return (vals, vecs) ->
     forall i, (i < length vals)%nat -> norm2 (column_of vecs i) <> 0) ->
  solve eigs nmodesMax boundary storeData curv mode w = (Return m, w') ->
  exists ip wl_ Hm nmin nmax vals vecs,
    indexProfile (self w) = Some ip
    /\ wl (self w) = Some wl_
    /\ H (self w') = Some Hm
    /\ eigs Hm nmodesMax = Return (vals, vecs)
    /\ (In nmin (flatten (n ip)) /\ forall y, In y (flatten (n ip)) -> nmin <= y)
    /\ (In nmax (flatten (n ip)) /\ forall y, In y (flatten (n ip)) -> y <= nmax)
    /\ let k0 := 2 * PI / wl_ in
       let beta_min := k0 * nmin in
       let beta_max := k0 * nmax in
       let accepted := filter (fun iv => in_band beta_min beta_max (snd iv))
                              (PyList.enumerate vals) in
       (forall i betasq, In (i, betasq) accepted <->
          nth_error vals i = Some betasq
          /\ (beta_min ^ 2 < Cx.Re betasq
              \/ (Cx.Re betasq = beta_min ^ 2 /\ 0 < Cx.Im betasq))
          /\ (Cx.Re betasq < beta_max ^ 2
              \/ (Cx.Re betasq = beta_max ^ 2 /\ Cx.Im betasq < 0)))
       /\ Modes.betas m = map (fun iv => Cx.csqrt (snd iv)) accepted
       /\ Modes.profiles m
          = map (fun iv => normalize (column_of vecs (fst iv))) accepted
       /\ Modes.number m = length accepted
       /\ Forall (fun beta => exists betasq, In betasq vals /\ Cx.mul beta beta = betasq)
                 (Modes.betas m)
       /\ Forall (fun profile => norm2 profile = 1) (Modes.profiles m).
Proof.
  intros Heigs Hrun. apply solve_returns_selected in Hrun.
  destruct Hrun as (ip & wl_ & Hm & nmin & nmax & vals & vecs
                    & Hip & Hwl & Hnz & HH & Hmin & Hmax & He & ->).
  exists ip, wl_, Hm, nmin, nmax, vals, vecs.
  split; [exact Hip|]. split; [exact Hwl|]. split; [exact HH|]. split; [exact He|].
  split; [apply amin_spec, Hmin|]. split; [apply amax_spec, Hmax|].
  intros k0 beta_min beta_max accepted.
  split.
  { intros i z. subst accepted. rewrite filter_In, enumerate_In. cbn [snd].
    rewrite in_band_spec. tauto. }
  unfold selected, fresh_modes.
  cbn [Modes.betas Modes.profiles Modes.number Modes.init app Nat.add].
  fold accepted.
  split; [reflexivity|]. split; [reflexivity|]. split; [reflexivity|].
  split.
  - apply Forall_forall. intros beta Hbeta. apply in_map_iff in Hbeta.
    destruct Hbeta as ([i z] & <- & Hin). cbn [snd]. exists z.
    split; [|apply csqrt_sqr].
    subst accepted. apply filter_In in Hin as [Hin _].
    apply enumerate_In in Hin. eapply nth_error_In, Hin.
  - apply Forall_forall. intros p Hp. apply in_map_iff in Hp.
    destruct Hp as ([i z] & <- & Hin). cbn [fst].
    apply normalize_unit. eapply Heigs; [exact He|].
    subst accepted. apply filter_In in Hin as [Hin _].
    apply enumerate_In in Hin. apply nth_error_Some. rewrite Hin. discriminate.
Qed.

(** *** Curvature added to a solved Mode Set *)

Variable scipy_rotate : ndarray2 R -> R -> ndarray2 R.
Variable scipy_shift : ndarray2 R -> list R -> ndarray2 R.

(** An object without the attribute [curvature] is turned away: reading
    [self.curvature] raises [AttributeError] inside the [try], and the bare
    [except] answers as it does for a Mode Set solved with curvature. *)
Lemma getEvolutionOperator_no_attribute npola radius (w : World Modes.t) :
  Modes.curvature (self w) = None ->
  truthy (Modes.wl (self w)) = true ->
  is_some (Modes.indexProfile (self w)) = true ->
  Modes.getEvolutionOperator scipy_rotate scipy_shift npola (Some radius) w
  = (Return None, mkWorld (self w) (logged w ++ [curvature_error]) (disk w)).
Proof.
  intros Hc Hwl Hip.
  unfold Modes.getEvolutionOperator, Py.bind, Py.get, Py.try_except, Py.assert.
  rewrite Hwl, Hip, Hc. reflexivity.
Qed.

(** C4, on the code: a Mode Set that solve has returned, for a straight
    fiber or not, never gets its curvature operator.  Neither [Modes.__init__]
    nor solve gives the object an attribute [curvature], so for every radius
    and every npola the call logs the error and returns [None], leaving the
    Mode Set as it was. *)
Theorem getEvolutionOperator_curvature_always_rejected
        nmodesMax boundary storeData curv mode w m w' npola radius lg dk :
  solve eigs nmodesMax boundary storeData curv mode w = (Return m, w') ->
  Modes.curvature m = None
  /\ Modes.getEvolutionOperator scipy_rotate scipy_shift npola (Some radius)
       (mkWorld m lg dk)
     = (Return None, mkWorld m (lg ++ [curvature_error]) dk).
Proof.
  intros Hrun. apply solve_returns_selected in Hrun.
  destruct Hrun as (ip & wl_ & Hm & nmin & nmax & vals & vecs
                    & Hip & Hwl & Hnz & _ & _ & _ & _ & ->).
  split; [reflexivity|].
  apply getEvolutionOperator_no_attribute; cbn [self].
  - reflexivity.
  - unfold selected, fresh_modes; cbn [Modes.wl]. rewrite Hwl. cbn [truthy].
    apply Reqb_false in Hnz. rewrite Hnz. reflexivity.
  - unfold selected, fresh_modes; cbn [Modes.indexProfile]. rewrite Hip. reflexivity.
Qed.

(** *** Boundary modes for which no operator is built *)

Lemma list_set_length {A} k (x : A) l : length (list_set k x l) = length l.
Proof.
  revert k. induction l as [|y l IH]; intros k; destruct k; simpl; auto.
Qed.

Lemma divide_diagonal_length k denom diags diags' :
  divide_diagonal k denom diags = Return diags' -> length diags' = length diags.
Proof.
  unfold divide_diagonal. destruct (nth_error diags k); [|discriminate].
  destruct (broadcast Rdiv l denom); [|discriminate].
  cbn [Py.obind]. intros [= <-]. apply list_set_length.
Qed.

Lemma apply_curvature_length ip curv diags diags' :
  apply_curvature ip curv diags = Return diags' -> length diags' = length diags.
Proof.
  unfold apply_curvature. destruct curv as [c|]; [|intros [= <-]; reflexivity].
  repeat match goal with
         | |- Py.obind ?o _ = _ -> _ =>
             let H := fresh "H" in
             destruct o eqn:H; cbn [Py.obind]; [apply divide_diagonal_length in H|discriminate]
         end.
  intros H4. apply divide_diagonal_length in H4. congruence.
Qed.

(** [sparse.diags] refuses a list of diagonals that is not as long as the
    list of offsets. *)
Lemma sparse_diags_count diags offs :
  length diags <> length offs -> sparse_diags diags offs = Raise ValueError.
Proof.
  intros Hne. unfold sparse_diags. apply Nat.eqb_neq in Hne. rewrite Hne. reflexivity.
Qed.

(** In that case nothing is stored on the solver and no file is written. *)
Lemma solve_wrong_count nmodesMax boundary storeData curv mode w :
  (forall ip k0, length (base_diags ip k0 boundary) <> 5%nat) ->
  exists w',
    solve eigs nmodesMax boundary storeData curv mode w
    = (Raise (exception_without_operator (self w) boundary curv), w')
    /\ self w' = self w /\ disk w' = disk w.
Proof.
  intros Hcount.
  unfold solve, exception_without_operator. unfold Py.bind at 1. unfold Py.get.
  unfold Py.bind at 1. unfold Py.assert.
  destruct (indexProfile (self w)) as [ip|] eqn:Hip; cbn [is_some Py.ret Py.raise andb];
    [|exists w; repeat split].
  unfold Py.bind at 1.
  destruct (wl (self w)) as [wl_|]; cbn [truthy]; [|exists w; repeat split].
  destruct (Reqb wl_ 0); cbn [negb Py.ret Py.raise]; [exists w; repeat split|].
  unfold Py.bind at 1.
  pose proof (solve_diags_run ip (2 * PI / wl_) boundary curv w) as (Hd & Hself & Hdisk).
  destruct (solve_diags ip (2 * PI / wl_) boundary curv w) as [[diags|e] w1];
    cbn [fst snd] in *; rewrite <- Hd.
  - symmetry in Hd. pose proof (apply_curvature_length _ _ _ _ Hd) as Hlen.
    unfold Py.bind at 1. unfold Py.lift at 1.
    rewrite sparse_diags_count by (cbn [offsets length]; rewrite Hlen; apply Hcount).
    exists w1. repeat split; auto.
  - exists w1. repeat split; auto.
Qed.

Lemma broadcast_raises {A B C} (f : A -> B -> C) a b e :
  broadcast f a b = Raise e -> e = ValueError.
Proof.
  unfold broadcast. destruct (_ =? _)%nat; [discriminate|].
  destruct a as [|? [|? ?]], b as [|? [|? ?]]; try discriminate;
    intros [= <-]; reflexivity.
Qed.

Lemma divide_diagonal_raises k denom diags e :
  (k < length diags)%nat -> divide_diagonal k denom diags = Raise e -> e = ValueError.
Proof.
  intros Hk. unfold divide_diagonal.
  destruct (nth_error diags k) as [d|] eqn:Hn.
  - destruct (broadcast Rdiv d denom) eqn:Hb; [discriminate|].
    cbn [Py.obind]. intros [= <-]. eapply broadcast_raises, Hb.
  - apply nth_error_None in Hn. lia.
Qed.

(** With five diagonals or more the curvature block can only fail on the
    lengths of the arrays it divides. *)
Lemma apply_curvature_raises ip curv diags e :
  (5 <= length diags)%nat -> apply_curvature ip curv diags = Raise e -> e = ValueError.
Proof.
  intros Hlen. unfold apply_curvature. destruct curv as [c|]; [|discriminate].
  repeat match goal with
         | |- Py.obind ?o _ = _ -> _ =>
             let H := fresh "H" in
             destruct o eqn:H; cbn [Py.obind];
             [apply divide_diagonal_length in H
             |intros [= <-]; eapply divide_diagonal_raises; [|exact H]; lia]
         end.
  intros H4. eapply divide_diagonal_raises; [|exact H4]. lia.
Qed.

(** C2, on the code: with boundary 'periodic' solve builds no operator.  The
    branch appends eight diagonals to the main one, and the nine diagonals go
    to [sparse.diags] with the five offsets [0,-1,1,-npoints,npoints]: the
    call raises [ValueError] (when the assertions on the solver pass and
    whatever the curvature), the solver keeps the operator and the modes it
    had, and no eigenpair is computed. *)
Theorem solve_periodic_builds_no_operator nmodesMax storeData curv mode w :
  (forall ip k0,
      fst (solve_diags ip k0 "periodic" None w)
      = Return [main_diagonal ip k0;
         x_diagonal (npoints ip) (dh ip); x_diagonal (npoints ip) (dh ip);
         y_diagonal (npoints ip) (dh ip); y_diagonal (npoints ip) (dh ip);
         x_wrap_diagonal (npoints ip) (dh ip); x_wrap_diagonal (npoints ip) (dh ip);
         y_wrap_diagonal (npoints ip) (dh ip); y_wrap_diagonal (npoints ip) (dh ip)]
      /\ length (offsets (npoints ip)) = 5%nat)
  /\ exists e w',
      solve eigs nmodesMax "periodic" storeData curv mode w = (Raise e, w')
      /\ e = (if is_some (indexProfile (self w)) && truthy (wl (self w))
              then ValueError else AssertionError)
      /\ H (self w') = H (self w)
      /\ modes (self w') = modes (self w)
      /\ disk w' = disk w.
Proof.
  split.
  { intros ip k0. split; [|reflexivity].
    rewrite (proj1 (solve_diags_run ip k0 "periodic" None w)). reflexivity. }
  destruct (solve_wrong_count nmodesMax "periodic" storeData curv mode w)
    as (w' & Hrun & Hself & Hdisk); [intros ip k0; cbn; discriminate|].
  exists (exception_without_operator (self w) "periodic" curv), w'.
  split; [exact Hrun|]. rewrite Hself. repeat split; auto.
  unfold exception_without_operator.
  destruct (indexProfile (self w)) as [ip|]; [|reflexivity].
  destruct (wl (self w)) as [wl_|]; [|reflexivity].
  cbn [is_some truthy andb]. destruct (Reqb wl_ 0); [reflexivity|]. cbn [negb].
  destruct (apply_curvature ip curv _) as [d|e] eqn:Hc; [reflexivity|].
  eapply apply_curvature_raises; [|exact Hc]. cbn. lia.
Qed.

Lemma base_diags_other ip k0 boundary :
  boundary <> "close" -> boundary <> "periodic" ->
  base_diags ip k0 boundary = [main_diagonal ip k0].
Proof.
  intros Hc Hp. unfold base_diags.
  apply String.eqb_neq in Hc, Hp. rewrite Hc, Hp. reflexivity.
Qed.

(** C7, as the code has it: for a boundary mode that is neither 'close' nor
    'periodic' solve adds no coupling diagonal, so that the list of diagonals
    holds the main diagonal only; [sparse.diags], given this one diagonal and
    the five offsets, raises [ValueError] and solve fails with it: no
    operator is stored, no mode is computed.  (With a curvature the same call
    fails earlier, in the curvature block.) *)
Theorem solve_unknown_boundary_fails nmodesMax boundary storeData curv mode w :
  boundary <> "close" -> boundary <> "periodic" ->
  (forall ip k0,
      fst (solve_diags ip k0 boundary None w) = Return [main_diagonal ip k0])
  /\ exists e w',
      solve eigs nmodesMax boundary storeData curv mode w = (Raise e, w')
      /\ e = exception_without_operator (self w) boundary curv
      /\ exception_without_operator (self w) boundary None
         = (if is_some (indexProfile (self w)) && truthy (wl (self w))
            then ValueError else AssertionError)
      /\ H (self w') = H (self w)
      /\ modes (self w') = modes (self w)
      /\ disk w' = disk w.
Proof.
  intros Hc Hp. split.
  { intros ip k0. rewrite (proj1 (solve_diags_run ip k0 boundary None w)).
    rewrite base_diags_other by assumption. reflexivity. }
  destruct (solve_wrong_count nmodesMax boundary storeData curv mode w)
    as (w' & Hrun & Hself & Hdisk).
  { intros ip k0. rewrite base_diags_other by assumption. cbn. discriminate. }
  exists (exception_without_operator (self w) boundary curv), w'.
  split; [exact Hrun|]. rewrite Hself. repeat split; auto.
  unfold exception_without_operator.
  destruct (indexProfile (self w)) as [ip|]; [|reflexivity].
  destruct (wl (self w)) as [wl_|]; [|reflexivity].
  cbn [is_some truthy andb apply_curvature]. destruct (Reqb wl_ 0); reflexivity.
Qed.

(** *** The operator with boundary 'close' *)

Lemma x_diagonal_length np d : (1 <= np)%nat -> length (x_diagonal np d) = (np * np - 1)%nat.
Proof.
  intros Hnp. unfold x_diagonal.
  rewrite length_app, !times_length, length_app, times_length.
  cbn [length]. destruct np as [|k]; [lia|]. cbn [Nat.sub]. rewrite Nat.sub_0_r. nia.
Qed.

Lemma y_diagonal_length np d : length (y_diagonal np d) = (np * np - np)%nat.
Proof.
  unfold y_diagonal. rewrite !times_length. cbn [length].
  destruct np as [|k]; [reflexivity|]. cbn [Nat.sub]. rewrite Nat.sub_0_r. nia.
Qed.

Lemma main_diagonal_length ip k0 : length (main_diagonal ip k0) = length (flatten (n ip)).
Proof. unfold main_diagonal. apply length_map. Qed.

Lemma fit_diagonal_exact m off d :
  Z.of_nat (length d) = (m - Z.abs off)%Z ->
  fit_diagonal m off d = Return (map Cx.of_R d).
Proof.
  intros Hlen. unfold fit_diagonal. rewrite <- Hlen.
  destruct (Z.ltb_spec (Z.of_nat (length d)) 0) as [Hneg|_]; [lia|].
  rewrite Nat2Z.id, Nat.leb_refl, firstn_all. reflexivity.
Qed.

Lemma sparse_diags_close ip k0 :
  length (flatten (n ip)) = (npoints ip * npoints ip)%nat ->
  (2 <= npoints ip)%nat ->
  sparse_diags (base_diags ip k0 "close") (offsets (npoints ip))
  = Return (close_operator ip k0).
Proof.
  intros Hn Hnp. unfold sparse_diags, base_diags, offsets.
  cbn [String.eqb Ascii.eqb Bool.eqb length Nat.eqb negb combine fit_all].
  rewrite main_diagonal_length, Hn.
  assert (Hm : (Z.of_nat (npoints ip * npoints ip) + Z.abs 0
                = Z.of_nat (npoints ip * npoints ip))%Z) by lia.
  rewrite Hm.
  rewrite !fit_diagonal_exact.
  - cbn [Py.obind nodupb existsb].
    repeat rewrite (proj2 (Z.eqb_neq _ _)) by lia.
    cbn [orb negb andb]. rewrite Nat2Z.id. reflexivity.
  - rewrite y_diagonal_length. nia.
  - rewrite y_diagonal_length. nia.
  - rewrite x_diagonal_length by lia. nia.
  - rewrite x_diagonal_length by lia. nia.
  - rewrite main_diagonal_length, Hn. lia.
Qed.

Lemma nth_times_app {A} (blk tail : list A) (d : A) k : forall i,
  (0 < length blk)%nat ->
  nth i (PyList.times blk k ++ tail) d
  = if (i <? k * length blk)%nat then nth (i mod length blk) blk d
    else nth (i - k * length blk) tail d.
Proof.
  induction k as [|k IH]; intros i Hpos.
  - cbn [PyList.times app Nat.mul]. rewrite Nat.sub_0_r. reflexivity.
  - cbn [PyList.times]. rewrite <- app_assoc.
    destruct (Nat.ltb_spec i (length blk)) as [Hlt|Hge].
    + rewrite app_nth1 by exact Hlt. rewrite Nat.mod_small by exact Hlt.
      destruct (Nat.ltb_spec i (S k * length blk)); [reflexivity|nia].
    + rewrite app_nth2 by exact Hge. rewrite IH by exact Hpos.
      assert (Hmod : ((i - length blk) mod length blk = i mod length blk)%nat).
      { replace i with ((i - length blk) + 1 * length blk)%nat at 2 by lia.
        rewrite Nat.Div0.mod_add. reflexivity. }
      rewrite Hmod.
      destruct (Nat.ltb_spec (i - length blk) (k * length blk)),
               (Nat.ltb_spec i (S k * length blk)); try nia.
      * reflexivity.
      * f_equal. nia.
Qed.

Lemma nth_times_singleton {A} (x d : A) k i : (i < k)%nat -> nth i (PyList.times [x] k) d = x.
Proof.
  intros Hi. rewrite times_singleton.
  rewrite (nth_indep _ d x) by (rewrite repeat_length; exact Hi). apply nth_repeat.
Qed.

(** The diagonals at offsets -1 and +1: the weight 1/dh^2, and 0 at every
    npoints-th entry, where a row of the grid ends. *)
Lemma x_diagonal_nth np d i :
  (2 <= np)%nat -> (i < np * np - 1)%nat ->
  nth i (x_diagonal np d) 0
  = if ((i + 1) mod np =? 0)%nat then 0 else 1 / d ^ 2.
Proof.
  intros Hnp Hi. unfold x_diagonal.
  assert (Hblk : length (PyList.times [1 / d ^ 2] (np - 1) ++ [0]) = np).
  { rewrite length_app, times_length. cbn [length]. lia. }
  rewrite nth_times_app by (rewrite Hblk; lia). rewrite Hblk.
  pose proof (Nat.div_mod_eq (i + 1) np) as Hdm1.
  pose proof (Nat.mod_upper_bound (i + 1) np ltac:(lia)) as Hub1.
  pose proof (Nat.div_mod_eq i np) as Hdm.
  pose proof (Nat.mod_upper_bound i np ltac:(lia)) as Hub.
  destruct (Nat.ltb_spec i ((np - 1) * np)) as [Hlt|Hge].
  - destruct (Nat.eq_dec (i mod np) (np - 1)) as [Hlast|Hnot].
    + rewrite Hlast, app_nth2 by (rewrite times_length; cbn [length]; lia).
      rewrite times_length. cbn [length].
      replace (np - 1 - (np - 1) * 1)%nat with 0%nat by lia. cbn [nth].
      assert (Hz : ((i + 1) mod np = 0)%nat).
      { replace (i + 1)%nat with (0 + (i / np + 1) * np)%nat by nia.
        rewrite Nat.Div0.mod_add. apply Nat.mod_small. lia. }
      rewrite Hz. reflexivity.
    + rewrite app_nth1 by (rewrite times_length; cbn [length]; lia).
      rewrite nth_times_singleton by lia.
      assert (Hz : ((i + 1) mod np = i mod np + 1)%nat).
      { replace (i + 1)%nat with ((i mod np + 1) + (i / np) * np)%nat by nia.
        rewrite Nat.Div0.mod_add. apply Nat.mod_small. lia. }
      rewrite Hz. destruct (Nat.eqb_spec (i mod np + 1) 0); [lia|reflexivity].
  - rewrite nth_times_singleton by lia.
    assert (Hz : ((i + 1) mod np = i - (np - 1) * np + 1)%nat).
    { replace (i + 1)%nat with ((i - (np - 1) * np + 1) + (np - 1) * np)%nat by lia.
      rewrite Nat.Div0.mod_add. apply Nat.mod_small. nia. }
    rewrite Hz. destruct (Nat.eqb_spec (i - (np - 1) * np + 1) 0); [lia|reflexivity].
Qed.

(** The diagonals at offsets -npoints and +npoints: the weight 1/dh^2. *)
Lemma y_diagonal_nth np d i :
  (i < np * np - np)%nat -> nth i (y_diagonal np d) 0 = 1 / d ^ 2.
Proof.
  intros Hi. unfold y_diagonal.
  rewrite <- (app_nil_r (PyList.times (PyList.times _ np) (np - 1))).
  assert (Hblk : length (PyList.times [1 / d ^ 2] np) = np).
  { rewrite times_length. cbn [length]. lia. }
  rewrite nth_times_app by (rewrite Hblk; lia). rewrite Hblk.
  destruct (Nat.ltb_spec i ((np - 1) * np)) as [Hlt|Hge]; [|nia].
  apply nth_times_singleton. apply Nat.mod_upper_bound. lia.
Qed.

(** The main diagonal: -4/dh^2 + k0^2 * n^2 over the flattened index field. *)
Lemma main_diagonal_nth ip k0 i :
  (i < length (flatten (n ip)))%nat ->
  nth i (main_diagonal ip k0) 0
  = -4 / dh ip ^ 2 + k0 ^ 2 * nth i (flatten (n ip)) 0 ^ 2.
Proof.
  intros Hi. unfold main_diagonal.
  rewrite (nth_indep _ 0 (-4 / dh ip ^ 2 + k0 ^ 2 * 0 ^ 2))
    by (rewrite length_map; exact Hi).
  apply (map_nth (fun x => -4 / dh ip ^ 2 + k0 ^ 2 * x ^ 2)).
Qed.

(** The operator for boundary 'close', diagonal by diagonal: the main
    diagonal carries -4/dh^2 + k0^2*n^2, the diagonals at offsets -1 and +1
    the weight 1/dh^2 with a 0 at every npoints-th entry, the diagonals at
    offsets -npoints and +npoints the weight 1/dh^2. *)
Lemma close_operator_diagonals ip k0 :
  (2 <= npoints ip)%nat ->
  exists d0 d1 dn,
    diagonals (close_operator ip k0)
    = [ (0%Z, d0); ((-1)%Z, d1); (1%Z, d1);
        ((- Z.of_nat (npoints ip))%Z, dn); (Z.of_nat (npoints ip), dn) ]
    /\ (forall i, (i < length (flatten (n ip)))%nat ->
          nth i d0 Cx.zero
          = Cx.of_R (-4 / dh ip ^ 2 + k0 ^ 2 * nth i (flatten (n ip)) 0 ^ 2))
    /\ length d1 = (npoints ip * npoints ip - 1)%nat
    /\ (forall i, (i < npoints ip * npoints ip - 1)%nat ->
          nth i d1 Cx.zero
          = Cx.of_R (if ((i + 1) mod npoints ip =? 0)%nat then 0 else 1 / dh ip ^ 2))
    /\ length dn = (npoints ip * npoints ip - npoints ip)%nat
    /\ (forall i, (i < npoints ip * npoints ip - npoints ip)%nat ->
          nth i dn Cx.zero = Cx.of_R (1 / dh ip ^ 2)).
Proof.
  intros Hnp. unfold close_operator; cbn [diagonals].
  do 3 eexists. split; [reflexivity|].
  change Cx.zero with (Cx.of_R 0).
  split; [|split; [|split; [|split]]].
  - intros i Hi. rewrite map_nth. f_equal. apply main_diagonal_nth, Hi.
  - rewrite length_map. apply x_diagonal_length. lia.
  - intros i Hi. rewrite map_nth. f_equal. apply x_diagonal_nth; assumption.
  - rewrite length_map. apply y_diagonal_length.
  - intros i Hi. rewrite map_nth. f_equal. apply y_diagonal_nth, Hi.
Qed.

(** With boundary 'close', no curvature, a square index field of side at
    least 2 and an eigensolver that answers, solve returns: the operator it
    stores is [close_operator], and the Mode Set holds the eigenpairs in the
    band. *)
Lemma solve_close_returns nmodesMax storeData mode w ip wl_ vals vecs :
  indexProfile (self w) = Some ip ->
  wl (self w) = Some wl_ -> wl_ <> 0 ->
  length (flatten (n ip)) = (npoints ip * npoints ip)%nat ->
  (2 <= npoints ip)%nat ->
  eigs (close_operator ip (2 * PI / wl_)) nmodesMax = Return (vals, vecs) ->
  (length vals <= ncols vecs)%nat ->
  exists nmin nmax w',
    amin (flatten (n ip)) = Return nmin
    /\ amax (flatten (n ip)) = Return nmax
    /\ solve eigs nmodesMax "close" storeData None mode w
       = (Return (selected vecs (2 * PI / wl_ * nmin) (2 * PI / wl_ * nmax)
                           (fresh_modes (self w)) (PyList.enumerate vals)), w')
    /\ H (self w') = Some (close_operator ip (2 * PI / wl_))
    /\ modes (self w')
       = (if storeData
          then Some (selected vecs (2 * PI / wl_ * nmin) (2 * PI / wl_ * nmax)
                              (fresh_modes (self w)) (PyList.enumerate vals))
          else modes (self w))
    /\ disk w' = disk w.
Proof.
  intros Hip Hwl Hnz Hn Hnp He Hcols.
  assert (Hmin : exists nmin, amin (flatten (n ip)) = Return nmin).
  { destruct (flatten (n ip)) as [|x l]; [cbn in Hn; nia|]. eexists; reflexivity. }
  assert (Hmax : exists nmax, amax (flatten (n ip)) = Return nmax).
  { destruct (flatten (n ip)) as [|x l]; [cbn in Hn; nia|]. eexists; reflexivity. }
  destruct Hmin as [nmin Hmin], Hmax as [nmax Hmax].
  exists nmin, nmax.
  unfold solve. unfold Py.bind at 1. unfold Py.get.
  unfold Py.bind at 1. unfold Py.assert.
  rewrite Hip, Hwl. cbn [is_some truthy Py.ret].
  unfold Py.bind at 1.
  apply Reqb_false in Hnz. rewrite Hnz. cbn [negb Py.ret].
  unfold Py.bind at 1.
  pose proof (solve_diags_run ip (2 * PI / wl_) "close" None w) as (Hd & Hself & Hdisk).
  destruct (solve_diags ip (2 * PI / wl_) "close" None w) as [[diags|e] w1];
    cbn [fst snd apply_curvature] in *; [|discriminate].
  injection Hd as ->.
  unfold Py.bind at 1. unfold Py.lift at 1.
  rewrite sparse_diags_close by assumption.
  unfold Py.bind at 1. unfold set_self, Py.modify.
  unfold Py.bind at 1. unfold Py.lift at 1. rewrite Hmin.
  unfold Py.bind at 1. unfold Py.lift at 1. rewrite Hmax.
  unfold Py.bind at 1. unfold Py.lift at 1. rewrite He.
  unfold Py.bind at 1. unfold Py.lift at 1. cbn [fst snd].
  rewrite select_loop_total.
  2:{ eapply Forall_impl; [|apply enumerate_fst_lt]. intros iv Hlt. cbn beta in Hlt. lia. }
  unfold Py.bind, log, Py.modify, Py.ret, set_self.
  destruct (nmodesMax =? _)%nat, storeData; cbn [self logged disk];
    eexists; (split; [reflexivity|]); (split; [reflexivity|]);
    (split; [reflexivity|]); cbn [self disk set_modes set_H H modes];
    rewrite ?Hself; repeat split; auto.
Qed.

End SolveProperties.

(* ===================================================================== *)
(** * A run on a 2 x 2 grid *)
(* ===================================================================== *)

Lemma two_pi_neq_0 : 2 * PI <> 0.
Proof. pose proof PI_RGT_0. lra. Qed.

Lemma norm2_of_R4 a b c d :
  norm2 [Cx.of_R a; Cx.of_R b; Cx.of_R c; Cx.of_R d] = a ^ 2 + b ^ 2 + c ^ 2 + d ^ 2.
Proof.
  rewrite !norm2_cons, !abs_sqr. unfold norm2, Np.sum; cbn. lra.
Qed.

(** The eigenvectors of [eigs0] are not zero. *)
Lemma eigs0_nonzero : forall Hm k vals vecs,
  eigs0 Hm k = Return (vals, vecs) ->
  forall i, (i < length vals)%nat -> norm2 (column_of vecs i) <> 0.
Proof.
  intros Hm k vals vecs [= <- <-] i Hi. cbn [vals0 length] in Hi.
  destruct i as [|[|[|i]]]; [| | |lia];
    unfold column_of, vecs0; cbn [data map nth]; rewrite norm2_of_R4.
  all: try (apply Rgt_not_eq; lra).

Qed.

(** solve on that solver, with boundary 'close': it returns [modes0], and
    stores the operator and the Mode Set. *)
Lemma solve_run0 :
  exists w',
    solve eigs0 3 "close" true None "default" world0 = (Return modes0, w')
    /\ H (self w') = Some (close_operator ip0 (2 * PI / (2 * PI)))
    /\ modes (self w') = Some modes0
    /\ disk w' = [].
Proof.
  destruct (solve_close_returns eigs0 3 true "default" world0 ip0 (2 * PI) vals0 vecs0)
    as (nmin & nmax & w' & Hmin & Hmax & Hrun & HH & Hmodes & Hdisk);
    try reflexivity; [exact two_pi_neq_0|].
  assert (Hnmin : nmin = 1).
  { apply amin_spec in Hmin as [Hin Hle]. cbn in Hin.
    pose proof (Hle 1 ltac:(cbn; auto)). intuition lra. }
  assert (Hnmax : nmax = 2).
  { apply amax_spec in Hmax as [Hin Hle]. cbn in Hin.
    pose proof (Hle 2 ltac:(cbn; auto)). intuition lra. }
  subst nmin nmax.
  assert (Hsel : selected vecs0 (2 * PI / (2 * PI) * 1) (2 * PI / (2 * PI) * 2)
                          (fresh_modes (self world0)) (PyList.enumerate vals0)
                 = modes0).
  { unfold selected, PyList.enumerate, vals0. cbn [length seq combine filter snd].
    rewrite two_pi_over_two_pi.
    rewrite (proj2 (in_band_real (1 * 1) (1 * 2) 2)) by lra.
    rewrite (proj2 (in_band_real (1 * 1) (1 * 2) 3)) by lra.
    assert (Hout : in_band (1 * 1) (1 * 2) (Cx.of_R 5) = false).
    { destruct (in_band (1 * 1) (1 * 2) (Cx.of_R 5)) eqn:E; [|reflexivity].
      apply in_band_real in E. lra. }
    rewrite Hout. reflexivity. }
  rewrite Hsel in Hrun, Hmodes.
  exists w'. repeat split; assumption.
Qed.

(** C1 on that run. *)
Lemma solve_selects_guided_modes_witness :
  (forall Hm k vals vecs, eigs0 Hm k = Return (vals, vecs) ->
     forall i, (i < length vals)%nat -> norm2 (column_of vecs i) <> 0)
  /\ exists w',
      solve eigs0 3 "close" true None "default" world0 = (Return modes0, w')
      /\ exists ip wl_ Hm nmin nmax vals vecs,
          indexProfile (self world0) = Some ip
          /\ wl (self world0) = Some wl_
          /\ H (self w') = Some Hm
          /\ eigs0 Hm 3 = Return (vals, vecs)
          /\ (In nmin (flatten (n ip)) /\ forall y, In y (flatten (n ip)) -> nmin <= y)
          /\ (In nmax (flatten (n ip)) /\ forall y, In y (flatten (n ip)) -> y <= nmax)
          /\ let k0 := 2 * PI / wl_ in
             let beta_min := k0 * nmin in
             let beta_max := k0 * nmax in
             let accepted := filter (fun iv => in_band beta_min beta_max (snd iv))
                                    (PyList.enumerate vals) in
             (forall i betasq, In (i, betasq) accepted <->
                nth_error vals i = Some betasq
                /\ (beta_min ^ 2 < Cx.Re betasq
                    \/ (Cx.Re betasq = beta_min ^ 2 /\ 0 < Cx.Im betasq))
                /\ (Cx.Re betasq < beta_max ^ 2
                    \/ (Cx.Re betasq = beta_max ^ 2 /\ Cx.Im betasq < 0)))
             /\ Modes.betas modes0 = map (fun iv => Cx.csqrt (snd iv)) accepted
             /\ Modes.profiles modes0
                = map (fun iv => normalize (column_of vecs (fst iv))) accepted
             /\ Modes.number modes0 = length accepted
             /\ Forall (fun beta => exists betasq,
                            In betasq vals /\ Cx.mul beta beta = betasq)
                       (Modes.betas modes0)
             /\ Forall (fun profile => norm2 profile = 1) (Modes.profiles modes0).
Proof.
  split; [exact eigs0_nonzero|].
  destruct solve_run0 as (w' & Hrun & _). exists w'. split; [exact Hrun|].
  exact (solve_selects_guided_modes eigs0 3 "close" true None "default"
           world0 modes0 w' eigs0_nonzero Hrun).
Defined.

(** C10 on that run. *)
Lemma solve_modes_invariant_witness :
  exists w',
    solve eigs0 3 "close" true None "default" world0 = (Return modes0, w')
    /\ modes_invariant modes0.
Proof.
  destruct solve_run0 as (w' & Hrun & _). exists w'. split; [exact Hrun|].
  exact (proj2 (proj2 (solve_modes_invariant eigs0))
           3%nat "close" true None "default" world0 modes0 w' Hrun).
Defined.

(** C4 on that run: the Mode Set, solved for a straight fiber, is asked for
    its evolution operator with the curvature radius 1000. *)
Lemma getEvolutionOperator_curvature_always_rejected_witness :
  exists w',
    solve eigs0 3 "close" true None "default" world0 = (Return modes0, w')
    /\ Modes.curvature modes0 = None
    /\ Modes.getEvolutionOperator scipy_rotate0 scipy_shift0 1 (Some 1000)
         (mkWorld modes0 [] [])
       = (Return None, mkWorld modes0 [curvature_error] []).
Proof.
  destruct solve_run0 as (w' & Hrun & _). exists w'. split; [exact Hrun|].
  exact (getEvolutionOperator_curvature_always_rejected eigs0 scipy_rotate0 scipy_shift0
           3%nat "close" true None "default" world0 modes0 w' 1%nat 1000 [] [] Hrun).
Defined.

(** C7 as stated fails: with the boundary mode 'open', which is neither
    'close' nor 'periodic', solve raises [ValueError]; it returns no Mode Set
    and the solver has no operator afterwards. *)
Lemma solve_open_boundary_raises :
  "open" <> "close" /\ "open" <> "periodic"
  /\ fst (solve eigs0 3 "open" true None "default" world0) = Raise ValueError
  /\ H (self (snd (solve eigs0 3 "open" true None "default" world0))) = None
  /\ ~ exists m w', solve eigs0 3 "open" true None "default" world0 = (Return m, w').
Proof.
  assert (Hc : "open" <> "close") by discriminate.
  assert (Hp : "open" <> "periodic") by discriminate.
  destruct (solve_wrong_count eigs0 3 "open" true None "default" world0)
    as (w' & Hrun & Hself & _).
  { intros ip k0. rewrite base_diags_other by assumption. cbn. discriminate. }
  assert (He : exception_without_operator (self world0) "open" None = ValueError).
  { unfold exception_without_operator. cbn [world0 self solver0 setWL indexProfile wl].
    rewrite (proj2 (Reqb_false _ _) two_pi_neq_0). reflexivity. }
  rewrite He in Hrun.
  split; [exact Hc|]. split; [exact Hp|]. rewrite Hrun. cbn [fst snd].
  split; [reflexivity|]. split; [rewrite Hself; reflexivity|].
  intros (m & w'' & Habs). discriminate.
Qed.

(** The amended C7 at the boundary mode 'open'. *)
Lemma solve_unknown_boundary_fails_witness :
  "open" <> "close" /\ "open" <> "periodic"
  /\ (forall ip k0,
        fst (solve_diags ip k0 "open" None world0) = Return [main_diagonal ip k0])
  /\ exists e w',
      solve eigs0 3 "open" true None "default" world0 = (Raise e, w')
      /\ e = exception_without_operator (self world0) "open" None
      /\ exception_without_operator (self world0) "open" None
         = (if is_some (indexProfile (self world0)) && truthy (wl (self world0))
            then ValueError else AssertionError)
      /\ H (self w') = H (self world0)
      /\ modes (self w') = modes (self world0)
      /\ disk w' = disk world0.
Proof.
  assert (Hc : "open" <> "close") by discriminate.
  assert (Hp : "open" <> "periodic") by discriminate.
  split; [exact Hc|]. split; [exact Hp|].
  exact (solve_unknown_boundary_fails eigs0 3 "open" true None "default" world0 Hc Hp).
Defined.

(* ===================================================================== *)
(** * saveData *)
(* ===================================================================== *)

(** C9, on the code: when saveData returns, the archive it has written is
    not compressed, its member [mode_profiles] is the one profile of index 1
    (the second mode), and its member [Y] is the field X of the index
    profile, as its member [X] is. *)
Theorem saveData_writes outfile w w' :
  saveData outfile w = (Return tt, w') ->
  exists m ip p,
    modes (self w) = Some m
    /\ indexProfile (self w) = Some ip
    /\ nth_error (Modes.profiles m) 1 = Some p
    /\ disk w' = (outfile, saved_archive m ip p) :: disk w
    /\ compressed (saved_archive m ip p) = false
    /\ In ("mode_profiles", Arr1C p) (members (saved_archive m ip p))
    /\ In ("Y", Arr2R (X ip)) (members (saved_archive m ip p)).
Proof.
  unfold saveData, Py.bind, Py.get, Py.assert, savez, log, Py.modify.
  destruct (modes (self w)) as [m|]; cbn [is_some Py.ret Py.raise]; [|discriminate].
  destruct (nth_error (Modes.profiles m) 1) as [p|] eqn:Hp; cbn [Py.ret Py.raise];
    [|discriminate].
  destruct (indexProfile (self w)) as [ip|]; cbn [Py.ret Py.raise]; [|discriminate].
  intros [= <-]. exists m, ip, p. cbn [disk].
  repeat split; try exact Hp; cbn; auto 10.
Qed.

Lemma sqrt_25 : sqrt 25 = 5.
Proof. replace 25 with (Rsqr 5) by (unfold Rsqr; lra). apply sqrt_Rsqr. lra. Qed.

(** C9 on that solver: the archive holds the second of the two stored
    profiles and not the first, which is a different array, and holds the
    field X under the name Y although the field Y is another one. *)
Lemma saveData_writes_witness :
  exists w',
    saveData "modes.npz" world1 = (Return tt, w')
    /\ (exists m ip p,
          modes (self world1) = Some m
          /\ indexProfile (self world1) = Some ip
          /\ nth_error (Modes.profiles m) 1 = Some p
          /\ disk w' = ("modes.npz", saved_archive m ip p) :: disk world1
          /\ compressed (saved_archive m ip p) = false
          /\ In ("mode_profiles", Arr1C p) (members (saved_archive m ip p))
          /\ In ("Y", Arr2R (X ip)) (members (saved_archive m ip p)))
    /\ disk w'
       = [("modes.npz",
           mkArchive false
             [ ("betas", Arr1C (Modes.betas modes0));
               ("mode_profiles",
                Arr1C (normalize [Cx.of_R 3; Cx.of_R 4; Cx.of_R 0; Cx.of_R 0]));
               ("index_profile", Arr2R (n ip0));
               ("X", Arr2R (X ip0));
               ("Y", Arr2R (X ip0)) ])]
    /\ length (Modes.profiles modes0) = 2%nat
    /\ normalize [Cx.of_R 1; Cx.of_R 0; Cx.of_R 0; Cx.of_R 0]
       <> normalize [Cx.of_R 3; Cx.of_R 4; Cx.of_R 0; Cx.of_R 0]
    /\ X ip0 <> Y ip0.
Proof.
  assert (Hrun : saveData "modes.npz" world1
                 = (Return tt,
                    mkWorld (self world1) [(INFO, "Data saved to %s.")]
                            [("modes.npz",
                              saved_archive modes0 ip0
                                (normalize [Cx.of_R 3; Cx.of_R 4; Cx.of_R 0; Cx.of_R 0]))])).
  { lazy beta iota zeta delta
      [saveData Py.bind Py.get Py.assert Py.ret savez log Py.modify world1 self
       set_modes set_H modes indexProfile solver0 setWL setIndexProfile is_some
       nth_error modes0 Modes.profiles Modes.betas logged disk saved_archive app
       propagationModeSolver.init].
    reflexivity. }
  eexists. split; [exact Hrun|].
  split; [|split; [reflexivity|split; [reflexivity|split]]].
  - exact (saveData_writes "modes.npz" world1 _ Hrun).
  - unfold normalize. fold (norm2 [Cx.of_R 1; Cx.of_R 0; Cx.of_R 0; Cx.of_R 0]).
    fold (norm2 [Cx.of_R 3; Cx.of_R 4; Cx.of_R 0; Cx.of_R 0]).
    rewrite !norm2_of_R4. intros Heq.
    apply (f_equal (fun l => Cx.Re (nth 1 l Cx.zero))) in Heq.
    cbn [map nth Cx.Re Cx.div_R Cx.of_R] in Heq.
    replace (3 ^ 2 + 4 ^ 2 + 0 ^ 2 + 0 ^ 2) with 25 in Heq by lra.
    rewrite sqrt_25 in Heq. lra.
  - unfold ip0; cbn [X Y]. intros Heq. injection Heq as Heq _. lra.
Defined.

(* ===================================================================== *)
(** * Further properties of solve *)
(* ===================================================================== *)

Lemma solve_diags_world ip k0 boundary curv w :
  solve_diags ip k0 boundary curv w
  = (apply_curvature ip curv (base_diags ip k0 boundary),
     mkWorld (self w)
             (logged w ++ boundary_log boundary
              ++ match apply_curvature ip curv (base_diags ip k0 boundary) with
                 | Return _ =>
                     [(INFO, "Note that boundary conditions should not matter for guided modes.")]
                 | Raise _ => []
                 end)
             (disk w)).
Proof.
  unfold solve_diags, base_diags, boundary_log, Py.bind, Py.lift, Py.ret, log, Py.modify.
  destruct (String.eqb boundary "periodic"); [|destruct (String.eqb boundary "close")];
    cbn [app self logged disk];
    destruct (apply_curvature ip curv _); cbn [self logged disk app];
    rewrite <- ?app_assoc, ?app_nil_r; try reflexivity; destruct w; reflexivity.
Qed.

Section SolveRuns.

Variable eigs : dia_matrix -> nat -> Outcome (list complex * ndarray2 complex).

(** The run of solve, step by step: when every step returns, solve returns,
    and the world afterwards is the one written here. *)
Lemma solve_returns_when nmodesMax boundary storeData curv mode w
      ip wl_ diags Hm nmin nmax vals vecs m :
  indexProfile (self w) = Some ip ->
  wl (self w) = Some wl_ -> wl_ <> 0 ->
  apply_curvature ip curv (base_diags ip (2 * PI / wl_) boundary) = Return diags ->
  sparse_diags diags (offsets (npoints ip)) = Return Hm ->
  amin (flatten (n ip)) = Return nmin ->
  amax (flatten (n ip)) = Return nmax ->
  eigs Hm nmodesMax = Return (vals, vecs) ->
  select_loop vecs (2 * PI / wl_ * nmin) (2 * PI / wl_ * nmax)
              (fresh_modes (self w)) (PyList.enumerate vals) = Return m ->
  solve eigs nmodesMax boundary storeData curv mode w
  = (Return m,
     mkWorld (solved (self w) Hm storeData m)
             (logged w ++ solve_log boundary nmodesMax storeData (Modes.number m))
             (disk w)).
Proof.
  intros Hip Hwl Hnz Hd HH Hmin Hmax He Hsel.
  unfold solve. unfold Py.bind at 1. unfold Py.get.
  unfold Py.bind at 1. unfold Py.assert.
  rewrite Hip, Hwl. cbn [is_some truthy Py.ret].
  unfold Py.bind at 1.
  apply Reqb_false in Hnz. rewrite Hnz. cbn [negb Py.ret].
  unfold Py.bind at 1. rewrite solve_diags_world, Hd.
  unfold Py.bind at 1. unfold Py.lift at 1. rewrite HH.
  unfold Py.bind at 1. unfold set_self, Py.modify.
  unfold Py.bind at 1. unfold Py.lift at 1. rewrite Hmin.
  unfold Py.bind at 1. unfold Py.lift at 1. rewrite Hmax.
  unfold Py.bind at 1. unfold Py.lift at 1. rewrite He.
  unfold Py.bind at 1. unfold Py.lift at 1. cbn [fst snd]. rewrite Hsel.
  unfold Py.bind, log, Py.modify, Py.ret, set_self, solve_log, solved, capacity_warnings.
  destruct (nmodesMax =? Modes.number m)%nat, storeData; cbn [self logged disk];
    rewrite <- ?app_assoc; cbn [app]; rewrite ?app_nil_r; reflexivity.
Qed.

(** The world after a run of solve that returns. *)
Lemma solve_returns_world nmodesMax boundary storeData curv mode w m w' :
  solve eigs nmodesMax boundary storeData curv mode w = (Return m, w') ->
  exists Hm,
    w' = mkWorld (solved (self w) Hm storeData m)
                 (logged w ++ solve_log boundary nmodesMax storeData (Modes.number m))
                 (disk w).
Proof.
  intros Hrun. pose proof Hrun as Hinv. apply solve_returns_inv in Hinv.
  destruct Hinv as (ip & wl_ & diags & Hm & nmin & nmax & vals & vecs & Hip & Hwl & Hnz
                    & Hd & HH & Hmin & Hmax & He & Hsel & _).
  exists Hm.
  rewrite (solve_returns_when nmodesMax boundary storeData curv mode w
             ip wl_ diags Hm nmin nmax vals vecs m) in Hrun by assumption.
  congruence.
Qed.

End SolveRuns.

Section SolveFurther.

Variable eigs : dia_matrix -> nat -> Outcome (list complex * ndarray2 complex).

(** X1: solve asserts that the index profile is set and that the wavelength
    is set and not zero; when either assertion fails the call raises
    [AssertionError] whatever its arguments, and the solver, the log and the
    disk are as before. *)
Theorem solve_asserts_profile_and_wavelength
        nmodesMax boundary storeData curv mode w :
  is_some (indexProfile (self w)) && truthy (wl (self w)) = false ->
  solve eigs nmodesMax boundary storeData curv mode w = (Raise AssertionError, w).
Proof.
  intros Hpre. unfold solve, Py.bind, Py.get, Py.assert.
  destruct (indexProfile (self w)) as [ip|]; cbn [is_some andb] in *; [|reflexivity].
  rewrite Hpre. reflexivity.
Qed.

(** X2: a run of solve that returns always leaves the operator it has built
    in [self.H], the one handed to [eigs]; it stores the Mode Set on the
    solver only when storeData is set, and otherwise leaves [self.modes] as it
    was; it never changes the index profile, the wavelength or the Poisson
    ratio, and writes no file. *)
Theorem solve_stores nmodesMax boundary storeData curv mode w m w' :
  solve eigs nmodesMax boundary storeData curv mode w = (Return m, w') ->
  (exists Hm res, eigs Hm nmodesMax = Return res /\ H (self w') = Some Hm)
  /\ modes (self w') = (if storeData then Some m else modes (self w))
  /\ indexProfile (self w') = indexProfile (self w)
  /\ wl (self w') = wl (self w)
  /\ poisson (self w') = poisson (self w)
  /\ disk w' = disk w.
Proof.
  intros Hrun. pose proof Hrun as Hinv. apply solve_returns_inv in Hinv.
  destruct Hinv as (ip & wl_ & diags & Hm & nmin & nmax & vals & vecs & Hip & Hwl & Hnz
                    & Hd & HH & Hmin & Hmax & He & Hsel & _).
  rewrite (solve_returns_when eigs nmodesMax boundary storeData curv mode w
             ip wl_ diags Hm nmin nmax vals vecs m) in Hrun by assumption.
  injection Hrun as <-. cbn [self disk]. unfold solved.
  split; [exists Hm, (vals, vecs); split; [exact He|destruct storeData; reflexivity]|].
  destruct storeData; repeat split.
Qed.

(** X3: a run of solve that returns appends its records to the log; the
    warning that the maximum number of modes was reached is among them
    exactly when the Mode Set holds nmodesMax modes, and no error is logged. *)
Theorem solve_warns_at_capacity nmodesMax boundary storeData curv mode w m w' :
  solve eigs nmodesMax boundary storeData curv mode w = (Return m, w') ->
  exists new,
    logged w' = logged w ++ new
    /\ (In (WARNING, "The solver reached the maximum number of modes set.") new
        <-> nmodesMax = Modes.number m)
    /\ (In (WARNING, "Some propagating modes may be missing.") new
        <-> nmodesMax = Modes.number m)
    /\ (forall msg, ~ In (ERROR, msg) new).
Proof.
  intros Hrun. apply solve_returns_world in Hrun as [Hm ->].
  exists (solve_log boundary nmodesMax storeData (Modes.number m)).
  split; [reflexivity|].
  unfold solve_log, boundary_log, capacity_warnings.
  destruct (String.eqb boundary "periodic"), (String.eqb boundary "close"), storeData,
    (Nat.eqb_spec nmodesMax (Modes.number m)); cbn [app In];
    (split; [|split]);
    try (split; [intros Hin; try assumption | auto 10]);
    try (intros msg Hin);
    repeat match goal with
           | H : _ \/ _ |- _ => destruct H
           | H : False |- _ => destruct H
           | H : (_, _) = (_, _) |- _ => discriminate H
           end.
Qed.

(** X4: with an eigensolver that returns at most the nmodesMax eigenvalues it
    is asked for, the Mode Set that solve returns holds at most nmodesMax
    modes: betas, profiles and number. *)
Theorem solve_number_at_most_nmodesMax nmodesMax boundary storeData curv mode w m w' :
  (forall Hm vals vecs,
      eigs Hm nmodesMax = Return (vals, vecs) -> (length vals <= nmodesMax)%nat) ->
  solve eigs nmodesMax boundary storeData curv mode w = (Return m, w') ->
  (Modes.number m <= nmodesMax)%nat
  /\ (length (Modes.betas m) <= nmodesMax)%nat
  /\ (length (Modes.profiles m) <= nmodesMax)%nat.
Proof.
  intros Hk Hrun. apply solve_returns_selected in Hrun.
  destruct Hrun as (ip & wl_ & Hm & nmin & nmax & vals & vecs & _ & _ & _ & _ & _ & _ & He & ->).
  apply Hk in He.
  unfold selected, fresh_modes. cbn [Modes.betas Modes.profiles Modes.number Modes.init app].
  rewrite !length_map.
  assert (Hf : forall f, (length (filter f (PyList.enumerate vals)) <= length vals)%nat).
  { intros f. etransitivity; [apply filter_length_le|].
    unfold PyList.enumerate. rewrite length_combine, length_seq. lia. }
  pose proof (Hf (fun iv => in_band (2 * PI / wl_ * nmin) (2 * PI / wl_ * nmax) (snd iv))).
  cbn [Nat.add]. lia.
Qed.

End SolveFurther.

(** X1 on a solver fresh from [__init__]. *)
Lemma solve_asserts_profile_and_wavelength_witness :
  is_some (indexProfile propagationModeSolver.init)
  && truthy (wl propagationModeSolver.init) = false
  /\ solve eigs0 3 "close" true None "default"
           (mkWorld propagationModeSolver.init [] [])
     = (Raise AssertionError, mkWorld propagationModeSolver.init [] []).
Proof.
  split; [reflexivity|].
  exact (solve_asserts_profile_and_wavelength eigs0 3 "close" true None "default"
           (mkWorld propagationModeSolver.init [] []) eq_refl).
Defined.

(** X2 on the run on the 2 x 2 grid. *)
Lemma solve_stores_witness :
  exists w',
    solve eigs0 3 "close" true None "default" world0 = (Return modes0, w')
    /\ (exists Hm res, eigs0 Hm 3 = Return res /\ H (self w') = Some Hm)
    /\ modes (self w') = Some modes0
    /\ indexProfile (self w') = indexProfile (self world0)
    /\ wl (self w') = wl (self world0)
    /\ poisson (self w') = poisson (self world0)
    /\ disk w' = disk world0.
Proof.
  destruct solve_run0 as (w' & Hrun & _). exists w'. split; [exact Hrun|].
  exact (solve_stores eigs0 3 "close" true None "default" world0 modes0 w' Hrun).
Defined.

(** X3 on that run: two modes were found for nmodesMax = 3, no warning. *)
Lemma solve_warns_at_capacity_witness :
  exists w',
    solve eigs0 3 "close" true None "default" world0 = (Return modes0, w')
    /\ exists new,
        logged w' = logged world0 ++ new
        /\ (In (WARNING, "The solver reached the maximum number of modes set.") new
            <-> 3%nat = Modes.number modes0)
        /\ (In (WARNING, "Some propagating modes may be missing.") new
            <-> 3%nat = Modes.number modes0)
        /\ (forall msg, ~ In (ERROR, msg) new).
Proof.
  destruct solve_run0 as (w' & Hrun & _). exists w'. split; [exact Hrun|].
  exact (solve_warns_at_capacity eigs0 3 "close" true None "default" world0 modes0 w' Hrun).
Defined.

(** X4 on that run. *)
Lemma solve_number_at_most_nmodesMax_witness :
  (forall Hm vals vecs, eigs0 Hm 3 = Return (vals, vecs) -> (length vals <= 3)%nat)
  /\ exists w',
      solve eigs0 3 "close" true None "default" world0 = (Return modes0, w')
      /\ (Modes.number modes0 <= 3)%nat
      /\ (length (Modes.betas modes0) <= 3)%nat
      /\ (length (Modes.profiles modes0) <= 3)%nat.
Proof.
  assert (Hk : forall Hm vals vecs,
             eigs0 Hm 3 = Return (vals, vecs) -> (length vals <= 3)%nat).
  { intros Hm vals vecs [= <- _]. apply le_n. }
  split; [exact Hk|].
  destruct solve_run0 as (w' & Hrun & _). exists w'. split; [exact Hrun|].
  exact (solve_number_at_most_nmodesMax eigs0 3 "close" true None "default"
           world0 modes0 w' Hk Hrun).
Defined.

Lemma sqrt_pow2_abs x : sqrt (x ^ 2) = Rabs x.
Proof. rewrite <- Rsqr_pow2. apply sqrt_Rsqr_abs. Qed.

Section SolveBetas.

Variable eigs : dia_matrix -> nat -> Outcome (list complex * ndarray2 complex).

(** X5: when the eigenvalues [eigs] returns are real, every propagation
    constant that solve stores is real and lies strictly between
    |k0*min(n)| and |k0*max(n)|: the guided modes have their effective index
    between the smallest and the largest index of the profile. *)
Theorem solve_betas_in_guiding_band nmodesMax boundary storeData curv mode w m w' :
  (forall Hm vals vecs, eigs Hm nmodesMax = Return (vals, vecs) ->
     Forall (fun z => Cx.Im z = 0) vals) ->
  solve eigs nmodesMax boundary storeData curv mode w = (Return m, w') ->
  exists ip wl_ nmin nmax,
    indexProfile (self w) = Some ip
    /\ wl (self w) = Some wl_
    /\ amin (flatten (n ip)) = Return nmin
    /\ amax (flatten (n ip)) = Return nmax
    /\ Forall (fun beta =>
                 Cx.Im beta = 0
                 /\ Rabs (2 * PI / wl_ * nmin) < Cx.Re beta < Rabs (2 * PI / wl_ * nmax))
              (Modes.betas m).
Proof.
  intros Hreal Hrun. apply solve_returns_selected in Hrun.
  destruct Hrun as (ip & wl_ & Hm & nmin & nmax & vals & vecs
                    & Hip & Hwl & _ & _ & Hmin & Hmax & He & ->).
  exists ip, wl_, nmin, nmax. repeat (split; [assumption|]).
  apply Hreal in He. rewrite Forall_forall in He.
  unfold selected, fresh_modes. cbn [Modes.betas Modes.init app].
  apply Forall_forall. intros beta Hbeta. apply in_map_iff in Hbeta.
  destruct Hbeta as ([i z] & <- & Hin). cbn [snd].
  apply filter_In in Hin as [Hin Hband]. cbn [snd] in Hband.
  apply enumerate_In, nth_error_In, He in Hin.
  assert (Hz : z = Cx.of_R (Cx.Re z)).
  { apply complex_eq; [reflexivity|]. cbn [Cx.of_R Cx.Im]. exact Hin. }
  rewrite Hz in Hband. apply in_band_real in Hband. destruct Hband as [Hlo Hhi].
  pose proof (pow2_ge_0 (2 * PI / wl_ * nmin)) as Hge.
  rewrite Hz, csqrt_of_R by lra. cbn [Cx.of_R Cx.Re Cx.Im].
  split; [reflexivity|]. rewrite <- !sqrt_pow2_abs.
  split; apply sqrt_lt_1_alt; lra.
Qed.

End SolveBetas.

(** X5 on the run on the 2 x 2 grid. *)
Lemma solve_betas_in_guiding_band_witness :
  (forall Hm vals vecs, eigs0 Hm 3 = Return (vals, vecs) ->
     Forall (fun z => Cx.Im z = 0) vals)
  /\ exists w',
      solve eigs0 3 "close" true None "default" world0 = (Return modes0, w')
      /\ exists ip wl_ nmin nmax,
          indexProfile (self world0) = Some ip
          /\ wl (self world0) = Some wl_
          /\ amin (flatten (n ip)) = Return nmin
          /\ amax (flatten (n ip)) = Return nmax
          /\ Forall (fun beta =>
                       Cx.Im beta = 0
                       /\ Rabs (2 * PI / wl_ * nmin) < Cx.Re beta
                          < Rabs (2 * PI / wl_ * nmax))
                    (Modes.betas modes0).
Proof.
  assert (Hreal : forall Hm vals vecs, eigs0 Hm 3 = Return (vals, vecs) ->
                    Forall (fun z => Cx.Im z = 0) vals).
  { intros Hm vals vecs [= <- _]. repeat constructor. }
  split; [exact Hreal|].
  destruct solve_run0 as (w' & Hrun & _). exists w'. split; [exact Hrun|].
  exact (solve_betas_in_guiding_band eigs0 3 "close" true None "default"
           world0 modes0 w' Hreal Hrun).
Defined.

(* ===================================================================== *)
(** * Further properties of saveData and of the estimates *)
(* ===================================================================== *)

(** X6: saveData writes nothing and logs nothing when the solver holds no
    Mode Set ([AssertionError]) or a Mode Set of fewer than two modes
    ([IndexError], from [profiles[1]]): a fibre with a single guided mode
    cannot be saved. *)
Theorem saveData_needs_two_modes outfile w :
  match modes (self w) with
  | None => True
  | Some m => (length (Modes.profiles m) < 2)%nat
  end ->
  saveData outfile w
  = (Raise match modes (self w) with
           | None => AssertionError
           | Some _ => IndexError
           end, w).
Proof.
  unfold saveData, Py.bind, Py.get, Py.assert.
  destruct (modes (self w)) as [m|]; cbn [is_some Py.ret Py.raise]; [|reflexivity].
  intros Hlen. destruct (Modes.profiles m) as [|p [|q l]]; cbn in Hlen |- *;
    [reflexivity|reflexivity|lia].
Qed.

Lemma Zceil_0_iff x : 0 <= x -> (Zceil x = 0%Z <-> x = 0).
Proof.
  intros Hx. split.
  - intros Hc. pose proof (Zceil_bound x) as [_ Hu]. rewrite Hc in Hu. lra.
  - intros ->. apply Zceil_eq. lra.
Qed.

Lemma V_number_0_iff wl a NA : wl <> 0 -> (2 * PI / wl * a * NA) ^ 2 = 0 <-> a = 0 \/ NA = 0.
Proof.
  intros Hwl. pose proof PI_RGT_0 as Hpi.
  assert (Hk : 2 * PI / wl <> 0).
  { unfold Rdiv. apply Rmult_integral_contrapositive. split; [lra|].
    apply Rinv_neq_0_compat, Hwl. }
  split.
  - intros H0.
    assert (H1 : 2 * PI / wl * a * NA = 0).
    { destruct (Req_dec (2 * PI / wl * a * NA) 0) as [E|E]; [exact E|].
      apply (pow_nonzero _ 2) in E. contradiction. }
    clear H0. rename H1 into H0.
    apply Rmult_integral in H0 as [H0|H0]; [|right; exact H0].
    apply Rmult_integral in H0 as [H0|H0]; [contradiction|left; exact H0].
  - intros [-> | ->]; ring.
Qed.

(** X7: for a wavelength that is not zero, both estimates are non-negative,
    the graded-index estimate is at most the step-index one, an estimate is
    0 exactly when the radius or the numerical aperture is 0, and both grow
    with the radius and with the numerical aperture (in absolute value). *)
Theorem estimateNumModes_bounds (wl a NA : R) :
  wl <> 0 ->
  (0 <= estimateNumModesGRIN wl a NA <= estimateNumModesSI wl a NA)%Z
  /\ (estimateNumModesGRIN wl a NA = 0%Z <-> a = 0 \/ NA = 0)
  /\ (estimateNumModesSI wl a NA = 0%Z <-> a = 0 \/ NA = 0)
  /\ (forall a' NA', Rabs a <= Rabs a' -> Rabs NA <= Rabs NA' ->
        (estimateNumModesGRIN wl a NA <= estimateNumModesGRIN wl a' NA')%Z
        /\ (estimateNumModesSI wl a NA <= estimateNumModesSI wl a' NA')%Z).
Proof.
  intros Hwl. unfold estimateNumModesGRIN, estimateNumModesSI. cbv zeta.
  set (V := 2 * PI / wl * a * NA).
  pose proof (pow2_ge_0 V) as HV.
  assert (Hc0 : Zceil 0 = 0%Z) by (apply Zceil_eq; lra).
  split; [|split; [|split]].
  - split.
    + rewrite <- Hc0. apply Zceil_le. lra.
    + apply Zceil_le. lra.
  - rewrite Zceil_0_iff by lra. rewrite <- (V_number_0_iff wl a NA Hwl). fold V.
    split; intros; lra.
  - rewrite Zceil_0_iff by lra. rewrite <- (V_number_0_iff wl a NA Hwl). fold V.
    split; intros; lra.
  - intros a' NA' Ha HN.
    assert (Hmono : V ^ 2 <= (2 * PI / wl * a' * NA') ^ 2).
    { rewrite <- !Rsqr_pow2. apply Rsqr_le_abs_1. unfold V.
      rewrite !Rabs_mult.
      pose proof (Rabs_pos (2 * PI / wl)). pose proof (Rabs_pos a).
      pose proof (Rabs_pos NA). pose proof (Rabs_pos a'). pose proof (Rabs_pos NA').
      apply Rmult_le_compat; try assumption.
      - apply Rmult_le_pos; assumption.
      - apply Rmult_le_compat_l; assumption. }
    split; apply Zceil_le; lra.
Qed.

(** X7 at wl = 2*pi, a = 1, NA = 1. *)
Lemma estimateNumModes_bounds_witness :
  2 * PI <> 0
  /\ (0 <= estimateNumModesGRIN (2 * PI) 1 1 <= estimateNumModesSI (2 * PI) 1 1)%Z
  /\ (estimateNumModesGRIN (2 * PI) 1 1 = 0%Z <-> 1 = 0 \/ 1 = 0)
  /\ (estimateNumModesSI (2 * PI) 1 1 = 0%Z <-> 1 = 0 \/ 1 = 0)
  /\ (forall a' NA', Rabs 1 <= Rabs a' -> Rabs 1 <= Rabs NA' ->
        (estimateNumModesGRIN (2 * PI) 1 1 <= estimateNumModesGRIN (2 * PI) a' NA')%Z
        /\ (estimateNumModesSI (2 * PI) 1 1 <= estimateNumModesSI (2 * PI) a' NA')%Z).
Proof.
  split; [exact two_pi_neq_0|].
  exact (estimateNumModes_bounds (2 * PI) 1 1 two_pi_neq_0).
Defined.

(* ===================================================================== *)
(** * Further properties of the Mode Set *)
(* ===================================================================== *)

Section ModesFurther.

Variable scipy_rotate : ndarray2 R -> R -> ndarray2 R.
Variable scipy_shift : ndarray2 R -> list R -> ndarray2 R.

(** X8: getModeMatrix asserts that the Mode Set has a profile and that a
    shift, when given, has two components; otherwise it raises
    [AssertionError], whatever npola and the angle, and neither computes nor
    caches a matrix. *)
Theorem getModeMatrix_asserts npola shift angle (w : World Modes.t) :
  Modes.profiles (self w) = []
  \/ (exists sh, shift = Some sh /\ length sh <> 2%nat) ->
  Modes.getModeMatrix scipy_rotate scipy_shift npola shift angle w
  = (Raise AssertionError, w).
Proof.
  intros Hpre. unfold Modes.getModeMatrix, Py.bind, Py.get, Py.assert.
  destruct (Modes.profiles (self w)) as [|p ps] eqn:Hp; cbn [length Nat.eqb negb];
    [reflexivity|].
  destruct Hpre as [Hnil|(sh & -> & Hlen)]; [discriminate|].
  cbn [Py.ret]. apply Nat.eqb_neq in Hlen. rewrite Hlen. reflexivity.
Qed.

(** X9: asked for the effect of a curvature, getEvolutionOperator returns
    [None] and logs an error for every Mode Set whose attribute [curvature]
    is missing or holds a number (wavelength and index profile being set):
    only an object whose attribute [curvature] exists and is [None] gets
    past the check.  Nothing else changes: no mode matrix is cached. *)
Theorem getEvolutionOperator_rejects_unless_straight npola radius (w : World Modes.t) :
  Modes.curvature (self w) <> Some None ->
  truthy (Modes.wl (self w)) = true ->
  is_some (Modes.indexProfile (self w)) = true ->
  Modes.getEvolutionOperator scipy_rotate scipy_shift npola (Some radius) w
  = (Return None, mkWorld (self w) (logged w ++ [curvature_error]) (disk w)).
Proof.
  intros Hc Hwl Hip.
  unfold Modes.getEvolutionOperator, Py.bind, Py.get, Py.try_except, Py.assert.
  rewrite Hwl, Hip. cbn [Py.ret].
  destruct (Modes.curvature (self w)) as [[c|]|]; [reflexivity|contradiction|reflexivity].
Qed.

End ModesFurther.

(** X6 on a solver that holds a Mode Set of one mode. *)
Lemma saveData_needs_two_modes_witness :
  (length (Modes.profiles modes_single) < 2)%nat
  /\ saveData "modes.npz" world_single = (Raise IndexError, world_single).
Proof.
  split; [cbn; lia|].
  exact (saveData_needs_two_modes "modes.npz" world_single (le_n 2)).
Defined.

(** X8 on a Mode Set fresh from [__init__]. *)
Lemma getModeMatrix_asserts_witness :
  (Modes.profiles (self (mkWorld Modes.init [] [])) = []
   \/ exists sh, @None (list R) = Some sh /\ length sh <> 2%nat)
  /\ Modes.getModeMatrix scipy_rotate0 scipy_shift0 1 None None (mkWorld Modes.init [] [])
     = (Raise AssertionError, mkWorld Modes.init [] []).
Proof.
  split; [left; reflexivity|].
  exact (getModeMatrix_asserts scipy_rotate0 scipy_shift0 1 None None
           (mkWorld Modes.init [] []) (or_introl eq_refl)).
Defined.

(** X9 on a Mode Set marked as solved with the curvature 1000. *)
Lemma getEvolutionOperator_rejects_unless_straight_witness :
  Modes.curvature (self (mkWorld modes_bent [] [])) <> Some None
  /\ truthy (Modes.wl (self (mkWorld modes_bent [] []))) = true
  /\ is_some (Modes.indexProfile (self (mkWorld modes_bent [] []))) = true
  /\ Modes.getEvolutionOperator scipy_rotate0 scipy_shift0 1 (Some 500)
       (mkWorld modes_bent [] [])
     = (Return None, mkWorld modes_bent [curvature_error] []).
Proof.
  assert (Hc : Modes.curvature (self (mkWorld modes_bent [] [])) <> Some None)
    by discriminate.
  assert (Hwl : truthy (Modes.wl (self (mkWorld modes_bent [] []))) = true).
  { cbn. rewrite (proj2 (Reqb_false _ _) two_pi_neq_0). reflexivity. }
  split; [exact Hc|]. split; [exact Hwl|]. split; [reflexivity|].
  exact (getEvolutionOperator_rejects_unless_straight scipy_rotate0 scipy_shift0
           1 500 (mkWorld modes_bent [] []) Hc Hwl eq_refl).
Defined.

(* ===================================================================== *)
(** * The mode matrix *)
(* ===================================================================== *)

Lemma nth_repeat_any {A} (x d : A) n i : (i < n)%nat -> nth i (repeat x n) d = x.
Proof. intros Hi. apply nth_repeat_lt, Hi. Qed.

Lemma zeros_well_shaped {A} (z : A) r c : well_shaped (zeros z r c).
Proof.
  unfold well_shaped, zeros, nrows, ncols; cbn [data shape fst snd]. split.
  - apply repeat_length.
  - apply Forall_forall. intros row Hrow. apply repeat_spec in Hrow. subst.
    apply repeat_length.
Qed.

Lemma at2_zeros {A} (z : A) r c i k : at2 z (zeros z r c) i k = z.
Proof.
  unfold at2, zeros; cbn [data].
  destruct (lt_dec i r) as [Hi|Hi].
  - rewrite nth_repeat_any by exact Hi. apply nth_repeat.
  - rewrite (nth_overflow (repeat (repeat z c) r) []) by (rewrite repeat_length; lia).
    destruct k; reflexivity.
Qed.

Lemma nth_list_set {A} (x d : A) c l : forall k,
  nth k (list_set c x l) d = if ((k =? c) && (c <? length l))%nat then x else nth k l d.
Proof.
  revert c. induction l as [|y l IH]; intros c k.
  - destruct c; cbn [list_set length]; rewrite andb_false_r; reflexivity.
  - destruct c as [|c], k as [|k]; cbn [list_set nth length]; try reflexivity.
    rewrite IH. reflexivity.
Qed.

Lemma enumerate_length {A} (l : list A) : length (PyList.enumerate l) = length l.
Proof. unfold PyList.enumerate. rewrite length_combine, length_seq. lia. Qed.

Lemma nth_enumerate {A} (l : list A) (d : A) r :
  (r < length l)%nat -> nth r (PyList.enumerate l) (0%nat, d) = (r, nth r l d).
Proof.
  intros Hr. unfold PyList.enumerate.
  rewrite combine_nth by apply length_seq. rewrite seq_nth by exact Hr. reflexivity.
Qed.

Lemma nth_map_enumerate {A B} (f : nat * A -> B) (l : list A) (d : A) (e : B) r :
  (r < length l)%nat -> nth r (map f (PyList.enumerate l)) e = f (r, nth r l d).
Proof.
  intros Hr.
  rewrite (nth_indep _ e (f (0%nat, d)))
    by (rewrite length_map, enumerate_length; exact Hr).
  rewrite (map_nth f). rewrite (nth_enumerate _ _ _ Hr). reflexivity.
Qed.

Lemma set_column_spec (M : ndarray2 complex) r0 r1 c v :
  well_shaped M -> (c < ncols M)%nat -> (r0 <= r1 <= nrows M)%nat ->
  length v = (r1 - r0)%nat ->
  exists M1,
    set_column Cx.zero M r0 r1 c v = Return M1
    /\ well_shaped M1 /\ shape M1 = shape M
    /\ forall r k,
        at2 Cx.zero M1 r k
        = if ((k =? c) && (r0 <=? r) && (r <? r1))%nat then nth (r - r0) v Cx.zero
          else at2 Cx.zero M r k.
Proof.
  intros [Hrows Hcols] Hc Hr Hv. unfold set_column.
  apply Nat.ltb_lt in Hc. rewrite Hc. cbn [negb].
  rewrite (Nat.min_l r0) by lia. rewrite (Nat.min_l r1) by lia.
  rewrite (Nat.max_r r0 r1) by lia. rewrite Hv, Nat.eqb_refl. cbn [orb].
  eexists. split; [reflexivity|]. split; [|split; [reflexivity|]].
  - unfold well_shaped, nrows, ncols; cbn [data shape]. split.
    + rewrite length_map, enumerate_length. exact Hrows.
    + apply Forall_forall. intros row Hin. apply in_map_iff in Hin.
      destruct Hin as ([i old] & <- & Hin).
      assert (Hold : length old = snd (shape M)).
      { rewrite Forall_forall in Hcols. apply Hcols.
        unfold PyList.enumerate in Hin. eapply in_combine_r, Hin. }
      destruct ((r0 <=? i) && (i <? r1))%nat; [rewrite list_set_length|]; exact Hold.
  - intros r k. unfold at2; cbn [data].
    destruct (lt_dec r (length (data M))) as [Hlt|Hge].
    + rewrite (nth_map_enumerate _ _ [] _ _ Hlt).
      destruct ((r0 <=? r) && (r <? r1))%nat eqn:Hin.
      * rewrite nth_list_set.
        assert (Hlen : length (nth r (data M) []) = ncols M).
        { rewrite Forall_forall in Hcols. apply Hcols, nth_In, Hlt. }
        rewrite Hlen, Hc, andb_true_r.
        destruct (k =? c)%nat; cbn [andb]; [|reflexivity].
        apply andb_true_iff in Hin as [H1 H2]. rewrite H1, H2. reflexivity.
      * destruct (k =? c)%nat; cbn [andb]; [|reflexivity].
        apply andb_false_iff in Hin as [H1|H2]; [rewrite H1|rewrite H2, andb_false_r];
          reflexivity.
    + rewrite !(nth_overflow _ [])
        by (rewrite ?length_map, ?enumerate_length; lia).
      destruct ((k =? c) && (r0 <=? r) && (r <? r1))%nat eqn:E; [|reflexivity].
      apply andb_true_iff in E as [_ E]. apply Nat.ltb_lt in E. unfold nrows in *. lia.
Qed.

Lemma writesb_spec number N x r k :
  writesb number N x r k = true <-> writes number N x r k.
Proof.
  unfold writesb, writes. rewrite !andb_true_iff, Nat.eqb_eq, Nat.leb_le, Nat.ltb_lt. lia.
Qed.

Lemma last_written_cons number N r k x todo a :
  last_written number N r k (x :: todo) a
  = last_written number N r k todo
      (if writesb number N x r k then nth (r - fst x * N) (snd (snd x)) Cx.zero else a).
Proof. reflexivity. Qed.

Lemma last_written_none number N r k todo : forall a,
  (forall x, In x todo -> ~ writes number N x r k) ->
  last_written number N r k todo a = a.
Proof.
  induction todo as [|x todo IH]; intros a Hno; [reflexivity|].
  rewrite last_written_cons. destruct (writesb number N x r k) eqn:E.
  - apply writesb_spec in E. exfalso. apply (Hno x); [left; reflexivity|exact E].
  - apply IH. intros y Hy. apply Hno. right. exact Hy.
Qed.

Lemma last_written_agree number N r k v todo : forall a,
  (exists x, In x todo /\ writes number N x r k) ->
  (forall y, In y todo -> writes number N y r k ->
             nth (r - fst y * N) (snd (snd y)) Cx.zero = v) ->
  last_written number N r k todo a = v.
Proof.
  induction todo as [|x todo IH]; intros a [x0 [Hin Hw]] Hall; [destruct Hin|].
  rewrite last_written_cons.
  destruct (existsb (fun y => writesb number N y r k) todo) eqn:Ex.
  - apply existsb_exists in Ex as (y & Hy & Hwy). apply writesb_spec in Hwy.
    apply IH; [exists y; split; assumption|].
    intros z Hz. apply Hall. right. exact Hz.
  - rewrite last_written_none.
    + destruct Hin as [->|Hin].
      * pose proof Hw as Hb. apply writesb_spec in Hb. rewrite Hb.
        apply Hall; [left; reflexivity|exact Hw].
      * exfalso. apply writesb_spec in Hw.
        assert (existsb (fun y => writesb number N y r k) todo = true)
          by (apply existsb_exists; exists x0; split; assumption).
        congruence.
    + intros y Hy Hwy. apply writesb_spec in Hwy.
      assert (existsb (fun y => writesb number N y r k) todo = true)
        by (apply existsb_exists; exists y; split; assumption).
      congruence.
Qed.

Lemma block_index a b n r s :
  (r < n -> s < n -> a * n + r = b * n + s -> a = b /\ r = s)%nat.
Proof.
  intros Hr Hs E.
  destruct (lt_eq_lt_dec a b) as [[Hlt|Heq]|Hgt].
  - pose proof (Nat.mul_le_mono_r (a + 1) b n ltac:(lia)). lia.
  - subst. lia.
  - pose proof (Nat.mul_le_mono_r (b + 1) a n ltac:(lia)). lia.
Qed.

Lemma block_row a b n r :
  (r < n -> b * n <= a * n + r < (b + 1) * n -> a = b)%nat.
Proof.
  intros Hr Hrange.
  destruct (lt_eq_lt_dec a b) as [[Hlt|Heq]|Hgt].
  - pose proof (Nat.mul_le_mono_r (a + 1) b n ltac:(lia)). lia.
  - exact Heq.
  - pose proof (Nat.mul_le_mono_r (b + 1) a n ltac:(lia)). lia.
Qed.

Section ModeMatrix.

Variable scipy_rotate : ndarray2 R -> R -> ndarray2 R.
Variable scipy_shift : ndarray2 R -> list R -> ndarray2 R.

Lemma place_all_spec s npola N todo : forall M,
  well_shaped M ->
  Forall (fun x => (fst x * Modes.number s + fst (snd x) < ncols M
                    /\ (fst x + 1) * N <= nrows M
                    /\ length (snd (snd x)) = N)%nat) todo ->
  exists M',
    Modes.place_all scipy_rotate scipy_shift s npola None None N M todo = Return M'
    /\ well_shaped M' /\ shape M' = shape M
    /\ forall r k,
        at2 Cx.zero M' r k
        = last_written (Modes.number s) N r k todo (at2 Cx.zero M r k).
Proof.
  induction todo as [|[pol [ind p]] todo IH]; intros M HM Hall.
  - exists M. repeat split; auto; apply HM.
  - inversion Hall as [|x l Hx Hrest]; subst. cbn [fst snd] in Hx.
    destruct Hx as (Hc & Hr & Hp).
    cbn [Modes.place_all Modes.place_profile].
    destruct (set_column_spec M (pol * N) ((pol + 1) * N) (pol * Modes.number s + ind) p)
      as (M1 & Hset & HM1 & Hsh & Hat); try assumption; try lia.
    rewrite Hset. cbn [Py.obind].
    destruct (IH M1 HM1) as (M' & Hrun & HM' & Hsh' & Hat').
    { unfold ncols, nrows. rewrite Hsh. exact Hrest. }
    exists M'. split; [exact Hrun|]. split; [exact HM'|]. split; [congruence|].
    intros r k. rewrite Hat', Hat, last_written_cons.
    unfold writesb. cbn [fst snd]. reflexivity.
Qed.

Lemma getModeMatrix_returns npola (w : World Modes.t) N :
  Modes.profiles (self w) <> [] ->
  Modes.number (self w) = length (Modes.profiles (self w)) ->
  Forall (fun p => length p = N) (Modes.profiles (self w)) ->
  exists M,
    Modes.getModeMatrix scipy_rotate scipy_shift npola None None w
    = (Return M, mkWorld (Modes.set_modeMatrix M (self w)) (logged w) (disk w))
    /\ shape M = (N * npola, npola * Modes.number (self w))%nat
    /\ well_shaped M
    /\ (forall pol ind r,
          (pol < npola)%nat -> (ind < Modes.number (self w))%nat -> (r < N)%nat ->
          at2 Cx.zero M (pol * N + r) (pol * Modes.number (self w) + ind)
          = nth r (nth ind (Modes.profiles (self w)) []) Cx.zero)
    /\ (forall pol pol' ind r,
          (pol < npola)%nat -> (pol' < npola)%nat -> pol <> pol' ->
          (ind < Modes.number (self w))%nat -> (r < N)%nat ->
          at2 Cx.zero M (pol * N + r) (pol' * Modes.number (self w) + ind) = Cx.zero).
Proof.
  intros Hne Hnum Hlen.
  set (s := self w) in *. set (num := Modes.number s) in *.
  assert (HN : length (hd [] (Modes.profiles s)) = N).
  { destruct (Modes.profiles s) as [|p ps]; [contradiction|].
    inversion Hlen; subst; reflexivity. }
  set (todo := list_prod (seq 0 npola) (PyList.enumerate (Modes.profiles s))).
  assert (Htodo : forall pol ind p, In (pol, (ind, p)) todo <->
            (pol < npola)%nat /\ nth_error (Modes.profiles s) ind = Some p).
  { intros pol ind p. unfold todo. rewrite in_prod_iff, in_seq, enumerate_In. intuition lia. }
  assert (Hin : forall pol ind p, In (pol, (ind, p)) todo ->
            (pol < npola)%nat /\ (ind < num)%nat /\ length p = N
            /\ p = nth ind (Modes.profiles s) []).
  { intros pol ind p Hx. apply Htodo in Hx as [Hpol Hnth].
    split; [exact Hpol|]. split.
    - rewrite Hnum. apply nth_error_Some. congruence.
    - split.
      + rewrite Forall_forall in Hlen. apply Hlen. eapply nth_error_In, Hnth.
      + symmetry. apply nth_error_nth. exact Hnth. }
  destruct (place_all_spec s npola N todo (zeros Cx.zero (N * npola) (npola * num)))
    as (M & Hrun & HM & Hsh & Hat).
  { apply zeros_well_shaped. }
  { apply Forall_forall. intros [pol [ind p]] Hx. apply Hin in Hx.
    destruct Hx as (Hpol & Hind & Hp & _). unfold ncols, nrows, zeros.
    cbn [shape fst snd]. fold num. split; [nia|]. split; [nia|exact Hp]. }
  exists M. split; [|split; [exact Hsh|split; [exact HM|split]]].
  - unfold Modes.getModeMatrix, Py.bind, Py.get, Py.assert, Py.lift, Py.ret,
      set_self, Py.modify.
    fold s.
    assert (Hlen0 : negb (length (Modes.profiles s) =? 0)%nat = true).
    { destruct (Modes.profiles s); [contradiction|reflexivity]. }
    rewrite Hlen0, HN. cbn [option_map]. fold num. fold todo.
    rewrite Hrun. reflexivity.
  - intros pol ind r Hpol Hind Hr. rewrite Hat.
    apply last_written_agree.
    + exists (pol, (ind, nth ind (Modes.profiles s) [])). split.
      * apply Htodo. split; [exact Hpol|]. apply nth_error_nth'.
        rewrite <- Hnum. exact Hind.
      * unfold writes. cbn [fst snd]. fold num. nia.
    + intros [pol2 [ind2 p2]] Hy Hw. apply Hin in Hy.
      destruct Hy as (Hpol2 & Hind2 & Hp2 & ->).
      unfold writes in Hw. cbn [fst snd] in *. fold num in Hw.
      assert (pol = pol2) by (apply (block_row pol pol2 N r Hr), Hw).
      subst pol2. assert (ind2 = ind) by lia. subst ind2.
      f_equal. lia.
  - intros pol pol' ind r Hpol Hpol' Hneq Hind Hr. rewrite Hat.
    rewrite last_written_none; [apply at2_zeros|].
    intros [pol2 [ind2 p2]] Hy Hw. apply Hin in Hy.
    destruct Hy as (Hpol2 & Hind2 & _).
    unfold writes in Hw. cbn [fst snd] in *. fold num in Hw.
    assert (pol = pol2) by (apply (block_row pol pol2 N r Hr), Hw).
    subst pol2. destruct Hw as [Hw _]. symmetry in Hw.
    apply block_index in Hw; [|exact Hind|exact Hind2].
    destruct Hw as [Hw _]. symmetry in Hw. contradiction.
Qed.

(** X10: with no shift and no angle, on a Mode Set of at least one profile
    whose [number] is the number of its profiles, all of one length N,
    getModeMatrix returns an array of shape (N*npola, npola*number), keeps it
    in [self.modeMatrix], and logs and writes nothing.  The array is block
    diagonal: the entry in row r and column k is the value at point r mod N
    of the profile k mod number when r and k lie in the same polarization
    block, and zero otherwise. *)
Theorem getModeMatrix_block_diagonal npola (w : World Modes.t) N :
  Modes.profiles (self w) <> [] ->
  Modes.number (self w) = length (Modes.profiles (self w)) ->
  Forall (fun p => length p = N) (Modes.profiles (self w)) ->
  exists M,
    Modes.getModeMatrix scipy_rotate scipy_shift npola None None w
    = (Return M, mkWorld (Modes.set_modeMatrix M (self w)) (logged w) (disk w))
    /\ shape M = (N * npola, npola * Modes.number (self w))%nat
    /\ forall r k,
         (r < N * npola)%nat -> (k < npola * Modes.number (self w))%nat ->
         at2 Cx.zero M r k
         = if (r / N =? k / Modes.number (self w))%nat
           then nth (r mod N)
                    (nth (k mod Modes.number (self w)) (Modes.profiles (self w)) [])
                    Cx.zero
           else Cx.zero.
Proof.
  intros Hne Hnum Hlen.
  destruct (getModeMatrix_returns npola w N Hne Hnum Hlen)
    as (M & Hrun & Hsh & _ & Hblock & Hoff).
  exists M. split; [exact Hrun|]. split; [exact Hsh|].
  intros r k Hr Hk. set (num := Modes.number (self w)) in *.
  assert (HN : N <> 0%nat) by (intros ->; lia).
  assert (Hn : num <> 0%nat) by (intros E; rewrite E in Hk; lia).
  pose proof (Nat.div_mod_eq r N) as Er. pose proof (Nat.div_mod_eq k num) as Ek.
  pose proof (Nat.mod_upper_bound r N HN) as Hrm.
  pose proof (Nat.mod_upper_bound k num Hn) as Hkm.
  assert (Hrd : (r / N < npola)%nat) by (apply Nat.Div0.div_lt_upper_bound; lia).
  assert (Hkd : (k / num < npola)%nat) by (apply Nat.Div0.div_lt_upper_bound; lia).
  transitivity (at2 Cx.zero M (r / N * N + r mod N) (k / num * num + k mod num));
    [f_equal; lia|].
  destruct (Nat.eqb_spec (r / N) (k / num)) as [E|E].
  - rewrite <- E. apply Hblock; assumption.
  - apply Hoff; assumption.
Qed.

End ModeMatrix.

Section SolveThenModeMatrix.

Variable eigs : dia_matrix -> nat -> Outcome (list complex * ndarray2 complex).
Variable scipy_rotate : ndarray2 R -> R -> ndarray2 R.
Variable scipy_shift : ndarray2 R -> list R -> ndarray2 R.

(** X11: the Mode Set that solve returns can be handed to getModeMatrix as
    it is.  When solve found no mode, getModeMatrix fails its first
    assertion.  When it found at least one, getModeMatrix returns and keeps a
    matrix with npola times as many rows as the eigenvector array of [eigs]
    has, and npola*number columns, in which the column [pol*number + ind]
    holds the profile [ind] in the rows of the block [pol]. *)
Theorem solve_then_getModeMatrix
        nmodesMax boundary storeData curv mode w m w' npola l d :
  solve eigs nmodesMax boundary storeData curv mode w = (Return m, w') ->
  (Modes.number m = 0%nat ->
   Modes.getModeMatrix scipy_rotate scipy_shift npola None None (mkWorld m l d)
   = (Raise AssertionError, mkWorld m l d))
  /\ (Modes.number m <> 0%nat ->
      exists Hm vals vecs M,
        H (self w') = Some Hm
        /\ eigs Hm nmodesMax = Return (vals, vecs)
        /\ Modes.getModeMatrix scipy_rotate scipy_shift npola None None (mkWorld m l d)
           = (Return M, mkWorld (Modes.set_modeMatrix M m) l d)
        /\ shape M = (length (data vecs) * npola, npola * Modes.number m)%nat
        /\ forall pol ind r,
             (pol < npola)%nat -> (ind < Modes.number m)%nat ->
             (r < length (data vecs))%nat ->
             at2 Cx.zero M (pol * length (data vecs) + r) (pol * Modes.number m + ind)
             = nth r (nth ind (Modes.profiles m) []) Cx.zero).
Proof.
  intros Hrun. apply solve_returns_selected in Hrun.
  destruct Hrun as (ip & wl_ & Hm & nmin & nmax & vals & vecs & _ & _ & _ & HH & _ & _
                    & He & ->).
  set (kept := filter (fun iv => in_band (2 * PI / wl_ * nmin) (2 * PI / wl_ * nmax) (snd iv))
                      (PyList.enumerate vals)).
  unfold selected. fold kept.
  cbn [Modes.number Modes.profiles fresh_modes Modes.init app Nat.add].
  split.
  - intros Hz. apply length_zero_iff_nil in Hz. rewrite Hz. reflexivity.
  - intros Hnz. exists Hm, vals, vecs.
    match goal with |- context [mkWorld ?m0 l d] => set (m := m0) end.
    destruct (getModeMatrix_returns scipy_rotate scipy_shift npola (mkWorld m l d)
                (length (data vecs)))
      as (M & HrunM & Hsh & _ & Hblock & _).
    + cbn [self]. unfold m. cbn [Modes.profiles]. intros E.
      apply (f_equal (@length _)) in E. rewrite length_map in E. cbn in E. contradiction.
    + cbn [self]. unfold m. cbn [Modes.profiles Modes.number].
      rewrite length_map. reflexivity.
    + cbn [self]. unfold m. cbn [Modes.profiles]. apply Forall_forall.
      intros p Hp. apply in_map_iff in Hp as (iv & <- & _).
      unfold normalize, column_of. rewrite !length_map. reflexivity.
    + exists M. split; [exact HH|]. split; [exact He|]. split; [exact HrunM|].
      split; [exact Hsh|]. exact Hblock.
Qed.

End SolveThenModeMatrix.

(** X10 on the Mode Set of the run on the 2 x 2 grid, for two polarizations. *)
Lemma getModeMatrix_block_diagonal_witness :
  Modes.profiles (self (mkWorld modes0 [] [])) <> []
  /\ Modes.number (self (mkWorld modes0 [] []))
     = length (Modes.profiles (self (mkWorld modes0 [] [])))
  /\ Forall (fun p => length p = 4%nat) (Modes.profiles (self (mkWorld modes0 [] [])))
  /\ exists M,
       Modes.getModeMatrix scipy_rotate0 scipy_shift0 2 None None (mkWorld modes0 [] [])
       = (Return M, mkWorld (Modes.set_modeMatrix M modes0) [] [])
       /\ shape M = (8, 4)%nat
       /\ forall r k,
            (r < 8)%nat -> (k < 4)%nat ->
            at2 Cx.zero M r k
            = if (r / 4 =? k / 2)%nat
              then nth (r mod 4) (nth (k mod 2) (Modes.profiles modes0) []) Cx.zero
              else Cx.zero.
Proof.
  assert (H1 : Modes.profiles (self (mkWorld modes0 [] [])) <> []) by discriminate.
  assert (H2 : Modes.number (self (mkWorld modes0 [] []))
               = length (Modes.profiles (self (mkWorld modes0 [] [])))) by reflexivity.
  assert (H3 : Forall (fun p => length p = 4%nat)
                      (Modes.profiles (self (mkWorld modes0 [] []))))
    by (repeat constructor).
  split; [exact H1|]. split; [exact H2|]. split; [exact H3|].
  exact (getModeMatrix_block_diagonal scipy_rotate0 scipy_shift0 2
           (mkWorld modes0 [] []) 4 H1 H2 H3).
Defined.

(** X11 on the run on the 2 x 2 grid. *)
Lemma solve_then_getModeMatrix_witness :
  exists w',
    solve eigs0 3 "close" true None "default" world0 = (Return modes0, w')
    /\ (Modes.number modes0 <> 0%nat ->
        exists Hm vals vecs M,
          H (self w') = Some Hm
          /\ eigs0 Hm 3 = Return (vals, vecs)
          /\ Modes.getModeMatrix scipy_rotate0 scipy_shift0 1 None None
                                 (mkWorld modes0 [] [])
             = (Return M, mkWorld (Modes.set_modeMatrix M modes0) [] [])
          /\ shape M = (length (data vecs) * 1, 1 * Modes.number modes0)%nat
          /\ forall pol ind r,
               (pol < 1)%nat -> (ind < Modes.number modes0)%nat ->
               (r < length (data vecs))%nat ->
               at2 Cx.zero M (pol * length (data vecs) + r)
                   (pol * Modes.number modes0 + ind)
               = nth r (nth ind (Modes.profiles modes0) []) Cx.zero).
Proof.
  destruct solve_run0 as (w' & Hrun & _). exists w'. split; [exact Hrun|].
  exact (proj2 (solve_then_getModeMatrix eigs0 scipy_rotate0 scipy_shift0
                  3 "close" true None "default" world0 modes0 w' 1 [] [] Hrun)).
Defined.

Section ModeMatrixTransformed.

Variable scipy_rotate : ndarray2 R -> R -> ndarray2 R.
Variable scipy_shift : ndarray2 R -> list R -> ndarray2 R.

(** X12: with a shift or an angle, getModeMatrix takes every profile for a
    square image of side [indexProfile.npoints].  For at least one
    polarization, on a Mode Set with a profile, it raises [AttributeError]
    when the Mode Set has no index profile, and [ValueError] when the first
    profile does not have npoints^2 entries; no matrix is kept and nothing is
    logged. *)
Theorem getModeMatrix_transformed_needs_square_profiles
        npola shift angle (w : World Modes.t) p ps :
  (1 <= npola)%nat ->
  Modes.profiles (self w) = p :: ps ->
  is_some shift || is_some angle = true ->
  (forall sh, shift = Some sh -> length sh = 2%nat) ->
  (Modes.indexProfile (self w) = None ->
   Modes.getModeMatrix scipy_rotate scipy_shift npola shift angle w
   = (Raise (AttributeError "npoints"), w))
  /\ (forall ip,
        Modes.indexProfile (self w) = Some ip ->
        length p <> (npoints ip * npoints ip)%nat ->
        Modes.getModeMatrix scipy_rotate scipy_shift npola shift angle w
        = (Raise ValueError, w)).
Proof.
  intros Hnpola Hp Hgiven Hsh.
  assert (Hrun : forall e,
    Modes.place_profile scipy_rotate scipy_shift (self w) npola shift
      (option_map Modes.to_degrees angle) (length p)
      (zeros Cx.zero (length p * npola) (npola * Modes.number (self w))) 0 0 p = Raise e ->
    Modes.getModeMatrix scipy_rotate scipy_shift npola shift angle w = (Raise e, w)).
  { intros e He. unfold Modes.getModeMatrix, Py.bind, Py.get, Py.assert, Py.lift.
    rewrite Hp. cbn [length Nat.eqb negb Py.ret hd].
    assert (Hassert : match shift with
                      | Some sh => if (length sh =? 2)%nat then Py.ret tt
                                   else Py.raise AssertionError
                      | None => Py.ret tt
                      end w = (Return tt, w)).
    { destruct shift as [sh|]; [|reflexivity]. rewrite (Hsh sh eq_refl). reflexivity. }
    rewrite Hassert.
    destruct npola as [|k]; [lia|].
    unfold PyList.enumerate. cbn [length seq combine list_prod map app Modes.place_all].
    rewrite He. reflexivity. }
  split.
  - intros Hip. apply Hrun. unfold Modes.place_profile. rewrite Hip.
    destruct shift, angle; try discriminate; reflexivity.
  - intros ip Hip Hlen. apply Hrun. unfold Modes.place_profile. rewrite Hip.
    apply Nat.eqb_neq in Hlen.
    destruct shift, angle; try discriminate; cbn [option_map Py.obind];
      unfold reshape_square; rewrite Hlen; reflexivity.
Qed.

End ModeMatrixTransformed.

(** X12 on a Mode Set whose profile has three entries, on the 2 x 2 grid,
    turned by one radian. *)
Lemma getModeMatrix_transformed_needs_square_profiles_witness :
  (1 <= 1)%nat
  /\ Modes.profiles (self (mkWorld modes_short [] []))
     = [Cx.of_R 1; Cx.of_R 0; Cx.of_R 0] :: []
  /\ is_some (@None (list R)) || is_some (Some 1) = true
  /\ (forall sh, @None (list R) = Some sh -> length sh = 2%nat)
  /\ Modes.getModeMatrix scipy_rotate0 scipy_shift0 1 None (Some 1)
                         (mkWorld modes_short [] [])
     = (Raise ValueError, mkWorld modes_short [] []).
Proof.
  assert (Hsh : forall sh, @None (list R) = Some sh -> length sh = 2%nat) by discriminate.
  assert (Hlen : length [Cx.of_R 1; Cx.of_R 0; Cx.of_R 0] <> (npoints ip0 * npoints ip0)%nat)
    by (cbn; lia).
  split; [apply le_n|]. split; [reflexivity|]. split; [reflexivity|]. split; [exact Hsh|].
  exact (proj2 (getModeMatrix_transformed_needs_square_profiles scipy_rotate0 scipy_shift0
                  1 None (Some 1) (mkWorld modes_short [] []) _ _
                  (le_n 1) eq_refl eq_refl Hsh)
               ip0 eq_refl Hlen).
Defined.

(* ===================================================================== *)
(** * The operator of solve, entry by entry *)
(* ===================================================================== *)

Lemma laplacian_entry_sym ip k0 i k :
  laplacian_entry ip k0 i k = laplacian_entry ip k0 k i.
Proof.
  unfold laplacian_entry. rewrite (Nat.min_comm k i).
  destruct (Nat.eqb_spec i k) as [->|Hik].
  - rewrite Nat.eqb_refl. reflexivity.
  - destruct (Nat.eqb_spec k i) as [E|_]; [symmetry in E; contradiction|].
    rewrite (orb_comm (i =? k + 1)%nat), (orb_comm (i =? k + npoints ip)%nat).
    reflexivity.
Qed.

Lemma close_operator_entry ip k0 i k :
  length (flatten (n ip)) = (npoints ip * npoints ip)%nat ->
  (2 <= npoints ip)%nat ->
  (i < npoints ip * npoints ip)%nat -> (k < npoints ip * npoints ip)%nat ->
  dia_at (close_operator ip k0) i k = Cx.of_R (laplacian_entry ip k0 i k).
Proof.
  intros Hn Hnp Hi Hk. unfold dia_at, close_operator, laplacian_entry.
  cbn [diagonals find fst]. change Cx.zero with (Cx.of_R 0).
  set (np := npoints ip) in *.
  destruct (Z.eqb_spec 0 (Z.of_nat k - Z.of_nat i)) as [E0|E0].
  { assert (i = k) by lia. subst k. rewrite Nat.eqb_refl, Nat.min_id, map_nth.
    f_equal. apply main_diagonal_nth. rewrite Hn. exact Hi. }
  destruct (Nat.eqb_spec i k) as [E|_]; [lia|].
  destruct (Z.eqb_spec (-1) (Z.of_nat k - Z.of_nat i)) as [E1|E1].
  { assert (i = k + 1)%nat by lia. subst i.
    rewrite Nat.eqb_refl, orb_true_r, (Nat.min_r (k + 1) k) by lia.
    rewrite map_nth. f_equal. apply x_diagonal_nth; [exact Hnp|lia]. }
  destruct (Z.eqb_spec 1 (Z.of_nat k - Z.of_nat i)) as [E2|E2].
  { assert (k = i + 1)%nat by lia. subst k.
    rewrite Nat.eqb_refl, orb_true_l, (Nat.min_l i (i + 1)) by lia.
    rewrite map_nth. f_equal. apply x_diagonal_nth; [exact Hnp|lia]. }
  destruct (Nat.eqb_spec k (i + 1)) as [E|_]; [lia|].
  destruct (Nat.eqb_spec i (k + 1)) as [E|_]; [lia|]. cbn [orb].
  destruct (Z.eqb_spec (- Z.of_nat np) (Z.of_nat k - Z.of_nat i)) as [E3|E3].
  { assert (i = k + np)%nat by lia. subst i.
    rewrite Nat.eqb_refl, orb_true_r, (Nat.min_r (k + np) k) by lia.
    rewrite map_nth. f_equal. apply y_diagonal_nth. lia. }
  destruct (Z.eqb_spec (Z.of_nat np) (Z.of_nat k - Z.of_nat i)) as [E4|E4].
  { assert (k = i + np)%nat by lia. subst k.
    rewrite Nat.eqb_refl, orb_true_l, (Nat.min_l i (i + np)) by lia.
    rewrite map_nth. f_equal. apply y_diagonal_nth. lia. }
  destruct (Nat.eqb_spec k (i + np)) as [E|_]; [lia|].
  destruct (Nat.eqb_spec i (k + np)) as [E|_]; [lia|]. reflexivity.
Qed.

Section SolveOperator.

Variable eigs : dia_matrix -> nat -> Outcome (list complex * ndarray2 complex).

(** X13: for boundary 'close' and no curvature, on a square index field of
    side npoints >= 2, the operator that a returning run of solve has built,
    handed to [eigs] and left in [self.H] is the five-point Laplacian plus
    the potential: it is square of side npoints^2, its entry (i, k) is
    [laplacian_entry], and it is symmetric. *)
Theorem solve_close_operator_is_laplacian
        nmodesMax storeData mode w m w' ip wl_ :
  solve eigs nmodesMax "close" storeData None mode w = (Return m, w') ->
  indexProfile (self w) = Some ip ->
  wl (self w) = Some wl_ ->
  length (flatten (n ip)) = (npoints ip * npoints ip)%nat ->
  (2 <= npoints ip)%nat ->
  exists Hm res,
    H (self w') = Some Hm
    /\ eigs Hm nmodesMax = Return res
    /\ dia_shape Hm = (npoints ip * npoints ip, npoints ip * npoints ip)%nat
    /\ forall i k,
         (i < npoints ip * npoints ip)%nat -> (k < npoints ip * npoints ip)%nat ->
         dia_at Hm i k = Cx.of_R (laplacian_entry ip (2 * PI / wl_) i k)
         /\ dia_at Hm i k = dia_at Hm k i.
Proof.
  intros Hrun Hip Hwl Hn Hnp. apply solve_returns_inv in Hrun.
  destruct Hrun as (ip' & wl' & diags & Hm & nmin & nmax & vals & vecs & Hip' & Hwl' & Hnz
                    & Hd & HH & _ & _ & He & _ & HHm & _).
  rewrite Hip in Hip'. rewrite Hwl in Hwl'. injection Hip' as <-. injection Hwl' as <-.
  cbn [apply_curvature] in Hd. injection Hd as <-.
  rewrite sparse_diags_close in HH by assumption. injection HH as <-.
  exists (close_operator ip (2 * PI / wl_)), (vals, vecs).
  split; [exact HHm|]. split; [exact He|]. split; [reflexivity|].
  intros i k Hi Hk. split.
  - apply close_operator_entry; assumption.
  - rewrite !close_operator_entry by assumption. f_equal. apply laplacian_entry_sym.
Qed.

End SolveOperator.

(** X13 on the run on the 2 x 2 grid. *)
Lemma solve_close_operator_is_laplacian_witness :
  exists w',
    solve eigs0 3 "close" true None "default" world0 = (Return modes0, w')
    /\ indexProfile (self world0) = Some ip0
    /\ wl (self world0) = Some (2 * PI)
    /\ length (flatten (n ip0)) = (npoints ip0 * npoints ip0)%nat
    /\ (2 <= npoints ip0)%nat
    /\ exists Hm res,
         H (self w') = Some Hm
         /\ eigs0 Hm 3 = Return res
         /\ dia_shape Hm = (npoints ip0 * npoints ip0, npoints ip0 * npoints ip0)%nat
         /\ forall i k,
              (i < npoints ip0 * npoints ip0)%nat -> (k < npoints ip0 * npoints ip0)%nat ->
              dia_at Hm i k = Cx.of_R (laplacian_entry ip0 (2 * PI / (2 * PI)) i k)
              /\ dia_at Hm i k = dia_at Hm k i.
Proof.
  destruct solve_run0 as (w' & Hrun & _). exists w'.
  split; [exact Hrun|]. split; [reflexivity|]. split; [reflexivity|].
  split; [reflexivity|]. split; [apply le_n|].
  exact (solve_close_operator_is_laplacian eigs0 3 true "default" world0 modes0 w'
           ip0 (2 * PI) Hrun eq_refl eq_refl eq_refl (le_n 2)).
Defined.

Lemma map2_length {A B C} (f : A -> B -> C) a : forall b,
  length (map2 f a b) = Nat.min (length a) (length b).
Proof.
  induction a as [|x a IH]; intros [|y b]; cbn [map2 length Nat.min]; try reflexivity.
  rewrite IH. reflexivity.
Qed.

Lemma nth_map2 {A B C} (f : A -> B -> C) (da : A) (db : B) (dc : C) a : forall b i,
  (i < length a)%nat -> (i < length b)%nat ->
  nth i (map2 f a b) dc = f (nth i a da) (nth i b db).
Proof.
  induction a as [|x a IH]; intros [|y b] i Ha Hb; cbn [length] in *; try lia.
  destruct i as [|i]; cbn [map2 nth]; [reflexivity|]. apply IH; lia.
Qed.

Lemma curv_term_length ip curvature :
  length (curv_term ip curvature) = length (flatten (X ip)).
Proof. unfold curv_term. apply length_map. Qed.

Lemma broadcast_same {A B C} (f : A -> B -> C) a b :
  length a = length b -> broadcast f a b = Return (map2 f a b).
Proof. intros E. unfold broadcast. rewrite E, Nat.eqb_refl. reflexivity. Qed.

Lemma upto_neg_length {A} k (l : list A) :
  (0 < k)%nat -> length (PyList.upto_neg k l) = (length l - k)%nat.
Proof.
  intros Hk. unfold PyList.upto_neg. destruct k; [lia|].
  rewrite length_firstn. lia.
Qed.

Lemma from_length {A} k (l : list A) : length (PyList.from k l) = (length l - k)%nat.
Proof. apply length_skipn. Qed.

Section Curved.

Variables (ip : IndexProfile) (k0 curvature : R).
Hypothesis Hn : length (flatten (n ip)) = (npoints ip * npoints ip)%nat.
Hypothesis HX : length (flatten (X ip)) = (npoints ip * npoints ip)%nat.
Hypothesis Hnp : (2 <= npoints ip)%nat.

Lemma apply_curvature_close :
  apply_curvature ip (Some curvature) (base_diags ip k0 "close")
  = Return (curved_diags ip k0 curvature).
Proof.
  unfold apply_curvature, base_diags, curved_diags.
  cbn [String.eqb Ascii.eqb Bool.eqb].
  fold (curv_term ip curvature). set (ct := curv_term ip curvature).
  assert (Hct : length ct = (npoints ip * npoints ip)%nat)
    by (unfold ct; rewrite curv_term_length; exact HX).
  assert (Hsq : (4 <= npoints ip * npoints ip)%nat) by nia.
  unfold divide_diagonal at 1. cbn [nth_error].
  rewrite broadcast_same by (rewrite main_diagonal_length, Hn, Hct; reflexivity).
  cbn [Py.obind list_set].
  unfold divide_diagonal at 1. cbn [nth_error].
  rewrite broadcast_same
    by (rewrite x_diagonal_length, from_length, Hct by lia; reflexivity).
  cbn [Py.obind list_set].
  unfold divide_diagonal at 1. cbn [nth_error].
  rewrite broadcast_same
    by (rewrite x_diagonal_length, upto_neg_length, Hct by lia; reflexivity).
  cbn [Py.obind list_set].
  unfold divide_diagonal at 1. cbn [nth_error].
  rewrite broadcast_same
    by (rewrite y_diagonal_length, from_length, Hct; reflexivity).
  cbn [Py.obind list_set].
  unfold divide_diagonal. cbn [nth_error].
  rewrite broadcast_same
    by (rewrite y_diagonal_length, upto_neg_length, Hct by lia; reflexivity).
  reflexivity.
Qed.

Lemma sparse_diags_curved :
  sparse_diags (curved_diags ip k0 curvature) (offsets (npoints ip))
  = Return (curved_operator ip k0 curvature).
Proof.
  assert (Hct : length (curv_term ip curvature) = (npoints ip * npoints ip)%nat)
    by (rewrite curv_term_length; exact HX).
  assert (Hsq : (4 <= npoints ip * npoints ip)%nat) by nia.
  unfold sparse_diags, curved_operator, curved_diags, offsets.
  cbn [length Nat.eqb negb combine fit_all map].
  rewrite map2_length, main_diagonal_length, Hn, Hct, Nat.min_id.
  assert (Hm : (Z.of_nat (npoints ip * npoints ip) + Z.abs 0
                = Z.of_nat (npoints ip * npoints ip))%Z) by lia.
  rewrite Hm.
  rewrite !fit_diagonal_exact.
  - cbn [Py.obind nodupb existsb].
    repeat rewrite (proj2 (Z.eqb_neq _ _)) by lia.
    cbn [orb negb andb]. rewrite Nat2Z.id. reflexivity.
  - rewrite map2_length, y_diagonal_length, upto_neg_length, Hct by lia. nia.
  - rewrite map2_length, y_diagonal_length, from_length, Hct. nia.
  - rewrite map2_length, x_diagonal_length, upto_neg_length, Hct by lia. nia.
  - rewrite map2_length, x_diagonal_length, from_length, Hct by lia. nia.
  - rewrite map2_length, main_diagonal_length, Hn, Hct. lia.
Qed.

Lemma curv_term_nth i :
  (i < npoints ip * npoints ip)%nat ->
  nth i (curv_term ip curvature) 0 = 1 + 2 * 1 * nth i (flatten (X ip)) 0 / curvature.
Proof.
  intros Hi. unfold curv_term.
  rewrite (nth_indep _ 0 (1 + 2 * 1 * 0 / curvature))
    by (rewrite length_map, HX; exact Hi).
  apply (map_nth (fun x => 1 + 2 * 1 * x / curvature)).
Qed.

Lemma curved_operator_entry i k :
  (i < npoints ip * npoints ip)%nat -> (k < npoints ip * npoints ip)%nat ->
  dia_at (curved_operator ip k0 curvature) i k
  = Cx.of_R (laplacian_entry ip k0 i k / nth i (curv_term ip curvature) 0).
Proof.
  intros Hi Hk.
  assert (Hct : length (curv_term ip curvature) = (npoints ip * npoints ip)%nat)
    by (rewrite curv_term_length; exact HX).
  unfold dia_at, curved_operator, curved_diags, laplacian_entry, offsets.
  cbn [diagonals combine map find fst]. change Cx.zero with (Cx.of_R 0).
  set (np := npoints ip) in *. set (ct := curv_term ip curvature) in *.
  destruct (Z.eqb_spec 0 (Z.of_nat k - Z.of_nat i)) as [E0|E0].
  { assert (i = k) by lia. subst k. rewrite Nat.eqb_refl, Nat.min_id, map_nth.
    f_equal. rewrite (nth_map2 Rdiv 0 0) by (rewrite ?main_diagonal_length; lia).
    rewrite main_diagonal_nth by lia. reflexivity. }
  destruct (Nat.eqb_spec i k) as [E|_]; [lia|].
  destruct (Z.eqb_spec (-1) (Z.of_nat k - Z.of_nat i)) as [E1|E1].
  { assert (i = k + 1)%nat by lia. subst i.
    rewrite Nat.eqb_refl, orb_true_r, (Nat.min_r (k + 1) k) by lia.
    rewrite map_nth. f_equal.
    rewrite (nth_map2 Rdiv 0 0)
      by (rewrite ?x_diagonal_length, ?from_length by lia; lia).
    unfold PyList.from. rewrite nth_skipn, x_diagonal_nth by lia.
    rewrite (Nat.add_comm 1 k). reflexivity. }
  destruct (Z.eqb_spec 1 (Z.of_nat k - Z.of_nat i)) as [E2|E2].
  { assert (k = i + 1)%nat by lia. subst k.
    rewrite Nat.eqb_refl, orb_true_l, (Nat.min_l i (i + 1)) by lia.
    rewrite map_nth. f_equal.
    rewrite (nth_map2 Rdiv 0 0)
      by (rewrite ?x_diagonal_length, ?upto_neg_length by lia; lia).
    unfold PyList.upto_neg. rewrite nth_firstn, x_diagonal_nth by lia.
    destruct (Nat.ltb_spec i (length ct - 1)); [reflexivity|lia]. }
  destruct (Nat.eqb_spec k (i + 1)) as [E|_]; [lia|].
  destruct (Nat.eqb_spec i (k + 1)) as [E|_]; [lia|]. cbn [orb].
  destruct (Z.eqb_spec (- Z.of_nat np) (Z.of_nat k - Z.of_nat i)) as [E3|E3].
  { assert (i = k + np)%nat by lia. subst i.
    rewrite Nat.eqb_refl, orb_true_r, (Nat.min_r (k + np) k) by lia.
    rewrite map_nth. f_equal.
    rewrite (nth_map2 Rdiv 0 0)
      by (rewrite ?y_diagonal_length, ?from_length by lia; lia).
    unfold PyList.from. rewrite nth_skipn, y_diagonal_nth by lia.
    rewrite (Nat.add_comm np k). reflexivity. }
  destruct (Z.eqb_spec (Z.of_nat np) (Z.of_nat k - Z.of_nat i)) as [E4|E4].
  { assert (k = i + np)%nat by lia. subst k.
    rewrite Nat.eqb_refl, orb_true_l, (Nat.min_l i (i + np)) by lia.
    rewrite map_nth. f_equal.
    rewrite (nth_map2 Rdiv 0 0)
      by (rewrite ?y_diagonal_length, ?upto_neg_length by lia; lia).
    unfold PyList.upto_neg. destruct np as [|np']; [lia|].
    rewrite nth_firstn, y_diagonal_nth by lia.
    destruct (Nat.ltb_spec i (length ct - S np')); [reflexivity|lia]. }
  destruct (Nat.eqb_spec k (i + np)) as [E|_]; [lia|].
  destruct (Nat.eqb_spec i (k + np)) as [E|_]; [lia|].
  f_equal. unfold Rdiv. rewrite Rmult_0_l. reflexivity.
Qed.

End Curved.

Section SolveCurved.

Variable eigs : dia_matrix -> nat -> Outcome (list complex * ndarray2 complex).

(** With boundary 'close', a curvature, square fields n and X of side at
    least 2 and an eigensolver that answers, solve returns. *)
Lemma solve_curved_returns nmodesMax storeData mode w ip wl_ curvature vals vecs :
  indexProfile (self w) = Some ip ->
  wl (self w) = Some wl_ -> wl_ <> 0 ->
  length (flatten (n ip)) = (npoints ip * npoints ip)%nat ->
  length (flatten (X ip)) = (npoints ip * npoints ip)%nat ->
  (2 <= npoints ip)%nat ->
  eigs (curved_operator ip (2 * PI / wl_) curvature) nmodesMax = Return (vals, vecs) ->
  (length vals <= ncols vecs)%nat ->
  exists m w',
    solve eigs nmodesMax "close" storeData (Some curvature) mode w = (Return m, w').
Proof.
  intros Hip Hwl Hnz Hn HX Hnp He Hcols.
  assert (Hmin : exists nmin, amin (flatten (n ip)) = Return nmin).
  { destruct (flatten (n ip)) as [|x l]; [cbn in Hn; nia|]. eexists; reflexivity. }
  assert (Hmax : exists nmax, amax (flatten (n ip)) = Return nmax).
  { destruct (flatten (n ip)) as [|x l]; [cbn in Hn; nia|]. eexists; reflexivity. }
  destruct Hmin as [nmin Hmin], Hmax as [nmax Hmax].
  do 2 eexists.
  eapply (solve_returns_when eigs nmodesMax "close" storeData (Some curvature) mode w
            ip wl_ (curved_diags ip (2 * PI / wl_) curvature)
            (curved_operator ip (2 * PI / wl_) curvature) nmin nmax vals vecs);
    try eassumption.
  - apply apply_curvature_close; assumption.
  - apply sparse_diags_curved; assumption.
  - apply select_loop_total.
    eapply Forall_impl; [|apply enumerate_fst_lt]. intros iv Hlt. cbn beta in Hlt. lia.
Qed.

(** X14: for boundary 'close' and a curvature, on square fields n and X of
    side npoints >= 2, the operator that a returning run of solve has built
    is the one of the straight fibre with every row divided by the curvature
    term of its grid point: the entry (i, k) is the entry of the Laplacian
    with the potential, over 1 + 2*X_i/curvature.  Rows are scaled and
    columns are not, so that the operator satisfies
    (1 + 2*X_i/curvature) * H[i,k] = (1 + 2*X_k/curvature) * H[k,i] in place
    of the symmetry of the straight fibre.  The curvature and the curvature
    terms are taken non-zero, where the quotients of the reals are those of
    the floats. *)
Theorem solve_curvature_scales_rows
        nmodesMax storeData mode w m w' ip wl_ curvature :
  solve eigs nmodesMax "close" storeData (Some curvature) mode w = (Return m, w') ->
  indexProfile (self w) = Some ip ->
  wl (self w) = Some wl_ ->
  length (flatten (n ip)) = (npoints ip * npoints ip)%nat ->
  length (flatten (X ip)) = (npoints ip * npoints ip)%nat ->
  (2 <= npoints ip)%nat ->
  curvature <> 0 ->
  Forall (fun c => c <> 0) (curv_term ip curvature) ->
  exists Hm res,
    H (self w') = Some Hm
    /\ eigs Hm nmodesMax = Return res
    /\ dia_shape Hm = (npoints ip * npoints ip, npoints ip * npoints ip)%nat
    /\ forall i k,
         (i < npoints ip * npoints ip)%nat -> (k < npoints ip * npoints ip)%nat ->
         dia_at Hm i k
         = Cx.of_R (laplacian_entry ip (2 * PI / wl_) i k
                    / (1 + 2 * 1 * nth i (flatten (X ip)) 0 / curvature))
         /\ Cx.scale (1 + 2 * 1 * nth i (flatten (X ip)) 0 / curvature) (dia_at Hm i k)
            = Cx.scale (1 + 2 * 1 * nth k (flatten (X ip)) 0 / curvature) (dia_at Hm k i).
Proof.
  intros Hrun Hip Hwl Hn HX Hnp Hc Hct. apply solve_returns_inv in Hrun.
  destruct Hrun as (ip' & wl' & diags & Hm & nmin & nmax & vals & vecs & Hip' & Hwl' & Hnz
                    & Hd & HH & _ & _ & He & _ & HHm & _).
  rewrite Hip in Hip'. rewrite Hwl in Hwl'. injection Hip' as <-. injection Hwl' as <-.
  rewrite apply_curvature_close in Hd by assumption. injection Hd as <-.
  rewrite sparse_diags_curved in HH by assumption. injection HH as <-.
  exists (curved_operator ip (2 * PI / wl_) curvature), (vals, vecs).
  split; [exact HHm|]. split; [exact He|]. split; [reflexivity|].
  assert (Hnz' : forall i, (i < npoints ip * npoints ip)%nat ->
                           1 + 2 * 1 * nth i (flatten (X ip)) 0 / curvature <> 0).
  { intros i Hi. rewrite <- (curv_term_nth ip curvature HX i Hi).
    rewrite Forall_forall in Hct. apply Hct, nth_In.
    rewrite curv_term_length, HX. exact Hi. }
  intros i k Hi Hk.
  rewrite !curved_operator_entry by assumption.
  rewrite !curv_term_nth by assumption.
  split; [reflexivity|].
  unfold Cx.scale, Cx.of_R; cbn [Cx.Re Cx.Im].
  rewrite (laplacian_entry_sym ip _ k i).
  pose proof (Hnz' i Hi) as Hi0. pose proof (Hnz' k Hk) as Hk0.
  set (a := 1 + 2 * 1 * nth i (flatten (X ip)) 0 / curvature) in *.
  set (b := 1 + 2 * 1 * nth k (flatten (X ip)) 0 / curvature) in *.
  f_equal; [field; split; assumption|ring].
Qed.

End SolveCurved.

(** solve on the 2 x 2 grid, bent with the radius 1000, returns. *)
Lemma solve_run0_curved :
  exists m w',
    solve eigs0 3 "close" true (Some 1000) "default" world0 = (Return m, w').
Proof.
  apply (solve_curved_returns eigs0 3 true "default" world0 ip0 (2 * PI) 1000 vals0 vecs0);
    try reflexivity; exact two_pi_neq_0.
Qed.

(** X14 on the 2 x 2 grid, bent with the radius 1000. *)
Lemma solve_curvature_scales_rows_witness :
  exists m w',
    solve eigs0 3 "close" true (Some 1000) "default" world0 = (Return m, w')
    /\ 1000 <> 0
    /\ Forall (fun c => c <> 0) (curv_term ip0 1000)
    /\ exists Hm res,
         H (self w') = Some Hm
         /\ eigs0 Hm 3 = Return res
         /\ dia_shape Hm = (npoints ip0 * npoints ip0, npoints ip0 * npoints ip0)%nat
         /\ forall i k,
              (i < npoints ip0 * npoints ip0)%nat -> (k < npoints ip0 * npoints ip0)%nat ->
              dia_at Hm i k
              = Cx.of_R (laplacian_entry ip0 (2 * PI / (2 * PI)) i k
                         / (1 + 2 * 1 * nth i (flatten (X ip0)) 0 / 1000))
              /\ Cx.scale (1 + 2 * 1 * nth i (flatten (X ip0)) 0 / 1000) (dia_at Hm i k)
                 = Cx.scale (1 + 2 * 1 * nth k (flatten (X ip0)) 0 / 1000) (dia_at Hm k i).
Proof.
  destruct solve_run0_curved as (m & w' & Hrun). exists m, w'.
  assert (Hc : 1000 <> 0) by lra.
  assert (Hct : Forall (fun c => c <> 0) (curv_term ip0 1000)).
  { unfold curv_term, ip0, flatten; cbn [X data concat app map].
    repeat constructor; lra. }
  split; [exact Hrun|]. split; [exact Hc|]. split; [exact Hct|].
  exact (solve_curvature_scales_rows eigs0 3 true "default" world0 m w' ip0 (2 * PI) 1000
           Hrun eq_refl eq_refl eq_refl eq_refl (le_n 2) Hc Hct).
Defined.

(* ===================================================================== *)
(** * solve, the Poisson coefficient and a failing search *)
(* ===================================================================== *)

Section SolveMore.

Variable eigs : dia_matrix -> nat -> Outcome (list complex * ndarray2 complex).

(** X15: the Poisson coefficient set by setPoisson has no effect on solve:
    with any coefficient the call ends the same way, with the same Mode Set
    or the same exception, the same operator, the same log and the same
    files, and leaves the coefficient as it was set. *)
Theorem solve_ignores_poisson p nmodesMax boundary storeData curv mode w :
  solve eigs nmodesMax boundary storeData curv mode (with_poisson p w)
  = (fst (solve eigs nmodesMax boundary storeData curv mode w),
     with_poisson p (snd (solve eigs nmodesMax boundary storeData curv mode w))).
Proof.
  unfold solve, with_poisson, Py.bind, Py.get, Py.assert, Py.lift.
  cbn [self logged disk setPoisson indexProfile wl].
  destruct (indexProfile (self w)) as [ip|]; cbn [is_some Py.ret Py.raise];
    [|reflexivity].
  destruct (wl (self w)) as [wl_|]; cbn [truthy negb Py.ret Py.raise]; [|reflexivity].
  destruct (Reqb wl_ 0); cbn [negb Py.ret Py.raise]; [reflexivity|].
  rewrite !solve_diags_world. cbn [self logged disk].
  destruct (apply_curvature ip curv _) as [diags|e]; [|reflexivity].
  destruct (sparse_diags diags (offsets (npoints ip))) as [Hm|e]; [|reflexivity].
  destruct (amin (flatten (n ip))) as [nmin|e]; [|reflexivity].
  destruct (amax (flatten (n ip))) as [nmax|e]; [|reflexivity].
  destruct (eigs Hm nmodesMax) as [[vals vecs]|e]; [|reflexivity].
  unfold set_self, Py.modify, log, Py.ret. cbn [fst snd self logged disk].
  change (fresh_modes (setPoisson p (self w))) with (fresh_modes (self w)).
  destruct (select_loop _ _ _ _ _) as [m1|e]; [|reflexivity].
  destruct (nmodesMax =? Modes.number m1)%nat, storeData; reflexivity.
Qed.

(** X16: solve keeps the operator before it calls the eigensolver.  When
    [eigs] raises on the operator of boundary 'close' (square index field of
    side at least 2, no curvature), solve raises the same exception; the
    solver then holds that operator in [self.H] and the Mode Set it had
    before, and the log has the two records of the construction and none of
    the search. *)
Theorem solve_keeps_operator_when_eigs_raises
        nmodesMax storeData mode w ip wl_ e :
  indexProfile (self w) = Some ip ->
  wl (self w) = Some wl_ -> wl_ <> 0 ->
  length (flatten (n ip)) = (npoints ip * npoints ip)%nat ->
  (2 <= npoints ip)%nat ->
  eigs (close_operator ip (2 * PI / wl_)) nmodesMax = Raise e ->
  solve eigs nmodesMax "close" storeData None mode w
  = (Raise e,
     mkWorld (set_H (close_operator ip (2 * PI / wl_)) (self w))
             (logged w
              ++ [ (INFO, "Use periodic close condition.");
                   (INFO, "Note that boundary conditions should not matter for guided modes.") ])
             (disk w)).
Proof.
  intros Hip Hwl Hnz Hn Hnp He.
  assert (Hmin : exists nmin, amin (flatten (n ip)) = Return nmin).
  { destruct (flatten (n ip)) as [|x l]; [cbn in Hn; nia|]. eexists; reflexivity. }
  assert (Hmax : exists nmax, amax (flatten (n ip)) = Return nmax).
  { destruct (flatten (n ip)) as [|x l]; [cbn in Hn; nia|]. eexists; reflexivity. }
  destruct Hmin as [nmin Hmin], Hmax as [nmax Hmax].
  unfold solve. unfold Py.bind at 1. unfold Py.get.
  unfold Py.bind at 1. unfold Py.assert.
  rewrite Hip, Hwl. cbn [is_some truthy Py.ret].
  unfold Py.bind at 1.
  apply Reqb_false in Hnz. rewrite Hnz. cbn [negb Py.ret].
  unfold Py.bind at 1. rewrite solve_diags_world. cbn [apply_curvature].
  unfold Py.bind at 1. unfold Py.lift at 1.
  rewrite sparse_diags_close by assumption.
  unfold Py.bind at 1. unfold set_self, Py.modify.
  unfold Py.bind at 1. unfold Py.lift at 1. rewrite Hmin.
  unfold Py.bind at 1. unfold Py.lift at 1. rewrite Hmax.
  unfold Py.bind at 1. unfold Py.lift at 1. rewrite He.
  cbn [self logged disk boundary_log String.eqb Ascii.eqb Bool.eqb app].
  reflexivity.
Qed.

End SolveMore.

(** X16 on the 2 x 2 grid, with an eigensolver that fails. *)
Lemma solve_keeps_operator_when_eigs_raises_witness :
  indexProfile (self world0) = Some ip0
  /\ wl (self world0) = Some (2 * PI)
  /\ 2 * PI <> 0
  /\ length (flatten (n ip0)) = (npoints ip0 * npoints ip0)%nat
  /\ (2 <= npoints ip0)%nat
  /\ eigs_fails (close_operator ip0 (2 * PI / (2 * PI))) 3 = Raise LibraryError
  /\ solve eigs_fails 3 "close" true None "default" world0
     = (Raise LibraryError,
        mkWorld (set_H (close_operator ip0 (2 * PI / (2 * PI))) (self world0))
                (logged world0
                 ++ [ (INFO, "Use periodic close condition.");
                      (INFO, "Note that boundary conditions should not matter for guided modes.") ])
                (disk world0)).
Proof.
  split; [reflexivity|]. split; [reflexivity|]. split; [exact two_pi_neq_0|].
  split; [reflexivity|]. split; [apply le_n|]. split; [reflexivity|].
  exact (solve_keeps_operator_when_eigs_raises eigs_fails 3 true "default" world0 ip0
           (2 * PI) LibraryError eq_refl eq_refl two_pi_neq_0 eq_refl (le_n 2) eq_refl).
Defined.

(* ===================================================================== *)
(** * The coupling matrix of randomGroupCoupling *)
(* ===================================================================== *)


Lemma fold_left_max_ge l : forall x, (x <= fold_left Nat.max l x)%nat.
Proof.
  induction l as [|y l IH]; intros x; cbn [fold_left]; [lia|].
  specialize (IH (Nat.max x y)). lia.
Qed.

Lemma fold_left_max_spec l : forall x,
  (forall y, In y (x :: l) -> (y <= fold_left Nat.max l x)%nat)
  /\ In (fold_left Nat.max l x) (x :: l).
Proof.
  induction l as [|z l IH]; intros x; cbn [fold_left].
  - split; [intros y [->|[]]; lia|left; reflexivity].
  - destruct (IH (Nat.max x z)) as [Hle Hin]. split.
    + pose proof (fold_left_max_ge l (Nat.max x z)) as Hge.
      intros y [E|[E|Hy]]; [subst y; lia|subst y; lia|].
      apply Hle. right. exact Hy.
    + destruct Hin as [E|Hin]; [|right; right; exact Hin].
      rewrite <- E. destruct (Nat.max_spec x z) as [[_ ->]|[_ ->]];
        [right; left|left]; reflexivity.
Qed.

Lemma Forall2_In_l {A B} (P : A -> B -> Prop) l l' x :
  Forall2 P l l' -> In x l -> exists y, In y l' /\ P x y.
Proof.
  induction 1 as [|a b l l' Hab _ IH]; intros Hin; [destruct Hin|].
  destruct Hin as [->|Hin].
  - exists b. split; [left; reflexivity|exact Hab].
  - destruct (IH Hin) as (y & Hy & HP). exists y. split; [right; exact Hy|exact HP].
Qed.

Lemma Forall2_In_r {A B} (P : A -> B -> Prop) l l' y :
  Forall2 P l l' -> In y l' -> exists x, In x l /\ P x y.
Proof.
  induction 1 as [|a b l l' Hab _ IH]; intros Hin; [destruct Hin|].
  destruct Hin as [->|Hin].
  - exists a. split; [left; reflexivity|exact Hab].
  - destruct (IH Hin) as (x & Hx & HP). exists x. split; [right; exact Hx|exact HP].
Qed.

Lemma imax_spec l mx :
  imax l = Return mx <-> l <> [] /\ In mx l /\ forall y, In y l -> (y <= mx)%nat.
Proof.
  destruct l as [|x l]; cbn [imax].
  - split; [discriminate|intros [H _]; contradiction].
  - destruct (fold_left_max_spec l x) as [Hle Hin]. split.
    + intros [= <-]. split; [discriminate|]. split; assumption.
    + intros (_ & Hin' & Hle'). f_equal.
      apply Nat.le_antisymm; [apply Hle'; exact Hin|apply Hle; exact Hin'].
Qed.

Lemma group_maxima_raises groups :
  In [] groups -> group_maxima groups = Raise ValueError.
Proof.
  induction groups as [|g groups IH]; intros Hin; [destruct Hin|].
  cbn [group_maxima]. destruct g as [|x g]; [reflexivity|].
  destruct Hin as [E|Hin]; [discriminate|].
  cbn [imax Py.obind]. rewrite (IH Hin). reflexivity.
Qed.

Lemma group_maxima_returns groups :
  ~ In [] groups ->
  exists ms, group_maxima groups = Return ms
             /\ Forall2 (fun g mx => imax g = Return mx) groups ms.
Proof.
  induction groups as [|g groups IH]; intros Hno.
  - exists []. split; [reflexivity|constructor].
  - destruct IH as (ms & Hms & Hall); [intros H; apply Hno; right; exact H|].
    destruct g as [|x g]; [exfalso; apply Hno; left; reflexivity|].
    exists (fold_left Nat.max g x :: ms). cbn [group_maxima imax Py.obind].
    rewrite Hms. split; [reflexivity|]. constructor; [reflexivity|exact Hall].
Qed.

Lemma set_at_shape H i j x : shape (set_at H i j x) = shape H.
Proof. reflexivity. Qed.

Lemma set_at_other H r c x i j :
  (i, j) <> (r, c) -> at2 Cx.zero (set_at H r c x) i j = at2 Cx.zero H i j.
Proof.
  intros Hne. unfold at2, set_at; cbn [data].
  destruct (lt_dec i (length (data H))) as [Hlt|Hge].
  - rewrite (nth_map_enumerate _ _ [] _ _ Hlt).
    destruct (Nat.eqb_spec i r) as [->|_]; [|reflexivity].
    rewrite nth_list_set.
    destruct (Nat.eqb_spec j c) as [->|_]; [contradiction Hne; reflexivity|reflexivity].
  - rewrite !(nth_overflow _ []) by (rewrite ?length_map, ?enumerate_length; lia).
    reflexivity.
Qed.

Lemma set_at_well_shaped H r c x : well_shaped H -> well_shaped (set_at H r c x).
Proof.
  intros [Hrows Hcols]. unfold well_shaped, set_at, nrows, ncols in *; cbn [data shape].
  split.
  - rewrite length_map, enumerate_length. exact Hrows.
  - apply Forall_forall. intros row Hin. apply in_map_iff in Hin.
    destruct Hin as ([i old] & <- & Hin).
    assert (Hold : length old = snd (shape H)).
    { rewrite Forall_forall in Hcols. apply Hcols.
      unfold PyList.enumerate in Hin. eapply in_combine_r, Hin. }
    destruct (i =? r)%nat; [rewrite list_set_length|]; exact Hold.
Qed.

Lemma set_at_same H r c x :
  well_shaped H -> (r < nrows H)%nat -> (c < ncols H)%nat ->
  at2 Cx.zero (set_at H r c x) r c = x.
Proof.
  intros [Hrows Hcols] Hr Hc. unfold at2, set_at; cbn [data].
  assert (Hlt : (r < length (data H))%nat) by (rewrite Hrows; exact Hr).
  rewrite (nth_map_enumerate _ _ [] _ _ Hlt), Nat.eqb_refl, nth_list_set, Nat.eqb_refl.
  assert (Hlen : length (nth r (data H) []) = ncols H).
  { rewrite Forall_forall in Hcols. apply Hcols, nth_In, Hlt. }
  rewrite Hlen. apply Nat.ltb_lt in Hc. rewrite Hc. reflexivity.
Qed.

Lemma assign_fold_spec (u : nat -> nat -> complex) H todo :
  well_shaped H ->
  (forall x, In x todo -> (snd (fst x) < nrows H)%nat /\ (snd (snd x) < ncols H)%nat) ->
  let H' := fold_left (fun M '((a, ga), (b, gb)) => set_at M ga gb (u a b)) todo H in
  well_shaped H' /\ shape H' = shape H
  /\ forall i j v,
       (exists x, In x todo /\ snd (fst x) = i /\ snd (snd x) = j) ->
       (forall y, In y todo -> snd (fst y) = i -> snd (snd y) = j ->
                  u (fst (fst y)) (fst (snd y)) = v) ->
       at2 Cx.zero H' i j = v.
Proof.
  intros HH. induction todo as [|[[a ga] [b gb]] todo IH] using rev_ind; intros Hin H'.
  - subst H'. cbn [fold_left]. split; [exact HH|]. split; [reflexivity|].
    intros i j v (x & [] & _).
  - subst H'. rewrite fold_left_app. cbn [fold_left]. cbv beta iota.
    destruct IH as (Hws & Hsh & Hat).
    { intros x Hx. apply Hin, in_or_app. left. exact Hx. }
    destruct (Hin ((a, ga), (b, gb))) as [Hga Hgb];
      [apply in_or_app; right; left; reflexivity|]. cbn [fst snd] in Hga, Hgb.
    split; [apply set_at_well_shaped, Hws|]. split; [exact Hsh|].
    intros i j v (x & Hx & Hxi & Hxj) Hall.
    destruct (Nat.eq_dec ga i) as [Ei|Ei]; [destruct (Nat.eq_dec gb j) as [Ej|Ej]|].
    + subst ga gb. rewrite set_at_same.
      * apply (Hall ((a, i), (b, j))); [apply in_or_app; right; left|..]; reflexivity.
      * exact Hws.
      * unfold nrows. rewrite Hsh. exact Hga.
      * unfold ncols. rewrite Hsh. exact Hgb.
    + rewrite set_at_other by congruence.
      apply Hat.
      * apply in_app_or in Hx as [Hx|[<-|[]]]; [|cbn [fst snd] in *; congruence].
        exists x. repeat split; assumption.
      * intros y Hy. apply Hall, in_or_app. left. exact Hy.
    + rewrite set_at_other by congruence.
      apply Hat.
      * apply in_app_or in Hx as [Hx|[<-|[]]]; [|cbn [fst snd] in *; congruence].
        exists x. repeat split; assumption.
      * intros y Hy. apply Hall, in_or_app. left. exact Hy.
Qed.

Lemma NoDup_nth_error_inj {A} (l : list A) a a' x :
  NoDup l -> nth_error l a = Some x -> nth_error l a' = Some x -> a = a'.
Proof.
  intros Hnd Ha Ha'. apply (proj1 (NoDup_nth_error l) Hnd).
  - apply nth_error_Some. congruence.
  - congruence.
Qed.

Lemma assign_block_spec H g u :
  (forall i, In i g -> (i < nrows H)%nat /\ (i < ncols H)%nat) ->
  exists H',
    assign_block H g u = Return H'
    /\ shape H' = shape H
    /\ forall i j, ~ (In i g /\ In j g) -> at2 Cx.zero H' i j = at2 Cx.zero H i j.
Proof.
  intros Hin. unfold assign_block.
  assert (Hall : forallb (fun i => (i <? nrows H)%nat && (i <? ncols H)%nat) g = true).
  { apply forallb_forall. intros i Hi. destruct (Hin i Hi) as [H1 H2].
    apply Nat.ltb_lt in H1, H2. rewrite H1, H2. reflexivity. }
  rewrite Hall. eexists. split; [reflexivity|].
  assert (Hw : forall x, In x (list_prod (PyList.enumerate g) (PyList.enumerate g)) ->
                         In (snd (fst x)) g /\ In (snd (snd x)) g).
  { intros [[a ga] [b gb]] Hx. apply in_prod_iff in Hx as [Ha Hb].
    apply enumerate_In in Ha, Hb. cbn [fst snd].
    split; eapply nth_error_In; eassumption. }
  revert Hw. generalize (list_prod (PyList.enumerate g) (PyList.enumerate g)).
  intros todo. revert H Hin Hall. induction todo as [|[[a ga] [b gb]] todo IH];
    intros H Hin Hall Hw.
  - split; [reflexivity|]. intros; reflexivity.
  - cbn [fold_left].
    destruct (IH (set_at H ga gb (u a b))) as [Hsh Hat].
    + exact Hin.
    + exact Hall.
    + intros x Hx. apply Hw. right. exact Hx.
    + split; [rewrite Hsh; reflexivity|].
      intros i j Hij. rewrite Hat by exact Hij. apply set_at_other.
      intros [= -> ->]. apply Hij. apply (Hw ((a, ga), (b, gb))). left. reflexivity.
Qed.

Lemma assign_block_same H g u a b :
  well_shaped H ->
  (forall i, In i g -> (i < nrows H)%nat /\ (i < ncols H)%nat) ->
  NoDup g -> (a < length g)%nat -> (b < length g)%nat ->
  exists H',
    assign_block H g u = Return H'
    /\ well_shaped H'
    /\ at2 Cx.zero H' (nth a g 0%nat) (nth b g 0%nat) = u a b.
Proof.
  intros HH Hin Hnd Ha Hb. unfold assign_block.
  assert (Hall : forallb (fun i => (i <? nrows H)%nat && (i <? ncols H)%nat) g = true).
  { apply forallb_forall. intros i Hi. destruct (Hin i Hi) as [H1 H2].
    apply Nat.ltb_lt in H1, H2. rewrite H1, H2. reflexivity. }
  rewrite Hall. eexists. split; [reflexivity|].
  destruct (assign_fold_spec u H (list_prod (PyList.enumerate g) (PyList.enumerate g)) HH)
    as (Hws & _ & Hat).
  { intros [[a' ga] [b' gb]] Hx. apply in_prod_iff in Hx as [Hxa Hxb].
    apply enumerate_In in Hxa, Hxb. cbn [fst snd].
    split; [apply (Hin ga)|apply (Hin gb)]; eapply nth_error_In; eassumption. }
  split; [exact Hws|]. apply Hat.
  - exists ((a, nth a g 0%nat), (b, nth b g 0%nat)). cbn [fst snd].
    split; [|split; reflexivity].
    apply in_prod_iff. split; apply enumerate_In, nth_error_nth'; assumption.
  - intros [[a' ga] [b' gb]] Hy Hi Hj. cbn [fst snd] in *.
    apply in_prod_iff in Hy as [Hya Hyb]. apply enumerate_In in Hya, Hyb.
    subst ga gb.
    rewrite (NoDup_nth_error_inj g a' a _ Hnd Hya (nth_error_nth' g 0%nat Ha)).
    rewrite (NoDup_nth_error_inj g b' b _ Hnd Hyb (nth_error_nth' g 0%nat Hb)).
    reflexivity.
Qed.

Section RandomGroupCouplingProperties.

Variable Rng : Type.
Variable random_unitary : nat -> Rng -> (nat -> nat -> complex) * Rng.

Lemma couple_groups_spec groups : forall H rng,
  (forall g i, In g groups -> In i g -> (i < nrows H)%nat /\ (i < ncols H)%nat) ->
  exists H' rng',
    couple_groups Rng random_unitary H groups rng = (Return H', rng')
    /\ shape H' = shape H
    /\ forall i j, (forall g, In g groups -> ~ (In i g /\ In j g)) ->
                   at2 Cx.zero H' i j = at2 Cx.zero H i j.
Proof.
  induction groups as [|g groups IH]; intros H rng Hin.
  - exists H, rng. repeat split; reflexivity.
  - cbn [couple_groups]. unfold Py.bind at 1.
    destruct (random_unitary (length g) rng) as [u rng1].
    unfold Py.bind at 1. unfold Py.lift at 1.
    destruct (assign_block_spec H g u) as (H1 & Hrun1 & Hsh1 & Hat1).
    { intros i Hi. apply (Hin g i); [left; reflexivity|exact Hi]. }
    rewrite Hrun1.
    destruct (IH H1 rng1) as (H' & rng' & Hrun & Hsh & Hat).
    { intros g' i Hg' Hi. unfold nrows, ncols. rewrite Hsh1.
      apply (Hin g' i); [right; exact Hg'|exact Hi]. }
    exists H', rng'. split; [exact Hrun|]. split; [congruence|].
    intros i j Hno. rewrite Hat, Hat1; [reflexivity| |].
    + apply Hno. left. reflexivity.
    + intros g' Hg'. apply Hno. right. exact Hg'.
Qed.

Lemma couple_groups_blocks groups : forall H rng,
  well_shaped H ->
  (forall g i, In g groups -> In i g -> (i < nrows H)%nat /\ (i < ncols H)%nat) ->
  disjoint_groups groups ->
  exists H' rng',
    couple_groups Rng random_unitary H groups rng = (Return H', rng')
    /\ forall k g u a b,
         nth_error groups k = Some g ->
         nth_error (drawn random_unitary groups rng) k = Some u ->
         (a < length g)%nat -> (b < length g)%nat ->
         at2 Cx.zero H' (nth a g 0%nat) (nth b g 0%nat) = u a b.
Proof.
  induction groups as [|g groups IH]; intros H rng HH Hin Hdis.
  - exists H, rng. split; [reflexivity|]. intros [|k] g u a b Hg; discriminate.
  - destruct Hdis as (Hnd & Hother & Hdis).
    cbn [couple_groups drawn]. unfold Py.bind at 1.
    destruct (random_unitary (length g) rng) as [u rng1].
    unfold Py.bind at 1. unfold Py.lift at 1.
    assert (Hing : forall i, In i g -> (i < nrows H)%nat /\ (i < ncols H)%nat).
    { intros i Hi. apply (Hin g i); [left; reflexivity|exact Hi]. }
    destruct (assign_block_spec H g u Hing) as (H1 & Hrun1 & Hsh1 & _).
    assert (HH1 : well_shaped H1).
    { destruct g as [|i0 g'].
      - unfold assign_block in Hrun1. cbn in Hrun1. injection Hrun1 as <-. exact HH.
      - destruct (assign_block_same H (i0 :: g') u 0 0 HH Hing Hnd) as (H1' & Hrun1' & Hws & _);
          [cbn; lia|cbn; lia|].
        rewrite Hrun1 in Hrun1'. injection Hrun1' as <-. exact Hws. }
    rewrite Hrun1.
    assert (Hin1 : forall g' i, In g' groups -> In i g' ->
                                (i < nrows H1)%nat /\ (i < ncols H1)%nat).
    { intros g' i Hg' Hi. unfold nrows, ncols. rewrite Hsh1.
      apply (Hin g' i); [right; exact Hg'|exact Hi]. }
    destruct (IH H1 rng1 HH1 Hin1 Hdis) as (H' & rng' & Hrun & Hblocks).
    exists H', rng'. split; [exact Hrun|].
    intros [|k] g0 u0 a b Hg0 Hu0 Ha Hb; cbn [nth_error] in Hg0, Hu0.
    + injection Hg0 as <-. injection Hu0 as <-.
      destruct (couple_groups_spec groups H1 rng1 Hin1) as (H'' & rng'' & Hrun' & _ & Hkeep).
      rewrite Hrun in Hrun'. injection Hrun' as <- <-.
      rewrite Hkeep.
      * destruct (assign_block_same H g u a b HH Hing Hnd Ha Hb) as (H1' & Hrun1' & _ & Hat).
        rewrite Hrun1 in Hrun1'. injection Hrun1' as <-. exact Hat.
      * intros g' Hg' [Hi _]. apply (Hother g' (nth a g 0%nat) Hg'); [|exact Hi].
        apply nth_In. exact Ha.
    + apply (Hblocks k g0 u0 a b); assumption.
Qed.

(** X17: randomGroupCoupling raises [ValueError] when it is given no group,
    or a group with no index.  Otherwise it returns a square array whose
    side is the largest index of the groups plus one, and in which an entry
    (i, j) is zero unless some group holds both i and j: it couples no two
    modes of different groups. *)
Theorem randomGroupCoupling_couples_only_within_groups groups rng :
  (groups = [] \/ In [] groups ->
   randomGroupCoupling Rng random_unitary groups rng = (Raise ValueError, rng))
  /\ (groups <> [] -> ~ In [] groups ->
      exists mx H rng',
        randomGroupCoupling Rng random_unitary groups rng = (Return H, rng')
        /\ shape H = (mx + 1, mx + 1)%nat
        /\ (exists g, In g groups /\ In mx g)
        /\ (forall g i, In g groups -> In i g -> (i <= mx)%nat)
        /\ forall i j, (forall g, In g groups -> ~ (In i g /\ In j g)) ->
                       at2 Cx.zero H i j = Cx.zero).
Proof.
  unfold randomGroupCoupling. split.
  - intros [->|Hin]; [reflexivity|].
    unfold Py.bind, Py.lift. rewrite (group_maxima_raises groups Hin). reflexivity.
  - intros Hne Hno.
    destruct (group_maxima_returns groups Hno) as (ms & Hms & Hall).
    unfold Py.bind at 1. unfold Py.lift at 1. rewrite Hms.
    unfold Py.bind at 1. unfold Py.lift at 1.
    destruct ms as [|m0 ms']; [inversion Hall; subst; contradiction|].
    set (ms := m0 :: ms') in *.
    destruct (imax ms) as [mx|e] eqn:Hmx; [|discriminate].
    apply imax_spec in Hmx as (_ & Hmxin & Hmxle).
    assert (Hbound : forall g i, In g groups -> In i g -> (i <= mx)%nat).
    { intros g i Hg Hi.
      destruct (Forall2_In_l _ _ _ g Hall Hg) as (mg & Hmg & Hgm).
      apply imax_spec in Hgm as (_ & _ & Hle).
      specialize (Hle i Hi). specialize (Hmxle mg Hmg). lia. }
    destruct (couple_groups_spec groups (zeros Cx.zero (mx + 1) (mx + 1)) rng)
      as (H & rng' & Hrun & Hsh & Hat).
    { intros g i Hg Hi. specialize (Hbound g i Hg Hi).
      unfold nrows, ncols, zeros; cbn [shape fst snd]. lia. }
    exists mx, H, rng'. split; [exact Hrun|]. split; [exact Hsh|].
    split; [|split; [exact Hbound|]].
    + destruct (Forall2_In_r _ _ _ mx Hall Hmxin) as (g & Hg & Hgm).
      exists g. split; [exact Hg|]. apply imax_spec in Hgm. apply Hgm.
    + intros i j Hnoij. rewrite Hat by exact Hnoij. apply at2_zeros.
Qed.

(** X18: when no index is repeated in a group and no two groups share an
    index, randomGroupCoupling lays the matrix drawn for a group, unchanged,
    on the rows and columns the group names: the entry (g[a], g[b]) of the
    result is the entry (a, b) of the k-th matrix drawn, for the k-th group
    g.  With X17 this makes the result, up to the order of the indices, the
    block-diagonal matrix of the matrices drawn. *)
Theorem randomGroupCoupling_blocks groups rng :
  groups <> [] -> ~ In [] groups -> disjoint_groups groups ->
  exists H rng',
    randomGroupCoupling Rng random_unitary groups rng = (Return H, rng')
    /\ forall k g u a b,
         nth_error groups k = Some g ->
         nth_error (drawn random_unitary groups rng) k = Some u ->
         (a < length g)%nat -> (b < length g)%nat ->
         at2 Cx.zero H (nth a g 0%nat) (nth b g 0%nat) = u a b.
Proof.
  intros Hne Hno Hdis. unfold randomGroupCoupling.
  destruct (group_maxima_returns groups Hno) as (ms & Hms & Hall).
  unfold Py.bind at 1. unfold Py.lift at 1. rewrite Hms.
  unfold Py.bind at 1. unfold Py.lift at 1.
  destruct ms as [|m0 ms']; [inversion Hall; subst; contradiction|].
  set (ms := m0 :: ms') in *.
  destruct (imax ms) as [mx|e] eqn:Hmx; [|discriminate].
  apply imax_spec in Hmx as (_ & Hmxin & Hmxle).
  apply couple_groups_blocks; [apply zeros_well_shaped| |exact Hdis].
  intros g i Hg Hi.
  destruct (Forall2_In_l _ _ _ g Hall Hg) as (mg & Hmg & Hgm).
  apply imax_spec in Hgm as (_ & _ & Hle).
  specialize (Hle i Hi). specialize (Hmxle mg Hmg).
  unfold nrows, ncols, zeros; cbn [shape fst snd]. lia.
Qed.

End RandomGroupCouplingProperties.

(** X18 on the groups [[0, 2], [1]]. *)
Lemma randomGroupCoupling_blocks_witness :
  groups0 <> [] /\ ~ In [] groups0 /\ disjoint_groups groups0
  /\ exists H rng',
       randomGroupCoupling nat identity_draw groups0 0%nat = (Return H, rng')
       /\ forall k g u a b,
            nth_error groups0 k = Some g ->
            nth_error (drawn identity_draw groups0 0%nat) k = Some u ->
            (a < length g)%nat -> (b < length g)%nat ->
            at2 Cx.zero H (nth a g 0%nat) (nth b g 0%nat) = u a b.
Proof.
  assert (H1 : groups0 <> []) by discriminate.
  assert (H2 : ~ In [] groups0).
  { intros [E|[E|[]]]; discriminate. }
  assert (H3 : disjoint_groups groups0).
  { cbn. repeat split.
    - repeat constructor; cbn; intuition lia.
    - intros g' i [<-|[]] [<-|[<-|[]]]; cbn; intuition lia.
    - repeat constructor; cbn; intuition lia.
    - intros g' i []. }
  split; [exact H1|]. split; [exact H2|]. split; [exact H3|].
  exact (randomGroupCoupling_blocks nat identity_draw groups0 0%nat H1 H2 H3).
Defined.
